(** * TodoFusion: task model, storage layer, task service and list view

    A shallow embedding of the JavaScript sources [Task.js] (classes [Task]
    and [TaskListView]), [TaskService.js] and the storage manager [DB],
    followed by the properties of the specification that concern them.

    Conventions of the embedding:
    - strings are [String.string]; [toLowerCase] and [trim] act on the ASCII
      range (other characters are left as they are);
    - a JavaScript number is an integer or [NaN] ([number]); array lengths,
      epoch milliseconds and minute counts are integers.  The one place where
      the source computes with fractions, the completion rate, works on
      rationals, each result rounded by the rounding [fl] of the environment;
      [binary64] is the rounding of an engine;
    - the current instant, the local time zone, the random suffix of new
      identifiers and the rounding are read from an explicit environment
      [Env]; one call of an operation sees one instant;
    - a JSON text is kept as the value it encodes, or as malformed; of the
      settings the text keeps what JSON can hold (no [undefined], [null] for
      [NaN]); [localStorage] holds the three items of the application and
      may refuse a write;
    - object fields that may be missing or [null] have type [prop A];
    - exceptions are explicit ([res]); operations on the store live in the
      state-and-exception monad [M];
    - [Array.prototype.sort] is stable (ECMAScript 2019); it is modelled by
      insertion at the first position that does not compare greater.  For a
      consistent comparison function every conforming engine returns the same
      array; for any other the order is the engine's, and [shortSort] is
      what V8 does on a short array. *)

From Stdlib Require Import ZArith List String Ascii Bool Lia Permutation Sorted.
From Stdlib Require Import QArith Qround Qpower DecimalString.
From Stdlib Require Uint63 PrimFloat FloatOps SpecFloat.
Import ListNotations.

Close Scope Q_scope.
Open Scope list_scope.
Open Scope string_scope.
Open Scope Z_scope.

(** ** The JavaScript runtime *)

Module JS.

(** *** Exceptions *)

Inductive exn : Type := TypeError | SyntaxError | QuotaExceededError.

Inductive res (A : Type) : Type :=
| Ok (a : A)
| Throw (e : exn).
Arguments Ok {A} a.
Arguments Throw {A} e.

Definition res_bind {A B} (r : res A) (k : A -> res B) : res B :=
  match r with
  | Ok a => k a
  | Throw e => Throw e
  end.

(** *** Strings *)

Definition isWhiteSpace (c : ascii) : bool :=
  match nat_of_ascii c with
  | 9%nat | 10%nat | 11%nat | 12%nat | 13%nat | 32%nat => true
  | _ => false
  end.

Fixpoint trimStart (s : string) : string :=
  match s with
  | EmptyString => EmptyString
  | String c s' => if isWhiteSpace c then trimStart s' else s
  end.

Fixpoint trimEnd (s : string) : string :=
  match s with
  | EmptyString => EmptyString
  | String c s' =>
      match trimEnd s' with
      | EmptyString => if isWhiteSpace c then EmptyString else String c EmptyString
      | r => String c r
      end
  end.

Definition trim (s : string) : string := trimEnd (trimStart s).

Definition lowerChar (c : ascii) : ascii :=
  let n := nat_of_ascii c in
  if ((65 <=? n) && (n <=? 90))%nat then ascii_of_nat (n + 32) else c.

Fixpoint toLowerCase (s : string) : string :=
  match s with
  | EmptyString => EmptyString
  | String c s' => String (lowerChar c) (toLowerCase s')
  end.

(** [s.includes(sub)]: [sub] occurs in [s] as a substring. *)
Fixpoint includes (s sub : string) : bool :=
  String.prefix sub s
  || match s with
     | EmptyString => false
     | String _ s' => includes s' sub
     end.

(** [arr.includes(x)] on an array of strings. *)
Definition arr_includes (l : list string) (x : string) : bool :=
  existsb (String.eqb x) l.

(** A string is falsy exactly when it is empty. *)
Definition nonEmpty (s : string) : bool := negb (String.eqb s "").

(** *** Numbers *)

Inductive number : Type :=
| NaN
| Num (z : Z).

Definition num_lt (a b : number) : bool :=
  match a, b with
  | Num x, Num y => x <? y
  | _, _ => false
  end.

(** [a <= b] is [!(b < a)] unless an operand is [NaN]; [a >= b] likewise. *)
Definition num_le (a b : number) : bool :=
  match a, b with
  | Num x, Num y => x <=? y
  | _, _ => false
  end.

Definition num_ge (a b : number) : bool := num_le b a.

Definition num_sub (a b : number) : number :=
  match a, b with
  | Num x, Num y => Num (x - y)
  | _, _ => NaN
  end.

Definition digitVal (c : ascii) : option Z :=
  let n := nat_of_ascii c in
  if ((48 <=? n) && (n <=? 57))%nat then Some (Z.of_nat (n - 48)) else None.

Fixpoint allDigits (acc : Z) (s : string) : option Z :=
  match s with
  | EmptyString => Some acc
  | String c s' =>
      match digitVal c with
      | Some d => allDigits (10 * acc + d) s'
      | None => None
      end
  end.

(** [Number(s)] for the strings of the model: surrounding white space is
    dropped, the empty string is [0], an optionally signed run of decimal
    digits is its value, anything else is [NaN].  (Fractions, exponents,
    radix prefixes and [Infinity] are outside the integer model.) *)
Definition StringToNumber (s : string) : number :=
  match trim s with
  | EmptyString => Num 0
  | String c s' =>
      let digits (t : string) (sign : Z) :=
        match t with
        | EmptyString => NaN
        | _ => match allDigits 0 t with
               | Some v => Num (sign * v)
               | None => NaN
               end
        end in
      if Ascii.eqb c "-" then digits s' (-1)
      else if Ascii.eqb c "+" then digits s' 1
      else digits (String c s') 1
  end.

(** *** Dates *)

Definition msPerDay : Z := 86400000.

(** Days since 1970-01-01 of a proleptic Gregorian date. *)
Definition days_from_civil (y m d : Z) : Z :=
  let y' := if m <=? 2 then y - 1 else y in
  let era := y' / 400 in
  let yoe := y' - era * 400 in
  let mp := if 2 <? m then m - 3 else m + 9 in
  let doy := (153 * mp + 2) / 5 + d - 1 in
  let doe := yoe * 365 + yoe / 4 - yoe / 100 + doy in
  era * 146097 + doe - 719468.

(** Year, month (1..12) and day of the month of a day number. *)
Definition civil_from_days (z : Z) : Z * Z * Z :=
  let z' := z + 719468 in
  let era := z' / 146097 in
  let doe := z' - era * 146097 in
  let yoe := (doe - doe / 1460 + doe / 36524 - doe / 146096) / 365 in
  let y := yoe + era * 400 in
  let doy := doe - (365 * yoe + yoe / 4 - yoe / 100) in
  let mp := (5 * doy + 2) / 153 in
  let d := doy - (153 * mp + 2) / 5 + 1 in
  let m := if mp <? 10 then mp + 3 else mp - 9 in
  ((if m <=? 2 then y + 1 else y), m, d).

Definition isLeap (y : Z) : bool :=
  ((y mod 4 =? 0) && negb (y mod 100 =? 0)) || (y mod 400 =? 0).

Definition daysInMonth (y m : Z) : Z :=
  if m =? 2 then (if isLeap y then 29 else 28)
  else if (m =? 4) || (m =? 6) || (m =? 9) || (m =? 11) then 30
  else 31.

Fixpoint readDigits (n : nat) (acc : Z) (s : string) : option (Z * string) :=
  match n with
  | O => Some (acc, s)
  | S n' =>
      match s with
      | EmptyString => None
      | String c s' =>
          match digitVal c with
          | Some d => readDigits n' (10 * acc + d) s'
          | None => None
          end
      end
  end.

Definition readChar (c : ascii) (s : string) : option string :=
  match s with
  | String c' s' => if Ascii.eqb c c' then Some s' else None
  | EmptyString => None
  end.

Definition obind {A B} (o : option A) (k : A -> option B) : option B :=
  match o with
  | Some a => k a
  | None => None
  end.

Notation "'let?' p ':=' o 'in' k" :=
  (obind o (fun p => k))
    (at level 10, p pattern, o at level 100, k at level 200).

(** The time of day after the [T] of an ISO string: [HH:mm:ss], an optional
    [.sss], then [Z]; in milliseconds. *)
Definition parseTimeOfDay (s : string) : option Z :=
  let? (hh, s) := readDigits 2 0 s in
  let? s := readChar ":" s in
  let? (mi, s) := readDigits 2 0 s in
  let? s := readChar ":" s in
  let? (ss, s) := readDigits 2 0 s in
  let? (ms, s) :=
    match readChar "." s with
    | Some s' => readDigits 3 0 s'
    | None => Some (0, s)
    end in
  let? s := readChar "Z" s in
  if (String.eqb s "") && (hh <=? 23) && (mi <=? 59) && (ss <=? 59)
  then Some (((hh * 60 + mi) * 60 + ss) * 1000 + ms)
  else None.

(** [Date.parse]: the two formats the application produces are recognised,
    the date-only form [YYYY-MM-DD] of a date input (midnight UTC) and the
    form [YYYY-MM-DDTHH:mm:ss.sssZ] of [toISOString]; any other string is an
    invalid date, [None]. *)
Definition Date_parse (s : string) : option Z :=
  let? (y, s) := readDigits 4 0 s in
  let? s := readChar "-" s in
  let? (m, s) := readDigits 2 0 s in
  let? s := readChar "-" s in
  let? (d, s) := readDigits 2 0 s in
  if (1 <=? m) && (m <=? 12) && (1 <=? d) && (d <=? daysInMonth y m) then
    let day := days_from_civil y m d * msPerDay in
    match s with
    | EmptyString => Some day
    | String c s' =>
        if Ascii.eqb c "T"
        then let? t := parseTimeOfDay s' in Some (day + t)
        else None
    end
  else None.

Definition digitChar (d : Z) : ascii := ascii_of_nat (48 + Z.to_nat (d mod 10)).

Fixpoint padDigits (n : nat) (z : Z) : string :=
  match n with
  | O => EmptyString
  | S n' => padDigits n' (z / 10) ++ String (digitChar z) EmptyString
  end.

(** [new Date(ms).toISOString()], for years 0000 to 9999. *)
Definition toISOString (ms : Z) : string :=
  let '(y, m, d) := civil_from_days (ms / msPerDay) in
  let t := ms mod msPerDay in
  padDigits 4 y ++ "-" ++ padDigits 2 m ++ "-" ++ padDigits 2 d ++ "T"
  ++ padDigits 2 (t / 3600000) ++ ":" ++ padDigits 2 (t / 60000 mod 60) ++ ":"
  ++ padDigits 2 (t / 1000 mod 60) ++ "." ++ padDigits 3 (t mod 1000) ++ "Z".

(** The calendar getters read the instant in local time; [tz] is the offset
    of the local zone from UTC in milliseconds. *)
Definition getFullYear (tz ms : Z) : Z :=
  let '(y, _, _) := civil_from_days ((ms + tz) / msPerDay) in y.
Definition getMonth (tz ms : Z) : Z :=
  let '(_, m, _) := civil_from_days ((ms + tz) / msPerDay) in m - 1.
Definition getDate (tz ms : Z) : Z :=
  let '(_, _, d) := civil_from_days ((ms + tz) / msPerDay) in d.

(** *** Dynamically typed values *)

Inductive value : Type :=
| VUndefined
| VNull
| VBool (b : bool)
| VNumber (n : number)
| VString (s : string)
| VArray (l : list string).

Definition truthy (v : value) : bool :=
  match v with
  | VUndefined | VNull => false
  | VBool b => b
  | VNumber NaN => false
  | VNumber (Num z) => negb (z =? 0)
  | VString s => nonEmpty s
  | VArray _ => true
  end.

(** [ToPrimitive]: an array becomes its elements joined by commas. *)
Definition ToPrimitive (v : value) : value :=
  match v with
  | VArray l => VString (String.concat "," l)
  | _ => v
  end.

Definition ToNumber (v : value) : number :=
  match ToPrimitive v with
  | VUndefined => NaN
  | VNull => Num 0
  | VBool b => Num (if b then 1 else 0)
  | VNumber n => n
  | VString s => StringToNumber s
  | VArray _ => NaN
  end.

(** [a < b]: two strings compare by code units, anything else as numbers. *)
Definition js_lt (a b : value) : bool :=
  match ToPrimitive a, ToPrimitive b with
  | VString x, VString y => String.ltb x y
  | pa, pb => num_lt (ToNumber pa) (ToNumber pb)
  end.

(** [a > b] is [b < a]. *)
Definition js_gt (a b : value) : bool := js_lt b a.

(** [new Date(v).getTime()]. *)
Definition Date_getTime (v : value) : number :=
  match ToPrimitive v with
  | VString s => match Date_parse s with Some ms => Num ms | None => NaN end
  | p => ToNumber p
  end.

(** *** Object fields *)

(** A field of a plain object: missing ([undefined]), [null], or a value. *)
Inductive prop (A : Type) : Type :=
| Absent
| Null
| Val (a : A).
Arguments Absent {A}.
Arguments Null {A}.
Arguments Val {A} a.

(** [x || dflt] where the truthiness of a present value is [t]. *)
Definition or_else {A B} (t : A -> bool) (f : A -> B) (x : prop A) (dflt : B) : B :=
  match x with
  | Val a => if t a then f a else dflt
  | _ => dflt
  end.

(** [{...old, ...new}] on one field. *)
Definition spread {A} (old new : prop A) : prop A :=
  match new with
  | Absent => old
  | _ => new
  end.

(** [x != null]. *)
Definition notNull {A} (x : prop A) : bool :=
  match x with
  | Val _ => true
  | _ => false
  end.

(** *** The environment of a call *)

(** What an operation reads from outside the program: the current instant
    ([Date.now()], epoch milliseconds), the offset of the local time zone,
    the suffix [Math.random().toString(36).substr(2, 9)], and the rounding
    [fl] that the engine applies to the exact result of a division or a
    multiplication.  [fl] is [binary64] in an engine; exact arithmetic is the
    instance [fun x => x]. *)
Record Env : Type := mkEnv {
  now : Z;
  tz : Z;
  random : string;
  fl : Q -> Q
}.

(** [new Date().toISOString()]. *)
Definition nowISO (env : Env) : string := toISOString (now env).

(** *** Fractional arithmetic *)

(** The largest [e] with [2^e <= n/d], for positive [n] and [d]. *)
Definition ilog2 (n d : Z) : Z :=
  let e0 := Z.log2 n - Z.log2 d in
  let above := if 0 <=? e0 then 2 ^ e0 * d <=? n else d <=? 2 ^ (- e0) * n in
  if above then e0 else e0 - 1.

(** Nearest integer to [n/d] ([d] positive), ties to even. *)
Definition roundEven (n d : Z) : Z :=
  let q := n / d in
  let r := n mod d in
  match 2 * r ?= d with
  | Lt => q
  | Gt => q + 1
  | Eq => if Z.even q then q else q + 1
  end.

Definition two : Q := 2 # 1.

(** [roundEven] on a rational. *)
Definition RNE (y : Q) : Z := roundEven (Qnum y) (Zpos (Qden y)).

(** A positive rational rounded to 53 significant bits: scaled by a power
    of two into the range from 2^52 to 2^53, rounded to the nearest integer,
    ties to even, and scaled back. *)
Definition round53 (x : Q) : Q :=
  let k := ilog2 (Qnum x) (Zpos (Qden x)) - 52 in
  Qmult (inject_Z (RNE (Qmult x (Qpower two (- k))))) (Qpower two k).

(** Round-to-nearest-even onto the numbers with a 53 bit significand: the
    rounding of IEEE 754 binary64 away from its overflow and subnormal
    ranges. *)
Definition binary64 (x : Q) : Q :=
  match Qnum x with
  | Z0 => x
  | Zpos _ => round53 x
  | Zneg _ => Qopp (round53 (Qopp x))
  end.

(** [Math.round]: the nearest integer, ties towards positive infinity. *)
Definition Math_round (x : Q) : Z := Qfloor (Qplus x (Qmake 1 2)).

(** *** JSON text *)

(** A string handed to [JSON.parse] either is malformed or encodes a value;
    the encoded value stands for the text, so that [JSON.parse] of what
    [JSON.stringify] wrote is the value written. *)
Inductive json (A : Type) : Type :=
| Malformed (raw : string)
| Encoded (a : A).
Arguments Malformed {A} raw.
Arguments Encoded {A} a.

Definition JSON_parse {A} (text : json A) : res A :=
  match text with
  | Encoded a => Ok a
  | Malformed _ => Throw SyntaxError
  end.

Definition JSON_stringify {A} (a : A) : json A := Encoded a.

(** What [JSON.stringify] keeps of the value of an object field, as
    [JSON.parse] reads it back: a field whose value is [undefined] is left
    out, and [NaN] is written as [null]. *)
Definition JSON_field (v : value) : option value :=
  match v with
  | VUndefined => None
  | VNumber NaN => Some VNull
  | _ => Some v
  end.

(** [Array.prototype.sort] with a comparison function that may throw. *)
Section Sort.
Context {A : Type} (comparefn : A -> A -> res Z).

Fixpoint sort_insert (x : A) (l : list A) : res (list A) :=
  match l with
  | [] => Ok [x]
  | y :: l' =>
      res_bind (comparefn x y) (fun c =>
        if c <=? 0 then Ok (x :: y :: l')
        else res_bind (sort_insert x l') (fun r => Ok (y :: r)))
  end.

Fixpoint Array_sort (l : list A) : res (list A) :=
  match l with
  | [] => Ok []
  | x :: l' => res_bind (Array_sort l') (sort_insert x)
  end.

End Sort.

(** *** The sort of V8 on a short array

    The standard leaves the order open when [comparefn] is not a consistent
    comparator.  On an array of fewer than 64 elements V8 sorts in two
    steps, calling [comparefn] with the later element first: it takes the
    longest run at the start of the array, which it reverses when it
    descends strictly, and then inserts each further element into the
    sorted part at the place a binary search finds. *)
Section ShortSort.
Context {A : Type} (comparefn : A -> A -> res Z).

(** The number of elements after the second that continue the run. *)
Fixpoint runRest (descending : bool) (previous : A) (l : list A) : res nat :=
  match l with
  | [] => Ok O
  | current :: l' =>
      res_bind (comparefn current previous) (fun order =>
        if Bool.eqb descending (order <? 0)
        then res_bind (runRest descending current l') (fun n => Ok (S n))
        else Ok O)
  end.

(** The length of the run and whether it descends. *)
Definition countRun (l : list A) : res (nat * bool) :=
  match l with
  | first :: second :: rest =>
      res_bind (comparefn second first) (fun order =>
        let descending := order <? 0 in
        res_bind (runRest descending second rest) (fun n =>
          Ok (S (S n), descending)))
  | _ => Ok (List.length l, false)
  end.

(** The binary search for the place of [pivot] between [left] and [right];
    the interval is empty after at most as many steps as it is long. *)
Fixpoint search (steps : nat) (pivot : A) (sorted : list A) (left right : nat)
  : res nat :=
  match steps with
  | O => Ok left
  | S steps' =>
      if (left <? right)%nat then
        let mid := (left + (right - left) / 2)%nat in
        match nth_error sorted mid with
        | Some element =>
            res_bind (comparefn pivot element) (fun order =>
              if order <? 0 then search steps' pivot sorted left mid
              else search steps' pivot sorted (S mid) right)
        | None => Ok left
        end
      else Ok left
  end.

Definition insertAt (place : nat) (pivot : A) (sorted : list A) : list A :=
  (firstn place sorted ++ pivot :: skipn place sorted)%list.

Fixpoint insertAll (sorted rest : list A) : res (list A) :=
  match rest with
  | [] => Ok sorted
  | pivot :: rest' =>
      res_bind (search (S (List.length sorted)) pivot sorted 0 (List.length sorted))
        (fun place => insertAll (insertAt place pivot sorted) rest')
  end.

Definition shortSort (l : list A) : res (list A) :=
  res_bind (countRun l) (fun '(n, descending) =>
    let run := firstn n l in
    insertAll (if descending then rev run else run) (skipn n l)).

End ShortSort.

(** [arr.sort()] without a comparison function orders strings by code units. *)
Definition defaultCompare (x y : string) : res Z :=
  Ok (if String.ltb x y then -1 else if String.ltb y x then 1 else 0).

(** [new Set(l)]: the elements in the order of their first occurrence. *)
Fixpoint Set_addAll (set l : list string) : list string :=
  match l with
  | [] => set
  | x :: l' => Set_addAll (if arr_includes set x then set else set ++ [x])%list l'
  end.

Definition Set_of (l : list string) : list string := Set_addAll [] l.

(** [s.split(sep)] for a separator of one character. *)
Fixpoint split (sep : ascii) (s : string) : list string :=
  match s with
  | EmptyString => [EmptyString]
  | String c s' =>
      if Ascii.eqb c sep then EmptyString :: split sep s'
      else match split sep s' with
           | h :: t => String c h :: t
           | [] => [String c EmptyString]
           end
  end.

(** [x || y] on two fields that hold strings. *)
Definition orProp (x y : prop string) : prop string :=
  match x with
  | Val s => if nonEmpty s then x else y
  | _ => y
  end.

(** A field as a value. *)
Definition valueOf (x : prop string) : value :=
  match x with
  | Absent => VUndefined
  | Null => VNull
  | Val s => VString s
  end.

End JS.


(** ** Plain task records

    What [JSON.parse] returns for a stored task, what [Task.toJSON] builds
    and what the callers pass as [taskData] or [updates]. *)

Record TaskData : Type := mkTaskData {
  d_id : JS.prop string;
  d_title : JS.prop string;
  d_description : JS.prop string;
  d_completed : JS.prop bool;
  d_priority : JS.prop string;
  d_dueDate : JS.prop string;
  d_tags : JS.prop (list string);
  d_createdAt : JS.prop string;
  d_updatedAt : JS.prop string;
  d_completedAt : JS.prop string;
  d_estimatedTime : JS.prop Z;
  d_actualTime : JS.prop Z;
  d_notes : JS.prop string;
  d_links : JS.prop (list string)
}.

(** The empty object [{}]. *)
Definition emptyData : TaskData :=
  mkTaskData JS.Absent JS.Absent JS.Absent JS.Absent JS.Absent JS.Absent JS.Absent
             JS.Absent JS.Absent JS.Absent JS.Absent JS.Absent JS.Absent JS.Absent.

(** [{...a, ...b}]. *)
Definition spreadData (a b : TaskData) : TaskData :=
  {| d_id := JS.spread (d_id a) (d_id b);
     d_title := JS.spread (d_title a) (d_title b);
     d_description := JS.spread (d_description a) (d_description b);
     d_completed := JS.spread (d_completed a) (d_completed b);
     d_priority := JS.spread (d_priority a) (d_priority b);
     d_dueDate := JS.spread (d_dueDate a) (d_dueDate b);
     d_tags := JS.spread (d_tags a) (d_tags b);
     d_createdAt := JS.spread (d_createdAt a) (d_createdAt b);
     d_updatedAt := JS.spread (d_updatedAt a) (d_updatedAt b);
     d_completedAt := JS.spread (d_completedAt a) (d_completedAt b);
     d_estimatedTime := JS.spread (d_estimatedTime a) (d_estimatedTime b);
     d_actualTime := JS.spread (d_actualTime a) (d_actualTime b);
     d_notes := JS.spread (d_notes a) (d_notes b);
     d_links := JS.spread (d_links a) (d_links b) |}.

(** ** Task.js: the class [Task] *)

Module Task.

Record t : Type := mk {
  id : option string;
  title : string;
  description : string;
  completed : bool;
  priority : string;
  dueDate : option string;
  tags : list string;
  createdAt : string;
  updatedAt : string;
  completedAt : option string;
  estimatedTime : option Z;
  actualTime : option Z;
  notes : string;
  links : list string
}.

Definition strOr (x : JS.prop string) (dflt : string) : string :=
  JS.or_else JS.nonEmpty (fun s => s) x dflt.
Definition strOrNull (x : JS.prop string) : option string :=
  JS.or_else JS.nonEmpty (@Some string) x None.
Definition numOrNull (x : JS.prop Z) : option Z :=
  JS.or_else (fun z => negb (z =? 0)) (@Some Z) x None.
Definition arrOr (x : JS.prop (list string)) : list string :=
  JS.or_else (fun _ => true) (fun l => l) x [].

(** [constructor(data = {})] *)
Definition new (env : JS.Env) (data : TaskData) : t :=
  {| id := strOrNull (d_id data);
     title := strOr (d_title data) "";
     description := strOr (d_description data) "";
     completed := JS.or_else (fun b => b) (fun b => b) (d_completed data) false;
     priority := strOr (d_priority data) "medium";
     dueDate := strOrNull (d_dueDate data);
     tags := arrOr (d_tags data);
     createdAt := strOr (d_createdAt data) (JS.nowISO env);
     updatedAt := strOr (d_updatedAt data) (JS.nowISO env);
     completedAt := strOrNull (d_completedAt data);
     estimatedTime := numOrNull (d_estimatedTime data);
     actualTime := numOrNull (d_actualTime data);
     notes := strOr (d_notes data) "";
     links := arrOr (d_links data) |}.

Record Validation : Type := mkValidation {
  isValid : bool;
  errors : list string
}.

(** A nullable string field is truthy when it is a non-empty string. *)
Definition isSet (x : option string) : bool :=
  match x with
  | Some s => JS.nonEmpty s
  | None => false
  end.

(** [new Date(this.dueDate).getTime()] *)
Definition dueTime (task : t) : JS.number :=
  match dueDate task with
  | Some s => JS.Date_getTime (JS.VString s)
  | None => JS.Date_getTime JS.VNull
  end.

Definition isNaN (n : JS.number) : bool :=
  match n with
  | JS.NaN => true
  | JS.Num _ => false
  end.

Definition validPriorities : list string := ["low"; "medium"; "high"; "urgent"].

Definition validate (task : t) : Validation :=
  let e1 := if negb (JS.nonEmpty (title task))
               || (String.length (JS.trim (title task)) =? 0)%nat
            then ["Title is required"] else [] in
  let e2 := if JS.nonEmpty (title task) && (200 <? String.length (title task))%nat
            then ["Title must be less than 200 characters"] else [] in
  let e3 := if JS.nonEmpty (priority task)
               && negb (JS.arr_includes validPriorities (priority task))
            then ["Invalid priority value"] else [] in
  let e4 := if isSet (dueDate task) && isNaN (dueTime task)
            then ["Invalid due date"] else [] in
  let errors := (e1 ++ e2 ++ e3 ++ e4)%list in
  {| isValid := (List.length errors =? 0)%nat; errors := errors |}.

Definition isOverdue (env : JS.Env) (task : t) : bool :=
  if negb (isSet (dueDate task)) || completed task then false
  else JS.num_lt (dueTime task) (JS.Num (JS.now env)).

Definition isDueToday (env : JS.Env) (task : t) : bool :=
  if negb (isSet (dueDate task)) then false
  else
    match dueTime task with
    | JS.Num due =>
        let today := JS.now env in
        (JS.getDate (JS.tz env) due =? JS.getDate (JS.tz env) today)
        && (JS.getMonth (JS.tz env) due =? JS.getMonth (JS.tz env) today)
        && (JS.getFullYear (JS.tz env) due =? JS.getFullYear (JS.tz env) today)
    | JS.NaN => false
    end.

Definition oneWeek : Z := 7 * 24 * 60 * 60 * 1000.

Definition isDueThisWeek (env : JS.Env) (task : t) : bool :=
  if negb (isSet (dueDate task)) then false
  else
    let today := JS.Num (JS.now env) in
    let due := dueTime task in
    JS.num_le (JS.num_sub due today) (JS.Num oneWeek) && JS.num_ge due today.

Definition toggleComplete (env : JS.Env) (task : t) : t :=
  let completed' := negb (completed task) in
  {| id := id task;
     title := title task;
     description := description task;
     completed := completed';
     priority := priority task;
     dueDate := dueDate task;
     tags := tags task;
     createdAt := createdAt task;
     updatedAt := JS.nowISO env;
     completedAt := if completed' then Some (JS.nowISO env) else None;
     estimatedTime := estimatedTime task;
     actualTime := actualTime task;
     notes := notes task;
     links := links task |}.

(** [this.tags = tags'; this.updatedAt = new Date().toISOString()] *)
Definition withTags (env : JS.Env) (task : t) (tags' : list string) : t :=
  {| id := id task;
     title := title task;
     description := description task;
     completed := completed task;
     priority := priority task;
     dueDate := dueDate task;
     tags := tags';
     createdAt := createdAt task;
     updatedAt := JS.nowISO env;
     completedAt := completedAt task;
     estimatedTime := estimatedTime task;
     actualTime := actualTime task;
     notes := notes task;
     links := links task |}.

Definition addTag (env : JS.Env) (task : t) (tag : string) : t :=
  let trimmedTag := JS.toLowerCase (JS.trim tag) in
  if JS.nonEmpty trimmedTag && negb (JS.arr_includes (tags task) trimmedTag)
  then withTags env task (tags task ++ [trimmedTag])%list
  else task.

Definition removeTag (env : JS.Env) (task : t) (tag : string) : t :=
  withTags env task (filter (fun x => negb (String.eqb x tag)) (tags task)).

Definition nullable {A} (x : option A) : JS.prop A :=
  match x with
  | Some a => JS.Val a
  | None => JS.Null
  end.

Definition toJSON (task : t) : TaskData :=
  {| d_id := nullable (id task);
     d_title := JS.Val (title task);
     d_description := JS.Val (description task);
     d_completed := JS.Val (completed task);
     d_priority := JS.Val (priority task);
     d_dueDate := nullable (dueDate task);
     d_tags := JS.Val (tags task);
     d_createdAt := JS.Val (createdAt task);
     d_updatedAt := JS.Val (updatedAt task);
     d_completedAt := nullable (completedAt task);
     d_estimatedTime := nullable (estimatedTime task);
     d_actualTime := nullable (actualTime task);
     d_notes := JS.Val (notes task);
     d_links := JS.Val (links task) |}.

Definition fromJSON (env : JS.Env) (data : TaskData) : t := new env data.

(** [task[key]] for a property name given as a string. *)
Definition getProp (task : t) (key : string) : JS.value :=
  let str (x : option string) :=
    match x with Some s => JS.VString s | None => JS.VNull end in
  let num (x : option Z) :=
    match x with Some z => JS.VNumber (JS.Num z) | None => JS.VNull end in
  if String.eqb key "id" then str (id task)
  else if String.eqb key "title" then JS.VString (title task)
  else if String.eqb key "description" then JS.VString (description task)
  else if String.eqb key "completed" then JS.VBool (completed task)
  else if String.eqb key "priority" then JS.VString (priority task)
  else if String.eqb key "dueDate" then str (dueDate task)
  else if String.eqb key "tags" then JS.VArray (tags task)
  else if String.eqb key "createdAt" then JS.VString (createdAt task)
  else if String.eqb key "updatedAt" then JS.VString (updatedAt task)
  else if String.eqb key "completedAt" then str (completedAt task)
  else if String.eqb key "estimatedTime" then num (estimatedTime task)
  else if String.eqb key "actualTime" then num (actualTime task)
  else if String.eqb key "notes" then JS.VString (notes task)
  else if String.eqb key "links" then JS.VArray (links task)
  else JS.VUndefined.

(** [clone()] *)
Definition clone (env : JS.Env) (task : t) : t := new env (toJSON task).

End Task.

(** ** The storage manager [DB] *)

Module DB.

(** The settings object: option names and their values. *)
Definition Settings : Type := list (string * JS.value).

(** [localStorage] under the three keys of [STORAGE_KEYS]; [quota] tells
    whether [setItem] succeeds or throws. *)
Record Storage : Type := mkStorage {
  item_TASKS : option (JS.json (list TaskData));
  item_SETTINGS : option (JS.json Settings);
  item_THEME : option string;
  quota : bool
}.

(** Operations on the store: a state that survives an exception. *)
Definition M (A : Type) : Type := Storage -> JS.res A * Storage.

Definition ret {A} (a : A) : M A := fun st => (JS.Ok a, st).

Definition bind {A B} (m : M A) (k : A -> M B) : M B :=
  fun st =>
    match m st with
    | (JS.Ok a, st') => k a st'
    | (JS.Throw e, st') => (JS.Throw e, st')
    end.

Definition lift {A} (r : JS.res A) : M A := fun st => (r, st).

(** [try { body } catch (error) { handler }] *)
Definition try_catch {A} (body : M A) (handler : JS.exn -> M A) : M A :=
  fun st =>
    match body st with
    | (JS.Throw e, st') => handler e st'
    | r => r
    end.

Notation "x <- m ;; k" := (bind m (fun x => k))
  (at level 61, m at next level, right associativity).
Notation "m ;;; k" := (bind m (fun _ => k))
  (at level 61, right associativity).

Definition getItem_TASKS : M (option (JS.json (list TaskData))) :=
  fun st => (JS.Ok (item_TASKS st), st).

Definition setItem_TASKS (text : JS.json (list TaskData)) : M unit :=
  fun st =>
    if quota st
    then (JS.Ok tt, mkStorage (Some text) (item_SETTINGS st) (item_THEME st) (quota st))
    else (JS.Throw JS.QuotaExceededError, st).

Definition removeItem_TASKS : M unit :=
  fun st => (JS.Ok tt, mkStorage None (item_SETTINGS st) (item_THEME st) (quota st)).

Definition getItem_SETTINGS : M (option (JS.json Settings)) :=
  fun st => (JS.Ok (item_SETTINGS st), st).

Definition setItem_SETTINGS (text : JS.json Settings) : M unit :=
  fun st =>
    if quota st
    then (JS.Ok tt, mkStorage (item_TASKS st) (Some text) (item_THEME st) (quota st))
    else (JS.Throw JS.QuotaExceededError, st).

Definition getTasks : M (list TaskData) :=
  try_catch
    (tasks <- getItem_TASKS ;;
     match tasks with
     | Some text => lift (JS.JSON_parse text)
     | None => ret []
     end)
    (fun _ => ret []).

Definition saveTasks (tasks : list TaskData) : M bool :=
  try_catch
    (setItem_TASKS (JS.JSON_stringify tasks) ;;; ret true)
    (fun _ => ret false).

Definition decimal (z : Z) : string := NilZero.string_of_int (Z.to_int z).

Definition generateId (env : JS.Env) : string :=
  "task_" ++ decimal (JS.now env) ++ "_" ++ JS.random env.

Definition addTask (env : JS.Env) (taskData : TaskData) : M TaskData :=
  tasks <- getTasks ;;
  let newTask :=
    spreadData taskData
      {| d_id := JS.Val (Task.strOr (d_id taskData) (generateId env));
         d_title := JS.Absent;
         d_description := JS.Absent;
         d_completed := JS.Absent;
         d_priority := JS.Absent;
         d_dueDate := JS.Absent;
         d_tags := JS.Absent;
         d_createdAt := JS.Val (Task.strOr (d_createdAt taskData) (JS.nowISO env));
         d_updatedAt := JS.Val (JS.nowISO env);
         d_completedAt := JS.Absent;
         d_estimatedTime := JS.Absent;
         d_actualTime := JS.Absent;
         d_notes := JS.Absent;
         d_links := JS.Absent |} in
  saveTasks (tasks ++ [newTask])%list ;;;
  ret newTask.

(** [task.id === taskId] *)
Definition hasId (taskId : string) (task : TaskData) : bool :=
  match d_id task with
  | JS.Val s => String.eqb s taskId
  | _ => false
  end.

Fixpoint findIndex {A} (p : A -> bool) (l : list A) : option nat :=
  match l with
  | [] => None
  | x :: l' => if p x then Some O else option_map S (findIndex p l')
  end.

(** [l[index] = x] for an index inside the array. *)
Fixpoint setAt {A} (index : nat) (x : A) (l : list A) : list A :=
  match l, index with
  | [], _ => []
  | _ :: l', O => x :: l'
  | y :: l', S i => y :: setAt i x l'
  end.

(** [{ ...task, ...updates, updatedAt: new Date().toISOString() }] *)
Definition applyUpdates (env : JS.Env) (task updates : TaskData) : TaskData :=
  spreadData (spreadData task updates)
    {| d_id := JS.Absent;
       d_title := JS.Absent;
       d_description := JS.Absent;
       d_completed := JS.Absent;
       d_priority := JS.Absent;
       d_dueDate := JS.Absent;
       d_tags := JS.Absent;
       d_createdAt := JS.Absent;
       d_updatedAt := JS.Val (JS.nowISO env);
       d_completedAt := JS.Absent;
       d_estimatedTime := JS.Absent;
       d_actualTime := JS.Absent;
       d_notes := JS.Absent;
       d_links := JS.Absent |}.

Definition updateTask (env : JS.Env) (taskId : string) (updates : TaskData)
  : M (option TaskData) :=
  tasks <- getTasks ;;
  match findIndex (hasId taskId) tasks with
  | None => ret None
  | Some index =>
      match nth_error tasks index with
      | None => ret None
      | Some task =>
          let updated := applyUpdates env task updates in
          saveTasks (setAt index updated tasks) ;;;
          ret (Some updated)
      end
  end.

Definition deleteTask (taskId : string) : M bool :=
  tasks <- getTasks ;;
  let filteredTasks := filter (fun task => negb (hasId taskId task)) tasks in
  if (List.length filteredTasks =? List.length tasks)%nat
  then ret false
  else saveTasks filteredTasks ;;; ret true.

(** [!task.completed] on a stored record. *)
Definition notCompleted (task : TaskData) : bool :=
  negb (JS.or_else (fun b => b) (fun b => b) (d_completed task) false).

Definition toggleTaskComplete (env : JS.Env) (taskId : string) : M (option TaskData) :=
  tasks <- getTasks ;;
  match find (hasId taskId) tasks with
  | None => ret None
  | Some task =>
      updateTask env taskId
        {| d_id := JS.Absent;
           d_title := JS.Absent;
           d_description := JS.Absent;
           d_completed := JS.Val (notCompleted task);
           d_priority := JS.Absent;
           d_dueDate := JS.Absent;
           d_tags := JS.Absent;
           d_createdAt := JS.Absent;
           d_updatedAt := JS.Absent;
           d_completedAt :=
             if notCompleted task then JS.Val (JS.nowISO env) else JS.Null;
           d_estimatedTime := JS.Absent;
           d_actualTime := JS.Absent;
           d_notes := JS.Absent;
           d_links := JS.Absent |}
  end.

Definition getTask (taskId : string) : M (option TaskData) :=
  tasks <- getTasks ;;
  ret (find (hasId taskId) tasks).

Definition clearAllTasks : M bool :=
  try_catch (removeItem_TASKS ;;; ret true) (fun _ => ret false).

Definition getSettings : M Settings :=
  try_catch
    (settings <- getItem_SETTINGS ;;
     match settings with
     | Some text => lift (JS.JSON_parse text)
     | None => ret []
     end)
    (fun _ => ret []).

(** [JSON.stringify(settings)] *)
Definition stringifySettings (settings : Settings) : JS.json Settings :=
  JS.JSON_stringify
    (flat_map (fun entry : string * JS.value =>
                 match JS.JSON_field (snd entry) with
                 | Some v => [(fst entry, v)]
                 | None => []
                 end)
              settings).

Definition saveSettings (settings : Settings) : M bool :=
  try_catch
    (setItem_SETTINGS (stringifySettings settings) ;;; ret true)
    (fun _ => ret false).

(** The object written by [exportData] and read by [importData]. *)
Record Envelope : Type := mkEnvelope {
  e_tasks : JS.prop (list TaskData);
  e_settings : JS.prop Settings;
  e_exportedAt : JS.prop string
}.

Definition exportData (env : JS.Env) : M (JS.json Envelope) :=
  tasks <- getTasks ;;
  settings <- getSettings ;;
  let data :=
    {| e_tasks := JS.Val tasks;
       e_settings := JS.Val settings;
       e_exportedAt := JS.Val (JS.nowISO env) |} in
  ret (JS.JSON_stringify data).

Definition importData (jsonString : JS.json Envelope) : M bool :=
  try_catch
    (data <- lift (JS.JSON_parse jsonString) ;;
     match e_tasks data with
     | JS.Val tasks => saveTasks tasks ;;; ret tt
     | _ => ret tt
     end ;;;
     match e_settings data with
     | JS.Val settings => saveSettings settings ;;; ret tt
     | _ => ret tt
     end ;;;
     ret true)
    (fun _ => ret false).

(** The value [JSON.parse] makes of a text: [null], a value that is no
    object and has neither of the two fields (a boolean, a number, a string,
    an array), or an object. *)
Inductive Parsed : Type :=
| IsNull
| IsPlain
| IsObject (data : Envelope).

(** [data.tasks] and [data.settings]: reading a field of [null] throws. *)
Definition field {A} (f : Envelope -> JS.prop A) (data : Parsed)
  : JS.res (JS.prop A) :=
  match data with
  | IsNull => JS.Throw JS.TypeError
  | IsPlain => JS.Ok JS.Absent
  | IsObject object => JS.Ok (f object)
  end.

(** [importData(jsonString)] for a text that may encode any value. *)
Definition importDataOf (jsonString : JS.json Parsed) : M bool :=
  try_catch
    (data <- lift (JS.JSON_parse jsonString) ;;
     tasks <- lift (field e_tasks data) ;;
     match tasks with
     | JS.Val tasks => saveTasks tasks ;;; ret tt
     | _ => ret tt
     end ;;;
     settings <- lift (field e_settings data) ;;
     match settings with
     | JS.Val settings => saveSettings settings ;;; ret tt
     | _ => ret tt
     end ;;;
     ret true)
    (fun _ => ret false).

(** [a.updatedAt || a.createdAt] *)
Definition stamp (task : TaskData) : JS.prop string :=
  JS.orProp (d_updatedAt task) (d_createdAt task).

(** [dateB - dateA]; [sort] reads a [NaN] result as [+0]. *)
Definition compareModified (a b : TaskData) : JS.res Z :=
  let dateA := JS.Date_getTime (JS.valueOf (stamp a)) in
  let dateB := JS.Date_getTime (JS.valueOf (stamp b)) in
  JS.Ok (match JS.num_sub dateB dateA with
         | JS.Num z => z
         | JS.NaN => 0
         end).

Definition getLastModified : M (JS.prop string) :=
  tasks <- getTasks ;;
  if (List.length tasks =? 0)%nat then ret JS.Null
  else
    sorted <- lift (JS.Array_sort compareModified tasks) ;;
    match sorted with
    | first :: _ => ret (stamp first)
    | [] => lift (JS.Throw JS.TypeError)
    end.

End DB.

(** ** TaskService.js *)

Module TaskService.
Import DB.

Definition getAllTasks (env : JS.Env) : M (list Task.t) :=
  tasksData <- DB.getTasks ;;
  ret (map (Task.fromJSON env) tasksData).

(** The [filters] argument of [getFilteredTasks]. *)
Record Filters : Type := mkFilters {
  f_completed : JS.prop bool;
  f_priority : JS.prop string;
  f_dueFilter : JS.prop string;
  f_tags : JS.prop (list string);
  f_search : JS.prop string
}.

Definition noFilters : Filters :=
  mkFilters JS.Absent JS.Absent JS.Absent JS.Absent JS.Absent.

(** [task.completed === filters.completed], when [filters.completed] is not
    [undefined]. *)
Definition keepCompleted (f : JS.prop bool) (tasks : list Task.t) : list Task.t :=
  match f with
  | JS.Absent => tasks
  | JS.Null => filter (fun _ => false) tasks
  | JS.Val c => filter (fun task => Bool.eqb (Task.completed task) c) tasks
  end.

Definition keepPriority (f : JS.prop string) (tasks : list Task.t) : list Task.t :=
  match f with
  | JS.Val p =>
      if JS.nonEmpty p
      then filter (fun task => String.eqb (Task.priority task) p) tasks
      else tasks
  | _ => tasks
  end.

Definition keepDue (env : JS.Env) (f : JS.prop string) (tasks : list Task.t)
  : list Task.t :=
  match f with
  | JS.Val d =>
      if String.eqb d "today" then filter (Task.isDueToday env) tasks
      else if String.eqb d "upcoming" then
        filter (fun task => Task.isDueThisWeek env task
                            && negb (Task.isDueToday env task)) tasks
      else if String.eqb d "overdue" then filter (Task.isOverdue env) tasks
      else tasks
  | _ => tasks
  end.

(** [filters.tags.some(tag => task.tags.includes(tag))] *)
Definition hasSomeTag (wanted : list string) (task : Task.t) : bool :=
  existsb (fun tag => JS.arr_includes (Task.tags task) tag) wanted.

Definition keepTags (f : JS.prop (list string)) (tasks : list Task.t) : list Task.t :=
  match f with
  | JS.Val wanted =>
      if (0 <? List.length wanted)%nat then filter (hasSomeTag wanted) tasks
      else tasks
  | _ => tasks
  end.

Definition matchesSearch (search : string) (task : Task.t) : bool :=
  let searchLower := JS.toLowerCase search in
  JS.includes (JS.toLowerCase (Task.title task)) searchLower
  || JS.includes (JS.toLowerCase (Task.description task)) searchLower.

Definition keepSearch (f : JS.prop string) (tasks : list Task.t) : list Task.t :=
  match f with
  | JS.Val search =>
      if JS.nonEmpty search then filter (matchesSearch search) tasks else tasks
  | _ => tasks
  end.

Definition getFilteredTasks (env : JS.Env) (filters : Filters) : M (list Task.t) :=
  tasks <- getAllTasks env ;;
  let tasks := keepCompleted (f_completed filters) tasks in
  let tasks := keepPriority (f_priority filters) tasks in
  let tasks := keepDue env (f_dueFilter filters) tasks in
  let tasks := keepTags (f_tags filters) tasks in
  let tasks := keepSearch (f_search filters) tasks in
  ret tasks.

Definition getTodayTasks (env : JS.Env) : M (list Task.t) :=
  getFilteredTasks env
    (mkFilters (JS.Val false) JS.Absent (JS.Val "today") JS.Absent JS.Absent).

Definition getUpcomingTasks (env : JS.Env) : M (list Task.t) :=
  getFilteredTasks env
    (mkFilters (JS.Val false) JS.Absent (JS.Val "upcoming") JS.Absent JS.Absent).

Definition getOverdueTasks (env : JS.Env) : M (list Task.t) :=
  getFilteredTasks env
    (mkFilters (JS.Val false) JS.Absent (JS.Val "overdue") JS.Absent JS.Absent).

Definition getCompletedTasks (env : JS.Env) : M (list Task.t) :=
  getFilteredTasks env
    (mkFilters (JS.Val true) JS.Absent JS.Absent JS.Absent JS.Absent).

Definition getTasksByPriority (env : JS.Env) (priority : string) : M (list Task.t) :=
  getFilteredTasks env
    (mkFilters (JS.Val false) (JS.Val priority) JS.Absent JS.Absent JS.Absent).

Definition createTask (env : JS.Env) (taskData : TaskData) : M (option Task.t) :=
  let task := Task.new env taskData in
  let validation := Task.validate task in
  if negb (Task.isValid validation) then ret None
  else
    savedTask <- DB.addTask env (Task.toJSON task) ;;
    ret (Some (Task.fromJSON env savedTask)).

Definition updateTask (env : JS.Env) (taskId : string) (updates : TaskData)
  : M (option Task.t) :=
  updated <- DB.updateTask env taskId updates ;;
  ret (option_map (Task.fromJSON env) updated).

Definition deleteTask (taskId : string) : M bool := DB.deleteTask taskId.

Definition toggleTaskComplete (env : JS.Env) (taskId : string) : M (option Task.t) :=
  updated <- DB.toggleTaskComplete env taskId ;;
  ret (option_map (Task.fromJSON env) updated).

(** The key is read as a date when its name contains [At] or is [dueDate]. *)
Definition isDateKey (sortBy : string) : bool :=
  JS.includes sortBy "At" || String.eqb sortBy "dueDate".

(** [aVal ? new Date(aVal).getTime() : 0] *)
Definition dateKey (v : JS.value) : JS.value :=
  JS.VNumber (if JS.truthy v then JS.Date_getTime v else JS.Num 0).

(** The two values after the string branch; [bVal.toLowerCase()] throws a
    [TypeError] unless [bVal] is a string. *)
Definition lowerBoth (aVal bVal : JS.value) : JS.res (JS.value * JS.value) :=
  match aVal with
  | JS.VString sa =>
      match bVal with
      | JS.VString sb =>
          JS.Ok (JS.VString (JS.toLowerCase sa), JS.VString (JS.toLowerCase sb))
      | _ => JS.Throw JS.TypeError
      end
  | _ => JS.Ok (aVal, bVal)
  end.

(** The comparison function handed to [sort]. *)
Definition compareTasks (sortBy order : string) (a b : Task.t) : JS.res Z :=
  let aVal := Task.getProp a sortBy in
  let bVal := Task.getProp b sortBy in
  let aVal := if isDateKey sortBy then dateKey aVal else aVal in
  let bVal := if isDateKey sortBy then dateKey bVal else bVal in
  JS.res_bind (lowerBoth aVal bVal) (fun '(aVal, bVal) =>
    if JS.js_lt aVal bVal then JS.Ok (if String.eqb order "asc" then -1 else 1)
    else if JS.js_gt aVal bVal then JS.Ok (if String.eqb order "asc" then 1 else -1)
    else JS.Ok 0).

(** [sortTasks(tasks, sortBy = 'createdAt', order = 'desc')] *)
Definition sortTasks (tasks : list Task.t) (sortBy order : string)
  : JS.res (list Task.t) :=
  JS.Array_sort (compareTasks sortBy order) tasks.

(** [sortTasks] as V8 runs it on fewer than 64 tasks. *)
Definition sortTasksV8 (tasks : list Task.t) (sortBy order : string)
  : JS.res (list Task.t) :=
  JS.shortSort (compareTasks sortBy order) tasks.

Record ByPriority : Type := mkByPriority {
  low : nat;
  medium : nat;
  high : nat;
  urgent : nat
}.

Record Statistics : Type := mkStatistics {
  total : nat;
  completed : nat;
  active : nat;
  overdue : nat;
  completionRate : Z;
  byPriority : ByPriority
}.

Definition ofNat (n : nat) : Q := inject_Z (Z.of_nat n).

(** [total > 0 ? Math.round((completed / total) * 100) : 0] *)
Definition rate (env : JS.Env) (completed total : nat) : Z :=
  if (0 <? total)%nat
  then JS.Math_round
         (JS.fl env (Qmult (JS.fl env (Qdiv (ofNat completed) (ofNat total)))
                           (inject_Z 100)))
  else 0.

Definition countPriority (p : string) (tasks : list Task.t) : nat :=
  List.length (filter (fun t => String.eqb (Task.priority t) p) tasks).

Definition getStatistics (env : JS.Env) : M Statistics :=
  tasks <- getAllTasks env ;;
  let completed := filter (fun t => Task.completed t) tasks in
  let active := filter (fun t => negb (Task.completed t)) tasks in
  let overdue := filter (fun t => Task.isOverdue env t) tasks in
  ret {| total := List.length tasks;
         completed := List.length completed;
         active := List.length active;
         overdue := List.length overdue;
         completionRate := rate env (List.length completed) (List.length tasks);
         byPriority :=
           {| low := countPriority "low" tasks;
              medium := countPriority "medium" tasks;
              high := countPriority "high" tasks;
              urgent := countPriority "urgent" tasks |} |}.

Definition searchTasks (env : JS.Env) (query : string) : M (list Task.t) :=
  getFilteredTasks env
    (mkFilters JS.Absent JS.Absent JS.Absent JS.Absent (JS.Val query)).

Fixpoint bulkUpdate (env : JS.Env) (taskIds : list string) (updates : TaskData)
  : M nat :=
  match taskIds with
  | [] => ret O
  | id :: rest =>
      r <- updateTask env id updates ;;
      count <- bulkUpdate env rest updates ;;
      ret (match r with Some _ => S count | None => count end)
  end.

Fixpoint bulkDelete (taskIds : list string) : M nat :=
  match taskIds with
  | [] => ret O
  | id :: rest =>
      r <- deleteTask id ;;
      count <- bulkDelete rest ;;
      ret (if r then S count else count)
  end.

Definition getAllTags (env : JS.Env) : M (list string) :=
  tasks <- getAllTasks env ;;
  let allTags := flat_map Task.tags tasks in
  lift (JS.Array_sort JS.defaultCompare (JS.Set_of allTags)).

End TaskService.

(** ** Task.js: the component [TaskListView] *)

Module TaskListView.
Import DB.

Record Counts : Type := mkCounts {
  allTasksCount : nat;
  todayTasksCount : nat;
  upcomingTasksCount : nat;
  completedTasksCount : nat;
  highPriorityCount : nat;
  mediumPriorityCount : nat;
  lowPriorityCount : nat
}.

(** What a call of [render] leaves on the page: the remembered filter and
    search, one row per task in the container, which of the container and
    the empty-state placeholder is shown, and the sidebar counts. *)
Record View : Type := mkView {
  currentFilter : string;
  currentSearch : string;
  rows : list Task.t;
  emptyStateShown : bool;
  counts : Counts
}.

Definition getTasksForFilter (env : JS.Env) (filter : string) : M (list Task.t) :=
  if String.eqb filter "today" then TaskService.getTodayTasks env
  else if String.eqb filter "upcoming" then TaskService.getUpcomingTasks env
  else if String.eqb filter "completed" then TaskService.getCompletedTasks env
  else
    tasks <- TaskService.getAllTasks env ;;
    ret (List.filter (fun t => negb (Task.completed t)) tasks).

Definition shouldShowTask (env : JS.Env) (task : Task.t) (filter : string) : bool :=
  if String.eqb filter "today" then
    Task.isDueToday env task && negb (Task.completed task)
  else if String.eqb filter "upcoming" then
    Task.isDueThisWeek env task && negb (Task.isDueToday env task)
    && negb (Task.completed task)
  else if String.eqb filter "completed" then Task.completed task
  else negb (Task.completed task).

Definition updateCounts (env : JS.Env) : M Counts :=
  stats <- TaskService.getStatistics env ;;
  today <- TaskService.getTodayTasks env ;;
  upcoming <- TaskService.getUpcomingTasks env ;;
  high <- TaskService.getTasksByPriority env "high" ;;
  medium <- TaskService.getTasksByPriority env "medium" ;;
  low <- TaskService.getTasksByPriority env "low" ;;
  ret {| allTasksCount := TaskService.active stats;
         todayTasksCount := List.length today;
         upcomingTasksCount := List.length upcoming;
         completedTasksCount := TaskService.completed stats;
         highPriorityCount := List.length high;
         mediumPriorityCount := List.length medium;
         lowPriorityCount := List.length low |}.

Definition render (env : JS.Env) (filter search : string) : M View :=
  tasks <- getTasksForFilter env filter ;;
  tasks <- (if JS.nonEmpty search
            then found <- TaskService.searchTasks env search ;;
                 ret (List.filter (fun task => shouldShowTask env task filter) found)
            else ret tasks) ;;
  tasks <- lift (TaskService.sortTasks tasks "createdAt" "desc") ;;
  counts <- updateCounts env ;;
  ret {| currentFilter := filter;
         currentSearch := search;
         rows := tasks;
         emptyStateShown := (List.length tasks =? 0)%nat;
         counts := counts |}.

End TaskListView.

(** ** The dashboard controller [Dashboard]

    The page is taken to hold the list container and the empty-state
    element that [init] looks up. *)

Module Dashboard.
Import DB.

(** What [renderTasks] leaves on the page. *)
Record Page : Type := mkPage {
  rows : list Task.t;
  emptyStateShown : bool;
  counts : TaskListView.Counts
}.

Definition renderTasks (env : JS.Env) (tasks : list Task.t) : M Page :=
  counts <- TaskListView.updateCounts env ;;
  ret {| rows := tasks;
         emptyStateShown := (List.length tasks =? 0)%nat;
         counts := counts |}.

(** [st.id === task.id] *)
Definition sameId (a b : Task.t) : bool :=
  match Task.id a, Task.id b with
  | Some x, Some y => String.eqb x y
  | None, None => true
  | _, _ => false
  end.

(** [filter.replace('priority-', '')] on a filter that starts with the
    prefix. *)
Definition priorityOf (filter : string) : string :=
  String.substring 9 (String.length filter - 9) filter.

(** [render()] with [this.currentFilter] and [this.currentSearch]. *)
Definition render (env : JS.Env) (currentFilter currentSearch : string) : M Page :=
  if String.prefix "priority-" currentFilter then
    tasks <- TaskService.getTasksByPriority env (priorityOf currentFilter) ;;
    if JS.nonEmpty currentSearch then
      searchedTasks <- TaskService.searchTasks env currentSearch ;;
      renderTasks env
        (filter (fun task => existsb (fun st => sameId st task) searchedTasks) tasks)
    else renderTasks env tasks
  else
    view <- TaskListView.render env currentFilter currentSearch ;;
    ret {| rows := TaskListView.rows view;
           emptyStateShown := TaskListView.emptyStateShown view;
           counts := TaskListView.counts view |}.

End Dashboard.

(** ** ModalManager.js *)

Module ModalManager.
Import DB.

(** The values of the inputs of the task form. *)
Record Form : Type := mkForm {
  taskTitle : string;
  taskDescription : string;
  taskDueDate : string;
  taskPriority : string;
  taskTags : string
}.

(** The manager: the task being edited, whether the dialog is open, and the
    form. *)
Record Modal : Type := mkModal {
  currentTaskId : option string;
  isOpen : bool;
  form : Form
}.

(** [tagsInput.split(',').map(tag => tag.trim().toLowerCase()).filter(Boolean)] *)
Definition parseTags (tagsInput : string) : list string :=
  filter JS.nonEmpty
         (map (fun tag => JS.toLowerCase (JS.trim tag)) (JS.split "," tagsInput)).

Definition getFormData (f : Form) : TaskData :=
  let tagsInput := JS.trim (taskTags f) in
  {| d_id := JS.Absent;
     d_title := JS.Val (JS.trim (taskTitle f));
     d_description := JS.Val (JS.trim (taskDescription f));
     d_completed := JS.Absent;
     d_priority := JS.Val (taskPriority f);
     d_dueDate := if JS.nonEmpty (taskDueDate f) then JS.Val (taskDueDate f)
                  else JS.Null;
     d_tags := JS.Val (if JS.nonEmpty tagsInput then parseTags tagsInput else []);
     d_createdAt := JS.Absent;
     d_updatedAt := JS.Absent;
     d_completedAt := JS.Absent;
     d_estimatedTime := JS.Absent;
     d_actualTime := JS.Absent;
     d_notes := JS.Absent;
     d_links := JS.Absent |}.

(** [s.split('T')[0]] *)
Definition datePart (s : string) : string :=
  match JS.split "T" s with
  | h :: _ => h
  | [] => EmptyString
  end.

Definition populateForm (task : Task.t) : Form :=
  {| taskTitle := Task.title task;
     taskDescription := Task.description task;
     taskDueDate := match Task.dueDate task with
                    | Some s => if JS.nonEmpty s then datePart s else EmptyString
                    | None => EmptyString
                    end;
     taskPriority := if JS.nonEmpty (Task.priority task) then Task.priority task
                     else "medium";
     taskTags := String.concat ", " (Task.tags task) |}.

(** [openEditModal(task)]; the title of the dialog is not kept. *)
Definition openEditModal (task : Task.t) : Modal :=
  {| currentTaskId := Task.id task; isOpen := true; form := populateForm task |}.

(** [close()]; [form.reset()] puts back the values the page declares,
    [defaults]. *)
Definition close (defaults : Form) (m : Modal) : Modal :=
  {| currentTaskId := None; isOpen := false; form := defaults |}.

(** [handleSubmit()], followed by [TaskListView.render()] with the filter
    and the search the list remembers. *)
Definition handleSubmit (env : JS.Env) (defaults : Form)
           (listFilter listSearch : string) (m : Modal)
  : M (Modal * TaskListView.View) :=
  let formData := getFormData (form m) in
  match currentTaskId m with
  | Some taskId =>
      if JS.nonEmpty taskId
      then TaskService.updateTask env taskId formData ;;; ret tt
      else TaskService.createTask env formData ;;; ret tt
  | None => TaskService.createTask env formData ;;; ret tt
  end ;;;
  view <- TaskListView.render env listFilter listSearch ;;
  ret (close defaults m, view).

End ModalManager.

(** ** Theme management *)

Module Theme.

(** [style.display] of the two icons inside the theme toggle, for those
    that exist. *)
Record Icons : Type := mkIcons {
  sunIcon : option string;
  moonIcon : option string
}.

(** The parts of the page the theme functions touch: the [data-theme]
    attribute of the root element, the theme toggle if there is one, and
    whether the system prefers a dark scheme. *)
Record Page : Type := mkPage {
  dataTheme : option string;
  themeToggle : option Icons;
  prefersDark : bool
}.

Definition World : Type := (Page * DB.Storage)%type.

Definition updateThemeIcon (theme : string) (page : Page) : Page :=
  match themeToggle page with
  | None => page
  | Some icons =>
      let shown (dark light : string) (icon : option string) :=
        match icon with
        | Some _ => Some (if String.eqb theme "dark" then dark else light)
        | None => None
        end in
      {| dataTheme := dataTheme page;
         themeToggle := Some {| sunIcon := shown "none" "block" (sunIcon icons);
                                moonIcon := shown "block" "none" (moonIcon icons) |};
         prefersDark := prefersDark page |}
  end.

(** [setTheme(theme)]: the attribute is set before the item is written, and
    a refused write is not caught. *)
Definition setTheme (theme : string) (w : World) : JS.res unit * World :=
  let '(page, st) := w in
  let page1 := {| dataTheme := Some theme;
                  themeToggle := themeToggle page;
                  prefersDark := prefersDark page |} in
  if DB.quota st
  then (JS.Ok tt,
        (updateThemeIcon theme page1,
         DB.mkStorage (DB.item_TASKS st) (DB.item_SETTINGS st) (Some theme)
                      (DB.quota st)))
  else (JS.Throw JS.QuotaExceededError, (page1, st)).

Definition initTheme (w : World) : JS.res unit * World :=
  let '(page, st) := w in
  let theme :=
    match DB.item_THEME st with
    | Some saved =>
        if JS.nonEmpty saved then saved
        else if prefersDark page then "dark" else "light"
    | None => if prefersDark page then "dark" else "light"
    end in
  setTheme theme w.

Definition toggleTheme (w : World) : JS.res unit * World :=
  let current := dataTheme (fst w) in
  let next :=
    match current with
    | Some c => if String.eqb c "dark" then "light" else "dark"
    | None => "dark"
    end in
  setTheme next w.

End Theme.

(** ** Notions used in the statements *)

(** The persisted task collection: what [DB.getTasks] reads from the store. *)
Definition stored (st : DB.Storage) : list TaskData :=
  match DB.item_TASKS st with
  | Some (JS.Encoded tasks) => tasks
  | _ => []
  end.

(** The task instances [TaskService.getAllTasks] builds from the store. *)
Definition allTasks (env : JS.Env) (st : DB.Storage) : list Task.t :=
  map (Task.fromJSON env) (stored st).

(** The store after the tasks item has been written. *)
Definition written (tasks : list TaskData) (st : DB.Storage) : DB.Storage :=
  DB.mkStorage (Some (JS.Encoded tasks)) (DB.item_SETTINGS st) (DB.item_THEME st)
               (DB.quota st).

(** The store after [saveTasks]: written when the quota allows it. *)
Definition saved (tasks : list TaskData) (st : DB.Storage) : DB.Storage :=
  if DB.quota st then written tasks st else st.

(** A copy of a record with another [updatedAt]. *)
Definition withUpdatedAt (x : JS.prop string) (d : TaskData) : TaskData :=
  {| d_id := d_id d;
     d_title := d_title d;
     d_description := d_description d;
     d_completed := d_completed d;
     d_priority := d_priority d;
     d_dueDate := d_dueDate d;
     d_tags := d_tags d;
     d_createdAt := d_createdAt d;
     d_updatedAt := x;
     d_completedAt := d_completedAt d;
     d_estimatedTime := d_estimatedTime d;
     d_actualTime := d_actualTime d;
     d_notes := d_notes d;
     d_links := d_links d |}.

(** Every field that [updates] gives has in [record] the value given:
    writing [updates] over [record] changes nothing. *)
Definition givenVerbatim (updates record : TaskData) : Prop :=
  spreadData record updates = record.

(** An update that gives the title only. *)
Definition titleOnly (title : string) : TaskData :=
  mkTaskData JS.Absent (JS.Val title) JS.Absent JS.Absent JS.Absent JS.Absent
             JS.Absent JS.Absent JS.Absent JS.Absent JS.Absent JS.Absent
             JS.Absent JS.Absent.

(** An update that gives [updatedAt] only. *)
Definition updatedAtOnly (stamp : string) : TaskData :=
  withUpdatedAt (JS.Val stamp) emptyData.

(** *** Reachable stores *)

(** [completed == true] exactly when [completedAt != null]. *)
Definition consistent (task : Task.t) : Prop :=
  Task.completed task = true <-> Task.completedAt task <> None.

(** The relation of [consistent] on a stored record. *)
Definition rawConsistent (data : TaskData) : Prop :=
  JS.or_else (fun b => b) (fun b => b) (d_completed data) false = true
  <-> Task.strOrNull (d_completedAt data) <> None.

(** The operations of the service that write tasks. *)
Inductive operation : Type :=
| Create (taskData : TaskData)
| Update (taskId : string) (updates : TaskData)
| Toggle (taskId : string)
| Delete (taskId : string).

(** The store an operation leaves behind. *)
Definition perform (env : JS.Env) (op : operation) (st : DB.Storage) : DB.Storage :=
  match op with
  | Create taskData => snd (TaskService.createTask env taskData st)
  | Update taskId updates => snd (TaskService.updateTask env taskId updates st)
  | Toggle taskId => snd (TaskService.toggleTaskComplete env taskId st)
  | Delete taskId => snd (TaskService.deleteTask taskId st)
  end.

(** The stores reached from an empty [localStorage] by operations that
    satisfy [allowed], each in an environment of its own. *)
Inductive reachable (allowed : operation -> Prop) : DB.Storage -> Prop :=
| reach_empty (quota : bool) :
    reachable allowed (DB.mkStorage None None None quota)
| reach_step (env : JS.Env) (op : operation) (st : DB.Storage) :
    reachable allowed st -> allowed op ->
    reachable allowed (perform env op st).

Definition anyOperation (op : operation) : Prop := True.

(** The data gives neither [completed] nor [completedAt]. *)
Definition leavesCompletion (data : TaskData) : Prop :=
  d_completed data = JS.Absent /\ d_completedAt data = JS.Absent.

(** Creation and update leave the completion fields to toggle-complete, as
    the data of the editor form does. *)
Definition completionByToggle (op : operation) : Prop :=
  match op with
  | Create taskData => leavesCompletion taskData
  | Update _ updates => leavesCompletion updates
  | Toggle _ | Delete _ => True
  end.

(** An update that gives [completed] only. *)
Definition completedOnly (b : bool) : TaskData :=
  mkTaskData JS.Absent JS.Absent JS.Absent (JS.Val b) JS.Absent JS.Absent
             JS.Absent JS.Absent JS.Absent JS.Absent JS.Absent JS.Absent
             JS.Absent JS.Absent.

(** *** The filter categories as predicates on one task *)

Definition completedOk (f : JS.prop bool) (task : Task.t) : bool :=
  match f with
  | JS.Absent => true
  | JS.Null => false
  | JS.Val c => Bool.eqb (Task.completed task) c
  end.

Definition priorityOk (f : JS.prop string) (task : Task.t) : bool :=
  match f with
  | JS.Val p => if JS.nonEmpty p then String.eqb (Task.priority task) p else true
  | _ => true
  end.

Definition dueOk (env : JS.Env) (f : JS.prop string) (task : Task.t) : bool :=
  match f with
  | JS.Val d =>
      if String.eqb d "today" then Task.isDueToday env task
      else if String.eqb d "upcoming" then
        Task.isDueThisWeek env task && negb (Task.isDueToday env task)
      else if String.eqb d "overdue" then Task.isOverdue env task
      else true
  | _ => true
  end.

(** A non-empty list of wanted tags is met by a task that carries at least
    one of them. *)
Definition tagsOk (f : JS.prop (list string)) (task : Task.t) : bool :=
  match f with
  | JS.Val (tag :: wanted) =>
      existsb (fun w => existsb (String.eqb w) (Task.tags task)) (tag :: wanted)
  | _ => true
  end.

Definition searchOk (f : JS.prop string) (task : Task.t) : bool :=
  match f with
  | JS.Val search =>
      if JS.nonEmpty search then TaskService.matchesSearch search task else true
  | _ => true
  end.

(** The conjunction of the categories. *)
Definition accepts (env : JS.Env) (filters : TaskService.Filters) (task : Task.t)
  : bool :=
  completedOk (TaskService.f_completed filters) task
  && priorityOk (TaskService.f_priority filters) task
  && dueOk env (TaskService.f_dueFilter filters) task
  && tagsOk (TaskService.f_tags filters) task
  && searchOk (TaskService.f_search filters) task.

(** [{priority: "high", tags: ["work"]}] *)
Definition highWork : TaskService.Filters :=
  TaskService.mkFilters JS.Absent (JS.Val "high") JS.Absent (JS.Val ["work"])
                        JS.Absent.

(** Data that gives the tags only, and data that gives the due date only. *)
Definition tagsOnly (tags : list string) : TaskData :=
  mkTaskData JS.Absent JS.Absent JS.Absent JS.Absent JS.Absent JS.Absent
             (JS.Val tags) JS.Absent JS.Absent JS.Absent JS.Absent JS.Absent
             JS.Absent JS.Absent.

Definition dueOnly (due : string) : TaskData :=
  mkTaskData JS.Absent JS.Absent JS.Absent JS.Absent JS.Absent (JS.Val due)
             JS.Absent JS.Absent JS.Absent JS.Absent JS.Absent JS.Absent
             JS.Absent JS.Absent.

(** *** Relative order *)

Definition Task_eq_dec (a b : Task.t) : {a = b} + {a <> b}.
Proof.
  decide equality;
    solve [ apply string_dec | apply Bool.bool_dec
          | apply (list_eq_dec string_dec)
          | decide equality; solve [apply string_dec | apply Z.eq_dec] ].
Defined.

(** The value the comparison function reads from a task. *)
Definition sortKey (sortBy : string) (task : Task.t) : JS.value :=
  if TaskService.isDateKey sortBy
  then TaskService.dateKey (Task.getProp task sortBy)
  else Task.getProp task sortBy.

(** The task is [a] or [b]. *)
Definition oneOf (a b task : Task.t) : bool :=
  (if Task_eq_dec task a then true else false)
  || (if Task_eq_dec task b then true else false).

(** *** The completion rate *)

(** What the theorems on the completion rate ask of the rounding: on the
    non-negative rationals it is monotone, and it leaves 0, 1 and 100 as they
    are.  Exact arithmetic and [JS.binary64] both meet it. *)
Definition wellRounded (fl : Q -> Q) : Prop :=
  (forall x y, (0 <= x)%Q -> (x <= y)%Q -> (fl x <= fl y)%Q)
  /\ (fl 0 == 0)%Q /\ (fl 1 == 1)%Q /\ (fl (inject_Z 100) == inject_Z 100)%Q.

(** The rate in the words of the specification, in exact arithmetic:
    [round(completed / total * 100)], and 0 when there is no task. *)
Definition exactRate (completed total : nat) : Z :=
  match total with
  | O => 0
  | S _ =>
      Qfloor (TaskService.ofNat completed / TaskService.ofNat total * inject_Z 100
              + (1 # 2))%Q
  end.

(** A stored record that is completed or not. *)
Definition done (b : bool) : TaskData :=
  {| d_id := JS.Val "task_1";
     d_title := JS.Val "Ship report";
     d_description := JS.Val "";
     d_completed := JS.Val b;
     d_priority := JS.Val "medium";
     d_dueDate := JS.Null;
     d_tags := JS.Val [];
     d_createdAt := JS.Val "2025-01-10T08:00:00.000Z";
     d_updatedAt := JS.Val "2025-01-12T08:00:00.000Z";
     d_completedAt := if b then JS.Val "2025-01-12T08:00:00.000Z" else JS.Null;
     d_estimatedTime := JS.Null;
     d_actualTime := JS.Null;
     d_notes := JS.Val "";
     d_links := JS.Val [] |}.

(** *** Tags and forms *)

(** [tag.trim().toLowerCase()] *)
Definition normalizeTag (tag : string) : string := JS.toLowerCase (JS.trim tag).

(** The tags hold no entry twice and no empty entry. *)
Definition tagsClean (task : Task.t) : Prop :=
  NoDup (Task.tags task) /\ ~ In "" (Task.tags task).

Fixpoint hasChar (c : ascii) (s : string) : bool :=
  match s with
  | EmptyString => false
  | String c' s' => Ascii.eqb c' c || hasChar c s'
  end.

(** A tag as the editor writes it: not empty, without a comma, without
    white space around it, in lower case. *)
Definition cleanTag (tag : string) : Prop :=
  tag <> "" /\ hasChar "," tag = false /\ JS.trim tag = tag
  /\ JS.toLowerCase tag = tag.

(** *** Records up to some fields *)

(** A record without its identifier and its two time stamps. *)
Definition blankMeta (d : TaskData) : TaskData :=
  {| d_id := JS.Absent;
     d_title := d_title d;
     d_description := d_description d;
     d_completed := d_completed d;
     d_priority := d_priority d;
     d_dueDate := d_dueDate d;
     d_tags := d_tags d;
     d_createdAt := JS.Absent;
     d_updatedAt := JS.Absent;
     d_completedAt := d_completedAt d;
     d_estimatedTime := d_estimatedTime d;
     d_actualTime := d_actualTime d;
     d_notes := d_notes d;
     d_links := d_links d |}.

(** A record without [completed], [completedAt] and [updatedAt]. *)
Definition blankCompletion (d : TaskData) : TaskData :=
  {| d_id := d_id d;
     d_title := d_title d;
     d_description := d_description d;
     d_completed := JS.Absent;
     d_priority := d_priority d;
     d_dueDate := d_dueDate d;
     d_tags := d_tags d;
     d_createdAt := d_createdAt d;
     d_updatedAt := JS.Absent;
     d_completedAt := JS.Absent;
     d_estimatedTime := d_estimatedTime d;
     d_actualTime := d_actualTime d;
     d_notes := d_notes d;
     d_links := d_links d |}.

(** A value that JSON text holds as it is. *)
Definition jsonExact (v : JS.value) : Prop :=
  v <> JS.VUndefined /\ v <> JS.VNumber JS.NaN.

(** The persisted settings: what [DB.getSettings] reads from the store. *)
Definition storedSettings (st : DB.Storage) : DB.Settings :=
  match DB.item_SETTINGS st with
  | Some (JS.Encoded settings) => settings
  | _ => []
  end.

(** The identifier a new record gets: the one the data gives, or a
    generated one. *)
Definition newId (env : JS.Env) (data : TaskData) : string :=
  match Task.id (Task.new env data) with
  | Some s => s
  | None => DB.generateId env
  end.

(** The record [DB.addTask] makes of its argument. *)
Definition addedRecord (env : JS.Env) (taskData : TaskData) : TaskData :=
  spreadData taskData
    {| d_id := JS.Val (Task.strOr (d_id taskData) (DB.generateId env));
       d_title := JS.Absent;
       d_description := JS.Absent;
       d_completed := JS.Absent;
       d_priority := JS.Absent;
       d_dueDate := JS.Absent;
       d_tags := JS.Absent;
       d_createdAt := JS.Val (Task.strOr (d_createdAt taskData) (JS.nowISO env));
       d_updatedAt := JS.Val (JS.nowISO env);
       d_completedAt := JS.Absent;
       d_estimatedTime := JS.Absent;
       d_actualTime := JS.Absent;
       d_notes := JS.Absent;
       d_links := JS.Absent |}.

(** The record [DB.toggleTaskComplete] makes of a stored record. *)
Definition toggled (env : JS.Env) (task : TaskData) : TaskData :=
  DB.applyUpdates env task
    {| d_id := JS.Absent;
       d_title := JS.Absent;
       d_description := JS.Absent;
       d_completed := JS.Val (DB.notCompleted task);
       d_priority := JS.Absent;
       d_dueDate := JS.Absent;
       d_tags := JS.Absent;
       d_createdAt := JS.Absent;
       d_updatedAt := JS.Absent;
       d_completedAt :=
         if DB.notCompleted task then JS.Val (JS.nowISO env) else JS.Null;
       d_estimatedTime := JS.Absent;
       d_actualTime := JS.Absent;
       d_notes := JS.Absent;
       d_links := JS.Absent |}.

(** *** Keys of the date sort *)

(** The number the comparison function of [sortTasks] reads for a date key;
    [None] where the date does not parse. *)
Definition keyTime (sortBy : string) (task : Task.t) : option Z :=
  match sortKey sortBy task with
  | JS.VNumber (JS.Num z) => Some z
  | _ => None
  end.

(** The order [sortTasks] aims at on such numbers. *)
Definition inOrder (order : string) (x y : option Z) : Prop :=
  match x, y with
  | Some a, Some b => if String.eqb order "asc" then a <= b else b <= a
  | _, _ => False
  end.

(** *** Consistent comparison

    The comparison function of [sortTasks] is a consistent comparator on
    the tasks of a list: it returns a number for every two of them, the
    results for a pair and for the swapped pair have opposite signs, and
    "not greater" is transitive, strictly when one of the two steps is
    strict. *)
Definition consistentOn (sortBy order : string) (tasks : list Task.t) : Prop :=
  (forall a b, In a tasks -> In b tasks ->
               exists c, TaskService.compareTasks sortBy order a b = JS.Ok c)
  /\ (forall a b c c',
         In a tasks -> In b tasks ->
         TaskService.compareTasks sortBy order a b = JS.Ok c ->
         TaskService.compareTasks sortBy order b a = JS.Ok c' ->
         (c < 0 <-> 0 < c') /\ (0 < c <-> c' < 0))
  /\ (forall a b c x y z,
         In a tasks -> In b tasks -> In c tasks ->
         TaskService.compareTasks sortBy order a b = JS.Ok x ->
         TaskService.compareTasks sortBy order b c = JS.Ok y ->
         TaskService.compareTasks sortBy order a c = JS.Ok z ->
         x <= 0 -> y <= 0 -> z <= 0 /\ (x < 0 \/ y < 0 -> z < 0)).

(** Under a comparison function and among the elements [known]: [a] does
    not come after [b]; [a] comes before [b]; the elements of the class [p]
    compare equal with one another; and what holds of two neighbours in a
    run, which descends strictly or does not descend. *)
Definition notAfterBy {A} (comparefn : A -> A -> JS.res Z) (known : A -> Prop)
           (a b : A) : Prop :=
  known a /\ known b /\ exists c, comparefn a b = JS.Ok c /\ c <= 0.

Definition beforeBy {A} (comparefn : A -> A -> JS.res Z) (known : A -> Prop)
           (a b : A) : Prop :=
  known a /\ known b /\ exists c, comparefn a b = JS.Ok c /\ c < 0.

Definition alikeBy {A} (comparefn : A -> A -> JS.res Z) (known : A -> Prop)
           (p : A -> bool) : Prop :=
  forall x y, known x -> known y -> p x = true -> p y = true ->
              comparefn x y = JS.Ok 0.

Definition inRunBy {A} (comparefn : A -> A -> JS.res Z) (known : A -> Prop)
           (descending : bool) (previous next : A) : Prop :=
  if descending then beforeBy comparefn known next previous
  else notAfterBy comparefn known previous next.

(** No task of the list compares greater than a later one. *)
Definition ordered (sortBy order : string) (tasks : list Task.t) : Prop :=
  StronglySorted
    (fun a b => exists c, TaskService.compareTasks sortBy order a b = JS.Ok c
                          /\ c <= 0)
    tasks.

(** Two tasks that compare equal are in [output] in the relative order they
    have in [input]. *)
Definition keepsOrder (sortBy order : string) (input output : list Task.t) : Prop :=
  forall a b,
    TaskService.compareTasks sortBy order a b = JS.Ok 0 ->
    filter (oneOf a b) output = filter (oneOf a b) input.

(** The result of the comparison function on two times. *)
Definition timeOrder (order : string) (x y : Z) : Z :=
  if x <? y then (if String.eqb order "asc" then -1 else 1)
  else if y <? x then (if String.eqb order "asc" then 1 else -1)
  else 0.

(** The key values of the tasks can be compared with one another: under a
    date key every date parses or is missing, under [id] every task has an
    identifier, and under any other key always. *)
Definition comparable (sortBy : string) (tasks : list Task.t) : Prop :=
  if TaskService.isDateKey sortBy
  then Forall (fun task => keyTime sortBy task <> None) tasks
  else sortBy = "id" -> Forall (fun task => Task.id task <> None) tasks.

(** The result of the comparison function on two strings. *)
Definition textOrder (order : string) (x y : string) : Z :=
  if String.ltb x y then (if String.eqb order "asc" then -1 else 1)
  else if String.ltb y x then (if String.eqb order "asc" then 1 else -1)
  else 0.

(** *** What the lists show *)

(** The task is shown by the task list for a filter selector and a search. *)
Definition listed (env : JS.Env) (selector search : string) (task : Task.t) : bool :=
  TaskListView.shouldShowTask env task selector
  && (if JS.nonEmpty search then TaskService.matchesSearch search task else true).

(** Every task comes before the tasks created earlier. *)
Definition newestFirst (tasks : list Task.t) : Prop :=
  StronglySorted
    (fun a b => inOrder "desc" (keyTime "createdAt" a) (keyTime "createdAt" b))
    tasks.

(** The task is active and has the priority, if one is named. *)
Definition inBucket (priority : string) (task : Task.t) : bool :=
  negb (Task.completed task)
  && (if JS.nonEmpty priority then String.eqb (Task.priority task) priority
      else true).

(** The write a submitted editor form asks for: an update of the task the
    dialog remembers, or else a creation. *)
Definition submission (m : ModalManager.Modal) : operation :=
  let formData := ModalManager.getFormData (ModalManager.form m) in
  match ModalManager.currentTaskId m with
  | Some taskId =>
      if JS.nonEmpty taskId then Update taskId formData else Create formData
  | None => Create formData
  end.

Definition id_eq_dec (x y : option string) : {x = y} + {x <> y}.
Proof. decide equality. apply string_dec. Defined.

(** Some stored task that matches the search has the identifier of the
    task ([null] counting as an identifier). *)
Definition idMatched (env : JS.Env) (st : DB.Storage) (search : string)
           (task : Task.t) : bool :=
  existsb (fun found =>
             if id_eq_dec (Task.id found) (Task.id task)
             then true else false)
          (filter (TaskService.matchesSearch search) (allTasks env st)).

(** The time of the stamp [updatedAt || createdAt] of a record. *)
Definition stampTime (task : TaskData) : JS.number :=
  JS.Date_getTime (JS.valueOf (DB.stamp task)).

(** The two themes. *)
Definition isTheme (theme : string) : Prop := theme = "dark" \/ theme = "light".

(** *** Sample data *)

(** 2025-01-15T10:00:00.000Z, in UTC, with exact arithmetic. *)
Definition env0 : JS.Env := JS.mkEnv 1736935200000 0 "k3x9q2m1z" (fun x => x).

(** The same instant in an engine, where results are rounded to binary64. *)
Definition env64 : JS.Env := JS.mkEnv 1736935200000 0 "k3x9q2m1z" JS.binary64.

Definition emptyStorage : DB.Storage := DB.mkStorage None None None true.

(** The identifier [generateId] makes in [env0]. *)
Definition sampleId : string := "task_1736935200000_k3x9q2m1z".

(** The store after the editor form created one task in an empty store. *)
Definition createdStore : DB.Storage :=
  perform env0 (Create (titleOnly "Ship report")) emptyStorage.

(** A stored record as [createTask] writes it for a title and an identifier. *)
Definition record (taskId title : string) : TaskData :=
  {| d_id := JS.Val taskId;
     d_title := JS.Val title;
     d_description := JS.Val "";
     d_completed := JS.Val false;
     d_priority := JS.Val "medium";
     d_dueDate := JS.Null;
     d_tags := JS.Val [];
     d_createdAt := JS.Val "2025-01-10T08:00:00.000Z";
     d_updatedAt := JS.Val "2025-01-10T08:00:00.000Z";
     d_completedAt := JS.Null;
     d_estimatedTime := JS.Null;
     d_actualTime := JS.Null;
     d_notes := JS.Val "";
     d_links := JS.Val [] |}.

Definition storageOf (tasks : list TaskData) : DB.Storage :=
  DB.mkStorage (Some (JS.Encoded tasks)) None None true.

(** A stored record with a priority and tags. *)
Definition tagged (taskId title priority : string) (tags : list string) : TaskData :=
  {| d_id := JS.Val taskId;
     d_title := JS.Val title;
     d_description := JS.Val "";
     d_completed := JS.Val false;
     d_priority := JS.Val priority;
     d_dueDate := JS.Null;
     d_tags := JS.Val tags;
     d_createdAt := JS.Val "2025-01-10T08:00:00.000Z";
     d_updatedAt := JS.Val "2025-01-10T08:00:00.000Z";
     d_completedAt := JS.Null;
     d_estimatedTime := JS.Null;
     d_actualTime := JS.Null;
     d_notes := JS.Val "";
     d_links := JS.Val [] |}.

Definition taggedStore : DB.Storage :=
  storageOf [tagged "task_1" "Water plants" "high" ["home"];
             tagged "task_2" "Quarterly report" "high" ["work"; "q1"];
             tagged "task_3" "Book room" "low" ["work"]].

(** A stored record with a creation time. *)
Definition stamped (taskId title createdAt : string) : TaskData :=
  {| d_id := JS.Val taskId;
     d_title := JS.Val title;
     d_description := JS.Val "";
     d_completed := JS.Val false;
     d_priority := JS.Val "medium";
     d_dueDate := JS.Null;
     d_tags := JS.Val [];
     d_createdAt := JS.Val createdAt;
     d_updatedAt := JS.Val createdAt;
     d_completedAt := JS.Null;
     d_estimatedTime := JS.Null;
     d_actualTime := JS.Null;
     d_notes := JS.Val "";
     d_links := JS.Val [] |}.

Definition taskAlpha : Task.t :=
  Task.new env0 (stamped "task_1" "Alpha report" "2025-01-10T08:00:00.000Z").
Definition taskBeta : Task.t :=
  Task.new env0 (stamped "task_2" "Beta report" "2025-01-10T08:00:00.000Z").
Definition taskGamma : Task.t :=
  Task.new env0 (stamped "task_3" "Gamma notes" "2025-01-12T08:00:00.000Z").

Definition stampedStore : DB.Storage :=
  storageOf [stamped "task_1" "Alpha report" "2025-01-10T08:00:00.000Z";
             stamped "task_2" "Beta report" "2025-01-10T08:00:00.000Z";
             stamped "task_3" "Gamma notes" "2025-01-12T08:00:00.000Z"].

(** A store of [completed + active] tasks. *)
Definition tally (completed active : nat) : DB.Storage :=
  storageOf (repeat (done true) completed ++ repeat (done false) active)%list.

(** A page with a theme toggle that shows the sun, on a system that prefers
    a light scheme, and the same page after a reload on a system that
    prefers a dark one. *)
Definition lightPage : Theme.Page :=
  Theme.mkPage (Some "light") (Some (Theme.mkIcons (Some "block") (Some "none")))
               false.

Definition reloadedPage : Theme.Page :=
  Theme.mkPage None (Some (Theme.mkIcons (Some "block") (Some "none"))) true.

(** Tasks whose creation time cannot be read, and four that can: two of
    them created at the same time. *)
Definition undatedOne : Task.t := Task.new env0 (stamped "task_x1" "One" "soon").
Definition undatedTwo : Task.t := Task.new env0 (stamped "task_x2" "Two" "soon").
Definition undatedThree : Task.t := Task.new env0 (stamped "task_x3" "Three" "soon").
Definition taskEarly : Task.t :=
  Task.new env0 (stamped "task_c" "Early" "2025-01-01T08:00:00.000Z").
Definition taskFirst : Task.t :=
  Task.new env0 (stamped "task_a" "First" "2025-02-01T08:00:00.000Z").
Definition taskSecond : Task.t :=
  Task.new env0 (stamped "task_b" "Second" "2025-02-01T08:00:00.000Z").
Definition taskLate : Task.t :=
  Task.new env0 (stamped "task_z" "Late" "2025-03-01T08:00:00.000Z").

(** Two records created with the same identifier. *)
Definition sharedIdStore : DB.Storage :=
  storageOf [tagged "task_x" "Order foo" "high" [];
             tagged "task_x" "Order bar" "low" []].

(** A store whose quota is used up. *)
Definition fullStorage : DB.Storage := DB.mkStorage None None None false.

(** The editor form as it is declared in the page, and with a title typed
    in. *)
Definition blankForm : ModalManager.Form :=
  ModalManager.mkForm "" "" "" "medium" "".

Definition typedForm : ModalManager.Form :=
  ModalManager.mkForm " Ship report " "" "2025-01-20" "high" "Work, , q1,".

(** A task with two tags and a due time. *)
Definition dueTagged : Task.t :=
  Task.new env0
    {| d_id := JS.Val "task_9";
       d_title := JS.Val "Quarterly report";
       d_description := JS.Val "";
       d_completed := JS.Val false;
       d_priority := JS.Val "high";
       d_dueDate := JS.Val "2025-01-20T17:30:00.000Z";
       d_tags := JS.Val ["work"; "q1"];
       d_createdAt := JS.Val "2025-01-10T08:00:00.000Z";
       d_updatedAt := JS.Val "2025-01-10T08:00:00.000Z";
       d_completedAt := JS.Null;
       d_estimatedTime := JS.Null;
       d_actualTime := JS.Null;
       d_notes := JS.Val "";
       d_links := JS.Val [] |}.

(** ** The store *)

Lemma getTasks_run (st : DB.Storage) : DB.getTasks st = (JS.Ok (stored st), st).
Proof.
  unfold DB.getTasks, DB.try_catch, DB.bind, DB.getItem_TASKS, stored.
  destruct (DB.item_TASKS st) as [[raw | tasks] | ]; reflexivity.
Qed.

Lemma saveTasks_run (tasks : list TaskData) (st : DB.Storage) :
  DB.saveTasks tasks st =
  if DB.quota st then (JS.Ok true, written tasks st) else (JS.Ok false, st).
Proof.
  unfold DB.saveTasks, DB.try_catch, DB.bind, DB.setItem_TASKS, written.
  destruct (DB.quota st); reflexivity.
Qed.

Lemma stored_written (tasks : list TaskData) (st : DB.Storage) :
  stored (written tasks st) = tasks.
Proof. reflexivity. Qed.

Lemma getSettings_run (st : DB.Storage) :
  exists settings, DB.getSettings st = (JS.Ok settings, st).
Proof.
  unfold DB.getSettings, DB.try_catch, DB.bind, DB.getItem_SETTINGS.
  destruct (DB.item_SETTINGS st) as [[raw | settings] | ]; eexists; reflexivity.
Qed.

Lemma saveSettings_run (settings : DB.Settings) (st : DB.Storage) :
  exists ok st', DB.saveSettings settings st = (JS.Ok ok, st') /\ stored st' = stored st.
Proof.
  unfold DB.saveSettings, DB.try_catch, DB.bind, DB.setItem_SETTINGS.
  destruct (DB.quota st); do 2 eexists; split; reflexivity.
Qed.

Lemma getAllTasks_run (env : JS.Env) (st : DB.Storage) :
  TaskService.getAllTasks env st = (JS.Ok (allTasks env st), st).
Proof.
  unfold TaskService.getAllTasks, DB.bind. rewrite getTasks_run. reflexivity.
Qed.

Lemma filter_all {A} (p : A -> bool) (l : list A) :
  (forall x, In x l -> p x = true) -> filter p l = l.
Proof.
  induction l as [| x l IH]; intros H; simpl.
  - reflexivity.
  - rewrite (H x (or_introl eq_refl)). f_equal. apply IH.
    intros y Hy. apply H. now right.
Qed.

Lemma hasId_false (taskId : string) (task : TaskData) :
  d_id task <> JS.Val taskId -> DB.hasId taskId task = false.
Proof.
  unfold DB.hasId. destruct (d_id task) as [ | | s]; try reflexivity.
  intros H. destruct (String.eqb_spec s taskId) as [-> | ]; [now elim H | reflexivity].
Qed.

(** C7.  Deleting an identifier that no stored task carries returns [false]
    as a normal result (nothing is thrown) and leaves the store, hence the
    persisted collection, as it was. *)
Theorem deleteTask_unknown_id (st : DB.Storage) (taskId : string) :
  (forall task, In task (stored st) -> d_id task <> JS.Val taskId) ->
  TaskService.deleteTask taskId st = (JS.Ok false, st)
  /\ DB.deleteTask taskId st = (JS.Ok false, st).
Proof.
  intros Hnone.
  assert (H : DB.deleteTask taskId st = (JS.Ok false, st)).
  { unfold DB.deleteTask, DB.bind. rewrite getTasks_run.
    rewrite filter_all.
    - rewrite Nat.eqb_refl. reflexivity.
    - intros task Htask. rewrite hasId_false; [reflexivity | now apply Hnone]. }
  split; [exact H | exact H].
Qed.

(** *** Export and import *)

Lemma exportData_run (env : JS.Env) (st : DB.Storage) :
  exists settings,
    DB.exportData env st =
    (JS.Ok (JS.Encoded (DB.mkEnvelope (JS.Val (stored st)) (JS.Val settings)
                                      (JS.Val (JS.nowISO env)))), st).
Proof.
  destruct (getSettings_run st) as [settings Hs]. exists settings.
  unfold DB.exportData, DB.bind. rewrite getTasks_run, Hs. reflexivity.
Qed.

Lemma bind_run {A B} (m : DB.M A) (k : A -> DB.M B) (st st' : DB.Storage) (a : A) :
  m st = (JS.Ok a, st') -> DB.bind m k st = k a st'.
Proof. intros H. unfold DB.bind. now rewrite H. Qed.

Lemma importData_run (tasks : list TaskData) (settings : DB.Settings)
      (stamp : string) (target : DB.Storage) :
  exists st',
    DB.importData
      (JS.Encoded (DB.mkEnvelope (JS.Val tasks) (JS.Val settings) (JS.Val stamp)))
      target = (JS.Ok true, st')
    /\ stored st' = if DB.quota target then tasks else stored target.
Proof.
  pose (mid := if DB.quota target then written tasks target else target).
  assert (Hmid : stored mid = if DB.quota target then tasks else stored target).
  { unfold mid. now destruct (DB.quota target). }
  destruct (saveSettings_run settings mid) as (ok & st' & Hs & Hst).
  exists st'. split; [ | now rewrite Hst].
  unfold DB.importData, DB.try_catch.
  rewrite (bind_run _ _ target target
             (DB.mkEnvelope (JS.Val tasks) (JS.Val settings) (JS.Val stamp)))
    by reflexivity.
  cbn [DB.e_tasks DB.e_settings].
  rewrite (bind_run _ _ target mid tt).
  - rewrite (bind_run _ _ mid st' tt); [reflexivity | ].
    now rewrite (bind_run _ _ mid st' ok Hs).
  - rewrite (bind_run _ _ target mid (DB.quota target)); [reflexivity | ].
    rewrite saveTasks_run. unfold mid. now destruct (DB.quota target).
Qed.

(** C8.  Exporting a store and importing the exported string, into the same
    store or into any store that accepts the write, succeeds and leaves the
    persisted collection equal to the exported one, record by record and
    field by field; so are the task instances built from it. *)
Theorem export_import_roundtrip (env : JS.Env) (st target : DB.Storage) :
  DB.quota target = true \/ target = st ->
  exists text st',
    DB.exportData env st = (JS.Ok text, st)
    /\ DB.importData text target = (JS.Ok true, st')
    /\ stored st' = stored st
    /\ (forall env', allTasks env' st' = allTasks env' st).
Proof.
  intros Htarget.
  destruct (exportData_run env st) as [settings Hexp].
  destruct (importData_run (stored st) settings (JS.nowISO env) target)
    as (st' & Himp & Hst).
  assert (Heq : stored st' = stored st).
  { rewrite Hst. destruct Htarget as [-> | ->]; [reflexivity | ].
    now destruct (DB.quota st). }
  eexists. exists st'. repeat split; [exact Hexp | exact Himp | exact Heq | ].
  intros env'. unfold allTasks. now rewrite Heq.
Qed.

Lemma export_import_roundtrip_witness :
  exists text st',
    DB.exportData env0 (storageOf [record "task_1" "Ship report"])
    = (JS.Ok text, storageOf [record "task_1" "Ship report"])
    /\ DB.importData text emptyStorage = (JS.Ok true, st')
    /\ stored st' = [record "task_1" "Ship report"].
Proof.
  destruct (export_import_roundtrip env0 (storageOf [record "task_1" "Ship report"])
              emptyStorage (or_introl eq_refl)) as (text & st' & H1 & H2 & H3 & _).
  exists text, st'. repeat split; assumption.
Defined.

Lemma deleteTask_unknown_id_witness :
  TaskService.deleteTask "task_2" (storageOf [record "task_1" "Ship report"])
  = (JS.Ok false, storageOf [record "task_1" "Ship report"]).
Proof.
  apply (deleteTask_unknown_id (storageOf [record "task_1" "Ship report"]) "task_2").
  intros task [<- | []]. simpl. discriminate.
Defined.

(** *** Updates *)

Lemma findIndex_Some {A} (p : A -> bool) (l : list A) :
  existsb p l = true ->
  exists index x, DB.findIndex p l = Some index /\ nth_error l index = Some x
                  /\ p x = true /\ find p l = Some x.
Proof.
  induction l as [| y l IH]; simpl; intros H.
  - discriminate.
  - destruct (p y) eqn:Hy.
    + exists O, y. auto.
    + destruct (IH H) as (i & x & Hi & Hx & Hp & Hf).
      exists (S i), x. rewrite Hi. auto.
Qed.

Lemma findIndex_find {A} (p : A -> bool) (l : list A) (index : nat) :
  DB.findIndex p l = Some index ->
  exists x, nth_error l index = Some x /\ find p l = Some x /\ p x = true.
Proof.
  revert index. induction l as [| y l IH]; simpl; intros index H.
  - discriminate.
  - destruct (p y) eqn:Hy.
    + injection H as <-. exists y. auto.
    + destruct (DB.findIndex p l) as [i | ]; [ | discriminate].
      injection H as <-. destruct (IH i eq_refl) as (x & Hx & Hf & Hp).
      exists x. auto.
Qed.

Lemma findIndex_None {A} (p : A -> bool) (l : list A) :
  DB.findIndex p l = None -> find p l = None.
Proof.
  induction l as [| y l IH]; simpl; intros H.
  - reflexivity.
  - destruct (p y); [discriminate | ].
    destruct (DB.findIndex p l); [discriminate | now apply IH].
Qed.

Lemma nth_error_setAt {A} (l : list A) (index : nat) (x y : A) :
  nth_error l index = Some y -> nth_error (DB.setAt index x l) index = Some x.
Proof.
  revert index. induction l as [| z l IH]; intros [| i]; simpl; intros H;
    try discriminate; [reflexivity | now apply IH].
Qed.

Lemma updateTask_run (env : JS.Env) (st : DB.Storage) (taskId : string)
      (updates old : TaskData) (index : nat) :
  DB.findIndex (DB.hasId taskId) (stored st) = Some index ->
  nth_error (stored st) index = Some old ->
  DB.updateTask env taskId updates st =
  (JS.Ok (Some (DB.applyUpdates env old updates)),
   saved (DB.setAt index (DB.applyUpdates env old updates) (stored st)) st).
Proof.
  intros Hi Hold. unfold DB.updateTask.
  rewrite (bind_run _ _ st st (stored st) (getTasks_run st)).
  rewrite Hi, Hold. unfold DB.bind. rewrite saveTasks_run. unfold saved.
  destruct (DB.quota st); reflexivity.
Qed.

Lemma updateTask_unknown (env : JS.Env) (st : DB.Storage) (taskId : string)
      (updates : TaskData) :
  DB.findIndex (DB.hasId taskId) (stored st) = None ->
  DB.updateTask env taskId updates st = (JS.Ok None, st).
Proof.
  intros Hi. unfold DB.updateTask.
  rewrite (bind_run _ _ st st (stored st) (getTasks_run st)).
  now rewrite Hi.
Qed.

Lemma spread_idem {A} (old new : JS.prop A) :
  JS.spread (JS.spread old new) new = JS.spread old new.
Proof. now destruct new. Qed.

Lemma applyUpdates_verbatim (env : JS.Env) (old updates : TaskData) :
  givenVerbatim (withUpdatedAt JS.Absent updates) (DB.applyUpdates env old updates).
Proof.
  unfold givenVerbatim, DB.applyUpdates, spreadData, withUpdatedAt. simpl.
  rewrite !spread_idem. reflexivity.
Qed.

Lemma empty_title_invalid (env : JS.Env) (data : TaskData) :
  d_title data = JS.Val "" ->
  Task.isValid (Task.validate (Task.fromJSON env data)) = false.
Proof.
  intros Ht. unfold Task.validate, Task.fromJSON, Task.new. simpl. rewrite Ht.
  reflexivity.
Qed.

Lemma createTask_invalid (env : JS.Env) (st : DB.Storage) (taskData : TaskData) :
  Task.isValid (Task.validate (Task.new env taskData)) = false ->
  TaskService.createTask env taskData st = (JS.Ok None, st).
Proof.
  intros H. unfold TaskService.createTask. rewrite H. reflexivity.
Qed.

(** C10 (amended).  For a stored task and any partial update, on a store that
    accepts the write, [updateTask] persists the record in which every given
    field other than [updatedAt] has the value given, and [updatedAt] is the
    current time; nothing is validated.  With [{title: ""}] the persisted
    record fails [validate()].  Creation is guarded: data that fails
    [validate()] is answered with [null] and never stored. *)
Theorem updateTask_applies_fields_unvalidated :
  (forall env st taskId updates,
      DB.quota st = true ->
      existsb (DB.hasId taskId) (stored st) = true ->
      exists index updated st',
        DB.findIndex (DB.hasId taskId) (stored st) = Some index
        /\ DB.updateTask env taskId updates st = (JS.Ok (Some updated), st')
        /\ TaskService.updateTask env taskId updates st
           = (JS.Ok (Some (Task.fromJSON env updated)), st')
        /\ stored st' = DB.setAt index updated (stored st)
        /\ nth_error (stored st') index = Some updated
        /\ givenVerbatim (withUpdatedAt JS.Absent updates) updated
        /\ d_updatedAt updated = JS.Val (JS.nowISO env)
        /\ (d_title updates = JS.Val "" ->
            forall env', Task.isValid (Task.validate (Task.fromJSON env' updated))
                         = false))
  /\ (forall env st taskData,
         Task.isValid (Task.validate (Task.new env taskData)) = false ->
         TaskService.createTask env taskData st = (JS.Ok None, st)).
Proof.
  split; [ | exact createTask_invalid].
  intros env st taskId updates Hq Hex.
  destruct (findIndex_Some _ _ Hex) as (index & old & Hi & Hold & _ & _).
  pose proof (updateTask_run env st taskId updates old index Hi Hold) as Hrun.
  unfold saved in Hrun. rewrite Hq in Hrun.
  exists index, (DB.applyUpdates env old updates). eexists.
  split; [exact Hi | ]. split; [exact Hrun | ].
  split. { unfold TaskService.updateTask. now rewrite (bind_run _ _ _ _ _ Hrun). }
  split; [reflexivity | ].
  split. { rewrite stored_written. now apply nth_error_setAt with (y := old). }
  split; [apply applyUpdates_verbatim | ].
  split; [reflexivity | ].
  intros Ht env'. apply empty_title_invalid.
  unfold DB.applyUpdates. simpl. now rewrite Ht.
Qed.

Lemma updateTask_applies_fields_unvalidated_witness :
  exists updated st',
    DB.updateTask env0 "task_1" (titleOnly "")
                  (storageOf [record "task_1" "Ship report"])
    = (JS.Ok (Some updated), st')
    /\ stored st' = [updated]
    /\ d_title updated = JS.Val ""
    /\ Task.isValid (Task.validate (Task.fromJSON env0 updated)) = false.
Proof.
  destruct (proj1 updateTask_applies_fields_unvalidated env0
              (storageOf [record "task_1" "Ship report"]) "task_1" (titleOnly "")
              eq_refl eq_refl)
    as (index & updated & st' & Hi & Hrun & _ & Hst & _ & Hv & _ & Hinv).
  exists updated, st'.
  injection Hi as <-.
  split; [exact Hrun | ]. split; [exact Hst | ].
  split; [ | exact (Hinv eq_refl env0)].
  unfold givenVerbatim in Hv. rewrite <- Hv. reflexivity.
Defined.

(** C10, as stated, fails for the field [updatedAt]: given in an update, it
    is not stored as given but replaced by the current time. *)
Lemma updateTask_overwrites_given_updatedAt :
  exists updated st',
    DB.updateTask env0 "task_1" (updatedAtOnly "2020-02-02T00:00:00.000Z")
                  (storageOf [record "task_1" "Ship report"])
    = (JS.Ok (Some updated), st')
    /\ stored st' = [updated]
    /\ d_updatedAt updated = JS.Val "2025-01-15T10:00:00.000Z"
    /\ ~ givenVerbatim (updatedAtOnly "2020-02-02T00:00:00.000Z") updated.
Proof.
  do 2 eexists. split; [vm_compute; reflexivity | ].
  split; [reflexivity | ]. split; [reflexivity | ].
  unfold givenVerbatim. intros H.
  apply (f_equal d_updatedAt) in H. discriminate H.
Qed.

(** *** Completion *)

Lemma nowISO_nonEmpty (env : JS.Env) : JS.nonEmpty (JS.nowISO env) = true.
Proof.
  unfold JS.nowISO, JS.toISOString.
  destruct (JS.civil_from_days (JS.now env / JS.msPerDay)) as [[y m] d].
  destruct (JS.padDigits 4 y); reflexivity.
Qed.

Lemma consistent_fromJSON (env : JS.Env) (data : TaskData) :
  rawConsistent data -> consistent (Task.fromJSON env data).
Proof. intros H. exact H. Qed.

Lemma toggleComplete_consistent (env : JS.Env) (task : Task.t) :
  consistent (Task.toggleComplete env task).
Proof.
  unfold consistent, Task.toggleComplete. simpl.
  destruct (negb (Task.completed task)); split; intros H;
    solve [reflexivity | discriminate | now elim H].
Qed.

Lemma new_consistent (env : JS.Env) (data : TaskData) :
  leavesCompletion data -> consistent (Task.new env data).
Proof.
  intros [Hc Hat]. unfold consistent, Task.new. simpl. rewrite Hc, Hat. simpl.
  split; intros H; [discriminate | now elim H].
Qed.

Lemma Forall_setAt {A} (P : A -> Prop) (l : list A) (index : nat) (x : A) :
  Forall P l -> P x -> Forall P (DB.setAt index x l).
Proof.
  intros Hl Hx. revert index.
  induction Hl as [| y l Hy Hl IH]; intros [| i]; simpl; constructor; auto.
Qed.

Lemma Forall_filter {A} (P : A -> Prop) (p : A -> bool) (l : list A) :
  Forall P l -> Forall P (filter p l).
Proof.
  induction 1 as [| y l Hy Hl IH]; simpl; [constructor | ].
  destruct (p y); [constructor | ]; assumption.
Qed.

Lemma Forall_saved (P : TaskData -> Prop) (tasks : list TaskData) (st : DB.Storage) :
  Forall P (stored st) -> Forall P tasks -> Forall P (stored (saved tasks st)).
Proof.
  intros Hst Ht. unfold saved. destruct (DB.quota st); [now rewrite stored_written | exact Hst].
Qed.

Lemma addTask_run (env : JS.Env) (taskData : TaskData) (st : DB.Storage) :
  exists newTask,
    DB.addTask env taskData st = (JS.Ok newTask, saved (stored st ++ [newTask])%list st)
    /\ d_completed newTask = d_completed taskData
    /\ d_completedAt newTask = d_completedAt taskData.
Proof.
  eexists. split.
  - unfold DB.addTask.
    rewrite (bind_run _ _ st st (stored st) (getTasks_run st)).
    unfold DB.bind. rewrite saveTasks_run. unfold saved.
    destruct (DB.quota st); reflexivity.
  - simpl. now destruct (d_completed taskData), (d_completedAt taskData).
Qed.

Lemma createTask_preserves (env : JS.Env) (taskData : TaskData) (st : DB.Storage) :
  leavesCompletion taskData ->
  Forall rawConsistent (stored st) ->
  Forall rawConsistent (stored (perform env (Create taskData) st)).
Proof.
  intros [Hc Hat] Hst. simpl. unfold TaskService.createTask.
  destruct (negb _); [exact Hst | ].
  destruct (addTask_run env (Task.toJSON (Task.new env taskData)) st)
    as (newTask & Hadd & Hnc & Hnat).
  rewrite (bind_run _ _ _ _ _ Hadd). simpl.
  apply Forall_saved; [exact Hst | ].
  apply Forall_app. split; [exact Hst | ].
  constructor; [ | constructor].
  unfold rawConsistent. rewrite Hnc, Hnat. simpl. rewrite Hc, Hat. simpl.
  split; intros H; [discriminate | now elim H].
Qed.

Lemma updateTask_store (env : JS.Env) (taskId : string) (updates : TaskData)
      (st : DB.Storage) :
  snd (DB.updateTask env taskId updates st) = st
  \/ exists index old,
       nth_error (stored st) index = Some old
       /\ find (DB.hasId taskId) (stored st) = Some old
       /\ snd (DB.updateTask env taskId updates st)
          = saved (DB.setAt index (DB.applyUpdates env old updates) (stored st)) st.
Proof.
  destruct (DB.findIndex (DB.hasId taskId) (stored st)) as [index | ] eqn:Hi.
  - right. destruct (findIndex_find _ _ _ Hi) as (old & Hold & Hfind & _).
    exists index, old. split; [exact Hold | ]. split; [exact Hfind | ].
    now rewrite (updateTask_run env st taskId updates old index Hi Hold).
  - left. now rewrite updateTask_unknown.
Qed.

Lemma updateTask_preserves (env : JS.Env) (taskId : string) (updates : TaskData)
      (st : DB.Storage) :
  leavesCompletion updates ->
  Forall rawConsistent (stored st) ->
  Forall rawConsistent (stored (snd (DB.updateTask env taskId updates st))).
Proof.
  intros [Hc Hat] Hst.
  destruct (updateTask_store env taskId updates st)
    as [-> | (index & old & Hold & _ & ->)]; [exact Hst | ].
  apply Forall_saved; [exact Hst | ].
  apply Forall_setAt; [exact Hst | ].
  assert (Ho : rawConsistent old).
  { rewrite Forall_forall in Hst. apply Hst. eapply nth_error_In; eassumption. }
  unfold rawConsistent, DB.applyUpdates in *. simpl. rewrite Hc, Hat. exact Ho.
Qed.

Lemma service_updateTask_store (env : JS.Env) (taskId : string) (updates : TaskData)
      (st : DB.Storage) :
  snd (TaskService.updateTask env taskId updates st)
  = snd (DB.updateTask env taskId updates st).
Proof.
  unfold TaskService.updateTask, DB.bind.
  destruct (DB.updateTask env taskId updates st) as [[updated | e] st']; reflexivity.
Qed.

Lemma toggleTaskComplete_preserves (env : JS.Env) (taskId : string) (st : DB.Storage) :
  Forall rawConsistent (stored st) ->
  Forall rawConsistent (stored (perform env (Toggle taskId) st)).
Proof.
  intros Hst. simpl.
  assert (Hsnd : forall m : DB.M (option TaskData),
             snd (DB.bind m (fun updated =>
                    DB.ret (option_map (Task.fromJSON env) updated)) st)
             = snd (m st)).
  { intros m. unfold DB.bind. now destruct (m st) as [[updated | e] st']. }
  unfold TaskService.toggleTaskComplete. rewrite Hsnd.
  unfold DB.toggleTaskComplete.
  rewrite (bind_run _ _ st st (stored st) (getTasks_run st)).
  destruct (find (DB.hasId taskId) (stored st)) as [task | ] eqn:Hfind; [ | exact Hst].
  match goal with
  | |- context [DB.updateTask env taskId ?u st] =>
      destruct (updateTask_store env taskId u st)
        as [-> | (index & old & Hold & Hfind' & ->)]
  end; [exact Hst | ].
  apply Forall_saved; [exact Hst | ].
  apply Forall_setAt; [exact Hst | ].
  unfold rawConsistent, DB.applyUpdates.
  cbn [spreadData d_completed d_completedAt JS.spread].
  destruct (DB.notCompleted task); cbn [JS.spread JS.or_else Task.strOrNull].
  - rewrite nowISO_nonEmpty. split; intros H; [discriminate | reflexivity].
  - split; intros H; [discriminate | now elim H].
Qed.

Lemma deleteTask_preserves (env : JS.Env) (taskId : string) (st : DB.Storage) :
  Forall rawConsistent (stored st) ->
  Forall rawConsistent (stored (perform env (Delete taskId) st)).
Proof.
  intros Hst. simpl. unfold TaskService.deleteTask, DB.deleteTask.
  rewrite (bind_run _ _ st st (stored st) (getTasks_run st)).
  destruct (_ =? _)%nat; [exact Hst | ].
  unfold DB.bind. rewrite saveTasks_run.
  destruct (DB.quota st); [ | exact Hst].
  simpl. now apply Forall_filter.
Qed.

Lemma reachable_rawConsistent (st : DB.Storage) :
  reachable completionByToggle st -> Forall rawConsistent (stored st).
Proof.
  induction 1 as [quota | env op st Hreach IH Hallowed].
  - constructor.
  - destruct op as [taskData | taskId updates | taskId | taskId].
    + now apply createTask_preserves.
    + simpl. rewrite service_updateTask_store. now apply updateTask_preserves.
    + now apply toggleTaskComplete_preserves.
    + now apply deleteTask_preserves.
Qed.

(** C1 (amended).  [toggleComplete] leaves every task with [completed ==
    true] exactly when [completedAt != null]; so does construction from data
    that gives neither field; and every task of a store reached by creations
    and updates that give neither field, by toggle-complete and by deletion
    satisfies it. *)
Theorem completion_consistent_when_set_by_toggle :
  (forall env task, consistent (Task.toggleComplete env task))
  /\ (forall env data, leavesCompletion data -> consistent (Task.new env data))
  /\ (forall st, reachable completionByToggle st ->
                forall env task, In task (allTasks env st) -> consistent task).
Proof.
  split; [exact toggleComplete_consistent | ].
  split; [exact new_consistent | ].
  intros st Hreach env task Hin.
  unfold allTasks in Hin. apply in_map_iff in Hin.
  destruct Hin as (data & <- & Hdata).
  apply consistent_fromJSON.
  pose proof (reachable_rawConsistent st Hreach) as Hall.
  rewrite Forall_forall in Hall. now apply Hall.
Qed.

Lemma createdStore_reachable (allowed : operation -> Prop) :
  allowed (Create (titleOnly "Ship report")) -> reachable allowed createdStore.
Proof.
  intros H. unfold createdStore, emptyStorage.
  apply reach_step; [apply reach_empty | exact H].
Qed.

Lemma completion_consistent_when_set_by_toggle_witness :
  Forall consistent (allTasks env0 (perform env0 (Toggle sampleId) createdStore)).
Proof.
  apply Forall_forall. intros task Hin.
  refine (proj2 (proj2 completion_consistent_when_set_by_toggle) _ _ env0 task Hin).
  apply reach_step; [ | exact I].
  apply createdStore_reachable. split; reflexivity.
Defined.

(** C1, as stated, fails: a field-level update that gives [completed] alone
    is stored as given, and the task is then completed with no
    [completedAt]. *)
Lemma update_breaks_completion_relation :
  reachable anyOperation (perform env0 (Update sampleId (completedOnly true)) createdStore)
  /\ exists task,
       allTasks env0 (perform env0 (Update sampleId (completedOnly true)) createdStore)
       = [task]
       /\ Task.completed task = true
       /\ Task.completedAt task = None
       /\ ~ consistent task.
Proof.
  split.
  - apply reach_step; [ | exact I]. apply createdStore_reachable. exact I.
  - eexists. split; [vm_compute; reflexivity | ].
    split; [reflexivity | ]. split; [reflexivity | ].
    intros [H _]. now apply (H eq_refl).
Qed.

(** *** Tags *)

Lemma removeTag_bumps_updatedAt (env : JS.Env) (task : Task.t) (tag : string) :
  Task.updatedAt (Task.removeTag env task tag) = JS.nowISO env.
Proof. reflexivity. Qed.

(** C2 (the code at the failing input).  [removeTag] compares the stored tags
    with its argument as given: on a task tagged [work], the argument
    [" Work "] removes nothing, although [addTag] normalizes the same
    argument to [work] and finds it present; only the normalized spelling
    removes the tag.  [updatedAt] is set to the current time in every case. *)
Theorem removeTag_compares_unnormalized (env : JS.Env) :
  Task.tags (Task.removeTag env (Task.new env (tagsOnly ["work"])) " Work ") = ["work"]
  /\ Task.addTag env (Task.new env (tagsOnly ["work"])) " Work "
     = Task.new env (tagsOnly ["work"])
  /\ Task.tags (Task.addTag env (Task.new env (tagsOnly [])) " Work ") = ["work"]
  /\ Task.tags (Task.removeTag env (Task.new env (tagsOnly ["work"])) "work") = []
  /\ (forall task tag,
         Task.updatedAt (Task.removeTag env task tag) = JS.nowISO env).
Proof.
  repeat split.
Qed.

(** *** Due dates *)

Lemma dueTime_parse (task : Task.t) (s : string) :
  Task.dueDate task = Some s ->
  Task.dueTime task
  = match JS.Date_parse s with Some ms => JS.Num ms | None => JS.NaN end.
Proof. intros H. unfold Task.dueTime. now rewrite H. Qed.

Lemma Date_parse_nonEmpty (s : string) (ms : Z) :
  JS.Date_parse s = Some ms -> JS.nonEmpty s = true.
Proof. destruct s; [discriminate | reflexivity]. Qed.

Lemma isDueThisWeek_parsed (env : JS.Env) (task : Task.t) (s : string) (due : Z) :
  Task.dueDate task = Some s ->
  JS.Date_parse s = Some due ->
  Task.isDueThisWeek env task
  = (due - JS.now env <=? Task.oneWeek) && (JS.now env <=? due).
Proof.
  intros Hs Hp. unfold Task.isDueThisWeek.
  rewrite (dueTime_parse task s Hs), Hp. unfold Task.isSet. rewrite Hs.
  rewrite (Date_parse_nonEmpty s due Hp). reflexivity.
Qed.

Lemma isDueThisWeek_true (env : JS.Env) (task : Task.t) :
  Task.isDueThisWeek env task = true ->
  exists s due,
    Task.dueDate task = Some s /\ s <> "" /\ JS.Date_parse s = Some due
    /\ 0 <= due - JS.now env <= 7 * JS.msPerDay.
Proof.
  unfold Task.isDueThisWeek, Task.isSet.
  destruct (Task.dueDate task) as [s | ] eqn:Hs; [ | discriminate].
  destruct (JS.nonEmpty s) eqn:Hne; [ | discriminate]. simpl.
  rewrite (dueTime_parse task s Hs).
  destruct (JS.Date_parse s) as [due | ] eqn:Hp; [ | discriminate]. simpl.
  intros H. apply andb_prop in H. destruct H as [H1 H2].
  apply Z.leb_le in H1. apply Z.leb_le in H2.
  exists s, due.
  split; [reflexivity | ]. split; [intros ->; discriminate | ].
  split; [exact Hp | ].
  unfold Task.oneWeek, JS.msPerDay in *. lia.
Qed.

(** C3 (amended).  [isDueThisWeek()] is true exactly when [dueDate] is set,
    parses as a date, and the instant it denotes is no earlier than the
    current instant and at most seven days later.  It is true at the current
    instant itself and at exactly seven days later, and false for every due
    instant in the past, whatever its calendar day. *)
Theorem isDueThisWeek_iff_within_seven_days (env : JS.Env) (task : Task.t) :
  (Task.isDueThisWeek env task = true <->
   exists s due,
     Task.dueDate task = Some s /\ s <> "" /\ JS.Date_parse s = Some due
     /\ 0 <= due - JS.now env <= 7 * JS.msPerDay)
  /\ (forall s, Task.dueDate task = Some s ->
                JS.Date_parse s = Some (JS.now env) ->
                Task.isDueThisWeek env task = true)
  /\ (forall s, Task.dueDate task = Some s ->
                JS.Date_parse s = Some (JS.now env + 7 * JS.msPerDay) ->
                Task.isDueThisWeek env task = true)
  /\ (forall s due, Task.dueDate task = Some s ->
                    JS.Date_parse s = Some due ->
                    due < JS.now env ->
                    Task.isDueThisWeek env task = false).
Proof.
  split; [split | ].
  - apply isDueThisWeek_true.
  - intros (s & due & Hs & _ & Hp & Hle).
    rewrite (isDueThisWeek_parsed env task s due Hs Hp).
    apply andb_true_intro. split; apply Z.leb_le;
      unfold Task.oneWeek, JS.msPerDay in *; lia.
  - split; [ | split].
    + intros s Hs Hp. rewrite (isDueThisWeek_parsed env task s _ Hs Hp).
      apply andb_true_intro. split; apply Z.leb_le; unfold Task.oneWeek; lia.
    + intros s Hs Hp. rewrite (isDueThisWeek_parsed env task s _ Hs Hp).
      apply andb_true_intro. split; apply Z.leb_le;
        unfold Task.oneWeek, JS.msPerDay; lia.
    + intros s due Hs Hp Hlt. rewrite (isDueThisWeek_parsed env task s due Hs Hp).
      apply andb_false_intro2. apply Z.leb_gt. exact Hlt.
Qed.

Lemma isDueThisWeek_iff_within_seven_days_witness :
  Task.isDueThisWeek env0 (Task.new env0 (dueOnly "2025-01-22T10:00:00.000Z")) = true
  /\ Task.isDueThisWeek env0 (Task.new env0 (dueOnly "2025-01-14")) = false.
Proof.
  split.
  - apply (proj1 (proj2 (proj2
             (isDueThisWeek_iff_within_seven_days env0
                (Task.new env0 (dueOnly "2025-01-22T10:00:00.000Z")))))
             "2025-01-22T10:00:00.000Z"); reflexivity.
  - apply (proj2 (proj2 (proj2
             (isDueThisWeek_iff_within_seven_days env0
                (Task.new env0 (dueOnly "2025-01-14")))))
             "2025-01-14" 1736812800000); reflexivity.
Defined.

(** C3, as stated, fails for a task due today: at 10:00 on 2025-01-15 a task
    whose due date is the date 2025-01-15 is due today and is not due this
    week, its due instant, midnight, being already past. *)
Lemma due_today_not_due_this_week :
  Task.isDueToday env0 (Task.new env0 (dueOnly "2025-01-15")) = true
  /\ Task.isDueThisWeek env0 (Task.new env0 (dueOnly "2025-01-15")) = false.
Proof. split; reflexivity. Qed.

(** *** Filtering *)

Lemma filter_filter {A} (p q : A -> bool) (l : list A) :
  filter q (filter p l) = filter (fun x => p x && q x) l.
Proof.
  induction l as [| x l IH]; simpl; [reflexivity | ].
  destruct (p x); simpl; [destruct (q x) | ]; now rewrite IH.
Qed.

Lemma filter_true {A} (l : list A) : filter (fun _ => true) l = l.
Proof. apply filter_all. reflexivity. Qed.

Lemma keepCompleted_filter (f : JS.prop bool) (tasks : list Task.t) :
  TaskService.keepCompleted f tasks = filter (completedOk f) tasks.
Proof. destruct f; simpl; [now rewrite filter_true | reflexivity | reflexivity]. Qed.

Lemma keepPriority_filter (f : JS.prop string) (tasks : list Task.t) :
  TaskService.keepPriority f tasks = filter (priorityOk f) tasks.
Proof.
  unfold TaskService.keepPriority, priorityOk.
  destruct f as [ | | p]; try now rewrite filter_true.
  destruct (JS.nonEmpty p); [reflexivity | now rewrite filter_true].
Qed.

Lemma keepDue_filter (env : JS.Env) (f : JS.prop string) (tasks : list Task.t) :
  TaskService.keepDue env f tasks = filter (dueOk env f) tasks.
Proof.
  unfold TaskService.keepDue, dueOk.
  destruct f as [ | | d]; try now rewrite filter_true.
  destruct (String.eqb d "today"); [reflexivity | ].
  destruct (String.eqb d "upcoming"); [reflexivity | ].
  destruct (String.eqb d "overdue"); [reflexivity | now rewrite filter_true].
Qed.

Lemma keepTags_filter (f : JS.prop (list string)) (tasks : list Task.t) :
  TaskService.keepTags f tasks = filter (tagsOk f) tasks.
Proof.
  destruct f as [ | | [| tag wanted]]; simpl; try now rewrite filter_true.
  reflexivity.
Qed.

Lemma keepSearch_filter (f : JS.prop string) (tasks : list Task.t) :
  TaskService.keepSearch f tasks = filter (searchOk f) tasks.
Proof.
  unfold TaskService.keepSearch, searchOk.
  destruct f as [ | | q]; try now rewrite filter_true.
  destruct (JS.nonEmpty q); [reflexivity | now rewrite filter_true].
Qed.

Lemma getFilteredTasks_run (env : JS.Env) (filters : TaskService.Filters)
      (st : DB.Storage) :
  TaskService.getFilteredTasks env filters st
  = (JS.Ok (filter (accepts env filters) (allTasks env st)), st).
Proof.
  unfold TaskService.getFilteredTasks.
  rewrite (bind_run _ _ st st _ (getAllTasks_run env st)).
  rewrite keepCompleted_filter, keepPriority_filter, keepDue_filter,
    keepTags_filter, keepSearch_filter.
  rewrite !filter_filter. unfold DB.ret. do 2 f_equal.
  apply filter_ext. intros task. unfold accepts. now rewrite !andb_assoc.
Qed.

Lemma arr_includes_In (l : list string) (x : string) :
  JS.arr_includes l x = true <-> In x l.
Proof.
  unfold JS.arr_includes. rewrite existsb_exists. split.
  - intros (y & Hy & Heq). apply String.eqb_eq in Heq. now subst.
  - intros H. exists x. split; [exact H | apply String.eqb_refl].
Qed.

(** C4.  [getFilteredTasks({priority: "high", tags: ["work"]})] returns, in
    stored order, exactly the tasks whose priority is [high] and whose tags
    contain [work].  For every filter object the result is the stored tasks
    that pass all categories ([accepts], a conjunction), and a task passes a
    non-empty [tags] list as soon as it carries one of the listed tags. *)
Theorem getFilteredTasks_conjunction_of_categories (env : JS.Env) (st : DB.Storage) :
  TaskService.getFilteredTasks env highWork st
  = (JS.Ok (filter (fun task => String.eqb (Task.priority task) "high"
                                && JS.arr_includes (Task.tags task) "work")
                   (allTasks env st)), st)
  /\ (forall tasks,
         TaskService.getFilteredTasks env highWork st = (JS.Ok tasks, st) ->
         forall task,
           In task tasks <->
           In task (allTasks env st) /\ Task.priority task = "high"
           /\ In "work" (Task.tags task))
  /\ (forall filters,
         TaskService.getFilteredTasks env filters st
         = (JS.Ok (filter (accepts env filters) (allTasks env st)), st))
  /\ (forall tag wanted task,
         tagsOk (JS.Val (tag :: wanted)) task = true <->
         exists w, In w (tag :: wanted) /\ In w (Task.tags task)).
Proof.
  assert (Hhigh : forall task,
             accepts env highWork task
             = String.eqb (Task.priority task) "high"
               && JS.arr_includes (Task.tags task) "work").
  { intros task.
    unfold accepts, highWork, completedOk, priorityOk, dueOk, tagsOk, searchOk,
      JS.arr_includes.
    cbn [TaskService.f_completed TaskService.f_priority TaskService.f_dueFilter
         TaskService.f_tags TaskService.f_search existsb andb].
    change (JS.nonEmpty "high") with true. cbv iota.
    now rewrite orb_false_r, !andb_true_r. }
  assert (Hrun : TaskService.getFilteredTasks env highWork st
                 = (JS.Ok (filter (fun task => String.eqb (Task.priority task) "high"
                                               && JS.arr_includes (Task.tags task) "work")
                                  (allTasks env st)), st)).
  { rewrite getFilteredTasks_run. do 2 f_equal.
    apply filter_ext. exact Hhigh. }
  split; [exact Hrun | ]. split; [ | split].
  - intros tasks Htasks task. rewrite Hrun in Htasks.
    injection Htasks as <-. rewrite filter_In, andb_true_iff.
    rewrite String.eqb_eq, arr_includes_In. tauto.
  - intros filters. apply getFilteredTasks_run.
  - intros tag wanted task. unfold tagsOk. rewrite existsb_exists.
    split; intros (w & Hw & Hin); exists w; (split; [exact Hw | ]).
    + apply (arr_includes_In (Task.tags task) w). exact Hin.
    + apply (arr_includes_In (Task.tags task) w). exact Hin.
Qed.

Lemma getFilteredTasks_conjunction_of_categories_witness :
  In (Task.new env0 (tagged "task_2" "Quarterly report" "high" ["work"; "q1"]))
     (allTasks env0 taggedStore)
  /\ Task.priority (Task.new env0 (tagged "task_2" "Quarterly report" "high"
                                          ["work"; "q1"])) = "high"
  /\ In "work" (Task.tags (Task.new env0 (tagged "task_2" "Quarterly report" "high"
                                                 ["work"; "q1"]))).
Proof.
  apply (proj1 (proj2 (getFilteredTasks_conjunction_of_categories env0 taggedStore))
           [Task.new env0 (tagged "task_2" "Quarterly report" "high" ["work"; "q1"])]).
  - reflexivity.
  - left. reflexivity.
Defined.

(** *** Sorting *)

Section SortFacts.
Context {A : Type} (comparefn : A -> A -> JS.res Z).

Lemma sort_insert_perm (x : A) (l r : list A) :
  JS.sort_insert comparefn x l = JS.Ok r -> Permutation (x :: l) r.
Proof.
  revert r. induction l as [| y l IH]; simpl; intros r H.
  - injection H as <-. apply Permutation_refl.
  - destruct (comparefn x y) as [c | e]; simpl in H; [ | discriminate].
    destruct (c <=? 0).
    + injection H as <-. apply Permutation_refl.
    + destruct (JS.sort_insert comparefn x l) as [r' | e]; simpl in H; [ | discriminate].
      injection H as <-.
      apply perm_trans with (y :: x :: l); [apply perm_swap | ].
      apply perm_skip. now apply IH.
Qed.

Lemma Array_sort_perm (l r : list A) :
  JS.Array_sort comparefn l = JS.Ok r -> Permutation l r.
Proof.
  revert r. induction l as [| x l IH]; simpl; intros r H.
  - injection H as <-. apply perm_nil.
  - destruct (JS.Array_sort comparefn l) as [s | e]; simpl in H; [ | discriminate].
    apply perm_trans with (x :: s); [apply perm_skip; now apply IH | ].
    now apply sort_insert_perm.
Qed.

(** An element is moved only past elements it compares greater than: where
    no two elements selected by [p] compare greater, insertion keeps the
    selected elements in their order. *)
Lemma sort_insert_filter (p : A -> bool) (x : A) (l r : list A) :
  JS.sort_insert comparefn x l = JS.Ok r ->
  (forall y c, In y l -> p x = true -> p y = true ->
               comparefn x y = JS.Ok c -> c <= 0) ->
  filter p r = filter p (x :: l).
Proof.
  revert r. induction l as [| y l IH]; simpl; intros r H Hle.
  - injection H as <-. reflexivity.
  - destruct (comparefn x y) as [c | e] eqn:Hc; simpl in H; [ | discriminate].
    destruct (c <=? 0) eqn:Hc0.
    + injection H as <-. reflexivity.
    + destruct (JS.sort_insert comparefn x l) as [r' | e]; simpl in H; [ | discriminate].
      injection H as <-.
      assert (IH' : filter p r' = filter p (x :: l)).
      { apply IH; [reflexivity | ]. intros z c' Hz. apply Hle. now right. }
      simpl. rewrite IH'. simpl.
      destruct (p x) eqn:Hpx, (p y) eqn:Hpy; try reflexivity.
      exfalso. apply Z.leb_gt in Hc0.
      pose proof (Hle y c (or_introl eq_refl) eq_refl Hpy Hc). lia.
Qed.

Lemma Array_sort_filter (p : A -> bool) (l r : list A) :
  JS.Array_sort comparefn l = JS.Ok r ->
  (forall x y c, In x l -> In y l -> p x = true -> p y = true ->
                 comparefn x y = JS.Ok c -> c <= 0) ->
  filter p r = filter p l.
Proof.
  revert r. induction l as [| x l IH]; simpl; intros r H Hle.
  - injection H as <-. reflexivity.
  - destruct (JS.Array_sort comparefn l) as [s | e] eqn:Hs; simpl in H; [ | discriminate].
    rewrite (sort_insert_filter p x s r H).
    + simpl. rewrite (IH s eq_refl); [reflexivity | ].
      intros a b c Ha Hb. apply Hle; now right.
    + intros y c Hy. apply Hle; [now left | right].
      apply Permutation_in with s; [ | exact Hy].
      apply Permutation_sym. now apply Array_sort_perm.
Qed.

Lemma sort_insert_returns (x : A) (l : list A) :
  (forall y, In y l -> exists c, comparefn x y = JS.Ok c) ->
  exists r, JS.sort_insert comparefn x l = JS.Ok r.
Proof.
  induction l as [| y l IH]; simpl; intros H.
  - eexists. reflexivity.
  - destruct (H y (or_introl eq_refl)) as [c ->]. simpl.
    destruct (c <=? 0); [eexists; reflexivity | ].
    destruct IH as [r ->]; [intros z Hz; apply H; now right | ].
    eexists. reflexivity.
Qed.

Lemma Array_sort_returns (l : list A) :
  (forall x y, exists c, comparefn x y = JS.Ok c) ->
  exists r, JS.Array_sort comparefn l = JS.Ok r.
Proof.
  intros H. induction l as [| x l [s Hs]]; simpl.
  - eexists. reflexivity.
  - rewrite Hs. simpl. apply sort_insert_returns. intros y _. apply H.
Qed.

End SortFacts.

Lemma ltb_irrefl (s : string) : String.ltb s s = false.
Proof.
  unfold String.ltb. pose proof (String.compare_antisym s s) as H.
  destruct (String.compare s s); [reflexivity | discriminate H | reflexivity].
Qed.

Lemma num_lt_irrefl (n : JS.number) : JS.num_lt n n = false.
Proof. destruct n as [ | z]; simpl; [reflexivity | apply Z.ltb_irrefl]. Qed.

Lemma js_lt_irrefl (v : JS.value) : JS.js_lt v v = false.
Proof.
  unfold JS.js_lt. destruct (JS.ToPrimitive v); try apply num_lt_irrefl.
  apply ltb_irrefl.
Qed.

Lemma compareTasks_keys (sortBy order : string) (a b : Task.t) :
  TaskService.compareTasks sortBy order a b
  = JS.res_bind (TaskService.lowerBoth (sortKey sortBy a) (sortKey sortBy b))
      (fun '(aVal, bVal) =>
         if JS.js_lt aVal bVal
         then JS.Ok (if String.eqb order "asc" then -1 else 1)
         else if JS.js_gt aVal bVal
              then JS.Ok (if String.eqb order "asc" then 1 else -1)
              else JS.Ok 0).
Proof. reflexivity. Qed.

Lemma lowerBoth_refl (v : JS.value) :
  exists x, TaskService.lowerBoth v v = JS.Ok (x, x).
Proof. destruct v; eexists; reflexivity. Qed.

Lemma lowerBoth_swap (u v x y : JS.value) (r : JS.value * JS.value) :
  TaskService.lowerBoth u v = JS.Ok (x, y) ->
  TaskService.lowerBoth v u = JS.Ok r ->
  r = (y, x).
Proof.
  destruct u, v; simpl; intros H1 H2; try discriminate;
    injection H1 as <- <-; injection H2 as <-; reflexivity.
Qed.

Lemma compareTasks_refl (sortBy order : string) (a : Task.t) :
  TaskService.compareTasks sortBy order a a = JS.Ok 0.
Proof.
  rewrite compareTasks_keys.
  destruct (lowerBoth_refl (sortKey sortBy a)) as [x ->]. simpl.
  unfold JS.js_gt. now rewrite js_lt_irrefl.
Qed.

Lemma compareTasks_zero (sortBy order : string) (a b : Task.t) :
  TaskService.compareTasks sortBy order a b = JS.Ok 0 ->
  exists x y,
    TaskService.lowerBoth (sortKey sortBy a) (sortKey sortBy b) = JS.Ok (x, y)
    /\ JS.js_lt x y = false /\ JS.js_lt y x = false.
Proof.
  rewrite compareTasks_keys.
  destruct (TaskService.lowerBoth _ _) as [[x y] | e]; simpl; [ | discriminate].
  unfold JS.js_gt. intros H. exists x, y. split; [reflexivity | ].
  destruct (JS.js_lt x y).
  - destruct (String.eqb order "asc"); discriminate.
  - destruct (JS.js_lt y x); [ | now split].
    destruct (String.eqb order "asc"); discriminate.
Qed.

Lemma compareTasks_zero_sym (sortBy order : string) (a b : Task.t) (c : Z) :
  TaskService.compareTasks sortBy order a b = JS.Ok 0 ->
  TaskService.compareTasks sortBy order b a = JS.Ok c ->
  c = 0.
Proof.
  intros H0 Hc. destruct (compareTasks_zero _ _ _ _ H0) as (x & y & Hxy & Hlt & Hgt).
  rewrite compareTasks_keys in Hc.
  destruct (TaskService.lowerBoth (sortKey sortBy b) (sortKey sortBy a))
    as [r | e] eqn:Hr; simpl in Hc; [ | discriminate].
  rewrite (lowerBoth_swap _ _ _ _ _ Hxy Hr) in Hc.
  unfold JS.js_gt in Hc. rewrite Hlt, Hgt in Hc. now injection Hc as <-.
Qed.

Lemma oneOf_cases (a b task : Task.t) :
  oneOf a b task = true -> task = a \/ task = b.
Proof.
  unfold oneOf. destruct (Task_eq_dec task a); [now left | ].
  destruct (Task_eq_dec task b); [now right | discriminate].
Qed.

Lemma getProp_lowerBoth (sortBy : string) (a b : Task.t) :
  sortBy <> "id" ->
  TaskService.isDateKey sortBy = false ->
  exists r, TaskService.lowerBoth (Task.getProp a sortBy) (Task.getProp b sortBy)
            = JS.Ok r.
Proof.
  intros Hid Hdate. unfold Task.getProp.
  destruct (String.eqb_spec sortBy "id") as [-> | _]; [now elim Hid | ].
  destruct (String.eqb_spec sortBy "title") as [-> | _]; [eexists; reflexivity | ].
  destruct (String.eqb_spec sortBy "description") as [-> | _]; [eexists; reflexivity | ].
  destruct (String.eqb_spec sortBy "completed") as [-> | _]; [eexists; reflexivity | ].
  destruct (String.eqb_spec sortBy "priority") as [-> | _]; [eexists; reflexivity | ].
  destruct (String.eqb_spec sortBy "dueDate") as [-> | _]; [discriminate Hdate | ].
  destruct (String.eqb_spec sortBy "tags") as [-> | _]; [eexists; reflexivity | ].
  destruct (String.eqb_spec sortBy "createdAt") as [-> | _]; [discriminate Hdate | ].
  destruct (String.eqb_spec sortBy "updatedAt") as [-> | _]; [discriminate Hdate | ].
  destruct (String.eqb_spec sortBy "completedAt") as [-> | _]; [discriminate Hdate | ].
  destruct (String.eqb_spec sortBy "estimatedTime") as [-> | _].
  { destruct (Task.estimatedTime a); eexists; reflexivity. }
  destruct (String.eqb_spec sortBy "actualTime") as [-> | _].
  { destruct (Task.actualTime a); eexists; reflexivity. }
  destruct (String.eqb_spec sortBy "notes") as [-> | _]; [eexists; reflexivity | ].
  destruct (String.eqb_spec sortBy "links") as [-> | _]; eexists; reflexivity.
Qed.

Lemma compareTasks_returns (sortBy order : string) (a b : Task.t) :
  sortBy <> "id" ->
  exists c, TaskService.compareTasks sortBy order a b = JS.Ok c.
Proof.
  intros Hid. rewrite compareTasks_keys. unfold sortKey.
  destruct (TaskService.isDateKey sortBy) eqn:Hdate.
  - simpl. destruct (JS.js_lt _ _); [eexists; reflexivity | ].
    destruct (JS.js_gt _ _); eexists; reflexivity.
  - destruct (getProp_lowerBoth sortBy a b Hid Hdate) as [[x y] ->]. simpl.
    destruct (JS.js_lt _ _); [eexists; reflexivity | ].
    destruct (JS.js_gt _ _); eexists; reflexivity.
Qed.

Lemma sortTasks_perm (tasks sorted : list Task.t) (sortBy order : string) :
  TaskService.sortTasks tasks sortBy order = JS.Ok sorted ->
  Permutation tasks sorted.
Proof. intros H. exact (Array_sort_perm _ _ _ H). Qed.

Lemma sortTasks_returns (tasks : list Task.t) (sortBy order : string) :
  sortBy <> "id" ->
  exists sorted, TaskService.sortTasks tasks sortBy order = JS.Ok sorted.
Proof.
  intros Hid. apply Array_sort_returns. intros x y.
  now apply compareTasks_returns.
Qed.


(** *** Rendering *)

Lemma getStatistics_run (env : JS.Env) (st : DB.Storage) :
  exists stats,
    TaskService.getStatistics env st = (JS.Ok stats, st)
    /\ TaskService.total stats = List.length (allTasks env st)
    /\ TaskService.completed stats
       = List.length (filter (fun t => Task.completed t) (allTasks env st))
    /\ TaskService.completionRate stats
       = TaskService.rate env (TaskService.completed stats) (TaskService.total stats).
Proof.
  eexists. split.
  - unfold TaskService.getStatistics.
    rewrite (bind_run _ _ st st _ (getAllTasks_run env st)). reflexivity.
  - repeat split.
Qed.

Lemma updateCounts_run (env : JS.Env) (st : DB.Storage) :
  exists counts, TaskListView.updateCounts env st = (JS.Ok counts, st).
Proof.
  destruct (getStatistics_run env st) as (stats & Hstats & _).
  unfold TaskListView.updateCounts.
  rewrite (bind_run _ _ st st _ Hstats).
  unfold TaskService.getTodayTasks, TaskService.getUpcomingTasks,
    TaskService.getTasksByPriority.
  repeat rewrite (bind_run _ _ st st _ (getFilteredTasks_run env _ st)).
  eexists. reflexivity.
Qed.

Lemma getTasksForFilter_run (env : JS.Env) (selector : string) (st : DB.Storage) :
  TaskListView.getTasksForFilter env selector st
  = (JS.Ok (filter (fun task => TaskListView.shouldShowTask env task selector)
                   (allTasks env st)), st).
Proof.
  assert (Hneg : forall b, Bool.eqb b false = negb b) by now intros [].
  assert (Hpos : forall b, Bool.eqb b true = b) by now intros [].
  unfold TaskListView.getTasksForFilter, TaskListView.shouldShowTask.
  destruct (String.eqb selector "today").
  { unfold TaskService.getTodayTasks. rewrite getFilteredTasks_run.
    do 2 f_equal. apply filter_ext. intros task. unfold accepts. simpl.
    rewrite Hneg, !andb_true_r. apply andb_comm. }
  destruct (String.eqb selector "upcoming").
  { unfold TaskService.getUpcomingTasks. rewrite getFilteredTasks_run.
    do 2 f_equal. apply filter_ext. intros task. unfold accepts. simpl.
    rewrite Hneg, !andb_true_r. apply andb_comm. }
  destruct (String.eqb selector "completed").
  { unfold TaskService.getCompletedTasks. rewrite getFilteredTasks_run.
    do 2 f_equal. apply filter_ext. intros task. unfold accepts. simpl.
    now rewrite Hpos, !andb_true_r. }
  now rewrite (bind_run _ _ st st _ (getAllTasks_run env st)).
Qed.

Lemma searchTasks_run (env : JS.Env) (query : string) (st : DB.Storage) :
  JS.nonEmpty query = true ->
  TaskService.searchTasks env query st
  = (JS.Ok (filter (TaskService.matchesSearch query) (allTasks env st)), st).
Proof.
  intros Hq. unfold TaskService.searchTasks. rewrite getFilteredTasks_run.
  do 2 f_equal. apply filter_ext. intros task. unfold accepts. simpl.
  now rewrite Hq.
Qed.

(** C9.  With a non-empty search string [render] returns a view whose every
    row matches the search and satisfies [shouldShowTask] for the filter
    selector; every row is one of the tasks the selector alone would show. *)
Theorem render_search_within_filter (env : JS.Env) (st : DB.Storage)
        (selector search : string) :
  JS.nonEmpty search = true ->
  exists view scope,
    TaskListView.render env selector search st = (JS.Ok view, st)
    /\ TaskListView.getTasksForFilter env selector st = (JS.Ok scope, st)
    /\ forall task,
         In task (TaskListView.rows view) ->
         TaskService.matchesSearch search task = true
         /\ TaskListView.shouldShowTask env task selector = true
         /\ In task scope.
Proof.
  intros Hsearch.
  pose (found := filter (fun task => TaskListView.shouldShowTask env task selector)
                        (filter (TaskService.matchesSearch search) (allTasks env st))).
  destruct (sortTasks_returns found "createdAt" "desc") as [sorted Hsorted];
    [discriminate | ].
  destruct (updateCounts_run env st) as [counts Hcounts].
  eexists. eexists. split; [ | split].
  - unfold TaskListView.render.
    rewrite (bind_run _ _ st st _ (getTasksForFilter_run env selector st)).
    rewrite Hsearch.
    rewrite (bind_run _ _ st st found).
    + rewrite (bind_run _ _ st st sorted).
      * rewrite (bind_run _ _ st st _ Hcounts). reflexivity.
      * unfold DB.lift. now rewrite Hsorted.
    + now rewrite (bind_run _ _ st st _ (searchTasks_run env search st Hsearch)).
  - apply getTasksForFilter_run.
  - simpl. intros task Hin.
    assert (Hfound : In task found).
    { apply Permutation_in with sorted; [ | exact Hin].
      apply Permutation_sym. exact (sortTasks_perm _ _ _ _ Hsorted). }
    unfold found in Hfound. rewrite !filter_In in Hfound.
    destruct Hfound as [[Hall Hm] Hshow].
    split; [exact Hm | ]. split; [exact Hshow | ].
    apply filter_In. split; assumption.
Qed.

Lemma render_search_within_filter_witness :
  exists view,
    TaskListView.render env0 "all" "report" stampedStore = (JS.Ok view, stampedStore)
    /\ Forall (fun task =>
                 TaskService.matchesSearch "report" task = true
                 /\ TaskListView.shouldShowTask env0 task "all" = true)
              (TaskListView.rows view).
Proof.
  destruct (render_search_within_filter env0 stampedStore "all" "report" eq_refl)
    as (view & scope & Hrender & _ & Hrows).
  exists view. split; [exact Hrender | ].
  apply Forall_forall. intros task Hin.
  destruct (Hrows task Hin) as (Hm & Hshow & _). now split.
Defined.

(** *** Rounding to binary64 *)

Lemma roundEven_spec n d : 0 < d ->
  let m := JS.roundEven n d in
  2 * n - d <= 2 * m * d <= 2 * n + d
  /\ (2 * m * d = 2 * n - d -> Z.even m = true)
  /\ (2 * m * d = 2 * n + d -> Z.even m = true).
Proof.
  intros Hd. unfold JS.roundEven.
  pose proof (Z.div_mod n d ltac:(lia)) as Hdm.
  pose proof (Z.mod_pos_bound n d Hd) as Hr.
  set (q := n / d) in *. set (r := n mod d) in *.
  assert (Hqd : q * d = n - r) by lia.
  destruct (Z.compare_spec (2 * r) d) as [He | Hl | Hg]; cbv zeta.
  - destruct (Z.even q) eqn:Hev.
    + repeat split; try lia; intros; solve [assumption | exfalso; lia].
    + assert (Z.even (q + 1) = true).
      { rewrite Z.even_add, Hev. reflexivity. }
      repeat split; try lia; intros; assumption.
  - repeat split; try lia; intros; exfalso; lia.
  - repeat split; try lia; intros; exfalso; lia.
Qed.

Lemma RNE_mono y1 y2 : (y1 <= y2)%Q -> JS.RNE y1 <= JS.RNE y2.
Proof.
  unfold Qle, JS.RNE. destruct y1 as [n1 d1], y2 as [n2 d2]. simpl.
  intros Hle.
  pose proof (roundEven_spec n1 (Zpos d1) ltac:(lia)) as (H1 & H1a & H1b).
  pose proof (roundEven_spec n2 (Zpos d2) ltac:(lia)) as (H2 & H2a & H2b).
  set (m1 := JS.roundEven n1 (Zpos d1)) in *.
  set (m2 := JS.roundEven n2 (Zpos d2)) in *.
  set (D1 := Zpos d1) in *. set (D2 := Zpos d2) in *.
  assert (HD1 : 0 < D1) by (unfold D1; lia).
  assert (HD2 : 0 < D2) by (unfold D2; lia).
  destruct (Z_le_gt_dec m1 m2) as [ | Hgt]; [assumption | exfalso].
  assert (Ha : 2 * m1 * D1 * D2 <= (2 * n1 + D1) * D2) by nia.
  assert (Hb : (2 * n2 - D2) * D1 <= 2 * m2 * D2 * D1) by nia.
  assert (Hc : (m1 - m2) * (D1 * D2) <= 1 * (D1 * D2)) by nia.
  assert (HDD : 0 < D1 * D2) by nia.
  assert (Hm : m1 = m2 + 1) by nia.
  assert (E1 : 2 * m1 * D1 = 2 * n1 + D1) by nia.
  assert (E2 : 2 * m2 * D2 = 2 * n2 - D2) by nia.
  pose proof (H1b E1) as Ev1. pose proof (H2a E2) as Ev2.
  rewrite Hm, Z.even_add, Ev2 in Ev1. discriminate.
Qed.

Lemma ilog2_nonneg_spec n d :
  0 < n -> 0 < d -> 0 <= JS.ilog2 n d ->
  2 ^ JS.ilog2 n d * d <= n < 2 ^ (JS.ilog2 n d + 1) * d.
Proof.
  intros Hn Hd. unfold JS.ilog2.
  pose proof (Z.log2_spec n Hn) as Ha. pose proof (Z.log2_spec d Hd) as Hb.
  pose proof (Z.log2_nonneg n) as Ha0. pose proof (Z.log2_nonneg d) as Hb0.
  set (a := Z.log2 n) in *. set (b := Z.log2 d) in *.
  unfold Z.succ in *.
  destruct (Z.leb_spec 0 (a - b)) as [He0 | He0].
  - assert (Hpa : 2 ^ (a + 1) = 2 ^ (a - b + 1) * 2 ^ b).
    { rewrite <- Z.pow_add_r by lia. f_equal. lia. }
    pose proof (Z.pow_pos_nonneg 2 (a - b + 1) ltac:(lia) ltac:(lia)) as Hp1.
    destruct (Z.leb_spec (2 ^ (a - b) * d) n) as [Hab | Hab]; intros He.
    + split; [exact Hab | nia].
    + replace (a - b - 1 + 1) with (a - b) by lia. split; [ | exact Hab].
      assert (Hpb : 2 ^ a = 2 ^ (a - b - 1) * 2 ^ (b + 1)).
      { rewrite <- Z.pow_add_r by lia. f_equal. lia. }
      pose proof (Z.pow_pos_nonneg 2 (a - b - 1) ltac:(lia) ltac:(lia)) as Hp2.
      nia.
  - destruct (Z.leb_spec d (2 ^ (- (a - b)) * n)); intros; lia.
Qed.

Lemma ilog2_neg_spec n d :
  0 < n -> 0 < d -> JS.ilog2 n d < 0 ->
  d <= 2 ^ (- JS.ilog2 n d) * n /\ 2 ^ (- JS.ilog2 n d - 1) * n < d.
Proof.
  intros Hn Hd. unfold JS.ilog2.
  pose proof (Z.log2_spec n Hn) as Ha. pose proof (Z.log2_spec d Hd) as Hb.
  pose proof (Z.log2_nonneg n) as Ha0. pose proof (Z.log2_nonneg d) as Hb0.
  set (a := Z.log2 n) in *. set (b := Z.log2 d) in *.
  unfold Z.succ in *.
  destruct (Z.leb_spec 0 (a - b)) as [He0 | He0].
  - destruct (Z.leb_spec (2 ^ (a - b) * d) n) as [Hab | Hab]; intros He; [lia | ].
    assert (a - b = 0) as E by lia. rewrite E in *. 
    replace (- (0 - 1)) with 1 by lia. replace (1 - 1) with 0 by lia.
    assert (a = b) as -> by lia.
    rewrite Z.pow_add_r in Hb by lia. change (2 ^ 1) with 2 in *.
    change (2 ^ 0) with 1 in *. lia.
  - destruct (Z.leb_spec d (2 ^ (- (a - b)) * n)) as [Hab | Hab]; intros He.
    + split; [exact Hab | ].
      assert (Hpb : 2 ^ b = 2 ^ (- (a - b) - 1) * 2 ^ (a + 1)).
      { rewrite <- Z.pow_add_r by lia. f_equal. lia. }
      pose proof (Z.pow_pos_nonneg 2 (- (a - b) - 1) ltac:(lia) ltac:(lia)) as Hp2.
      nia.
    + replace (- (a - b - 1) - 1) with (- (a - b)) by lia. split; [ | exact Hab].
      assert (Hpb : 2 ^ (b + 1) = 2 ^ (- (a - b - 1)) * 2 ^ a).
      { rewrite <- Z.pow_add_r by lia. f_equal. lia. }
      pose proof (Z.pow_pos_nonneg 2 (- (a - b - 1)) ltac:(lia) ltac:(lia)) as Hp2.
      nia.
Qed.

Lemma two_pow_nonneg e : 0 <= e -> (Qpower JS.two e == inject_Z (2 ^ e))%Q.
Proof. intros He. symmetry. exact (Zpower_Qpower 2 e He). Qed.

Lemma two_pow_neg e :
  e < 0 -> (Qpower JS.two e == 1 # Z.to_pos (2 ^ (- e)))%Q.
Proof.
  intros He. replace e with (- (- e)) at 1 by lia.
  rewrite Qpower_opp, (two_pow_nonneg (- e)) by lia.
  pose proof (Z.pow_pos_nonneg 2 (- e) ltac:(lia) ltac:(lia)) as Hp.
  destruct (2 ^ (- e)) as [ | p | p]; try lia. reflexivity.
Qed.

Lemma two_pow_pos e : (0 < Qpower JS.two e)%Q.
Proof. apply Qpower_0_lt. reflexivity. Qed.

Lemma two_pow_add a b : (Qpower JS.two (a + b) == Qpower JS.two a * Qpower JS.two b)%Q.
Proof. apply Qpower_plus. discriminate. Qed.

Lemma two_pow_le a b : a <= b -> (Qpower JS.two a <= Qpower JS.two b)%Q.
Proof. intros H. apply Qpower_le_compat_l; [exact H | discriminate]. Qed.

Lemma ilog2_Q (x : Q) :
  (0 < x)%Q ->
  (Qpower JS.two (JS.ilog2 (Qnum x) (Zpos (Qden x))) <= x)%Q
  /\ (x < Qpower JS.two (JS.ilog2 (Qnum x) (Zpos (Qden x)) + 1))%Q.
Proof.
  destruct x as [n d]. unfold Qlt at 1. simpl. intros Hn.
  assert (Hn' : 0 < n) by lia.
  set (e := JS.ilog2 n (Zpos d)).
  destruct (Z_le_gt_dec 0 e) as [He | He].
  - pose proof (ilog2_nonneg_spec n (Zpos d) Hn' ltac:(lia) He) as [H1 H2].
    fold e in H1, H2.
    rewrite (two_pow_nonneg e He), (two_pow_nonneg (e + 1)) by lia.
    unfold Qle, Qlt. simpl. lia.
  - pose proof (ilog2_neg_spec n (Zpos d) Hn' ltac:(lia) ltac:(lia)) as [H1 H2].
    fold e in H1, H2.
    pose proof (Z.pow_pos_nonneg 2 (- e) ltac:(lia) ltac:(lia)) as Hp.
    rewrite (two_pow_neg e) by lia. split.
    + unfold Qle. simpl. rewrite Z2Pos.id by exact Hp. lia.
    + destruct (Z.eq_dec (e + 1) 0) as [E | E].
      * rewrite E. replace (- e - 1) with 0 in H2 by lia.
        change (2 ^ 0) with 1 in H2. unfold Qlt. simpl. lia.
      * pose proof (Z.pow_pos_nonneg 2 (- (e + 1)) ltac:(lia) ltac:(lia)) as Hp'.
        rewrite (two_pow_neg (e + 1)) by lia.
        unfold Qlt. simpl. rewrite Z2Pos.id by exact Hp'.
        replace (- e - 1) with (- (e + 1)) in H2 by lia. lia.
Qed.

Lemma RNE_inject (z : Z) : JS.RNE (inject_Z z) = z.
Proof.
  unfold JS.RNE, JS.roundEven. simpl. rewrite Z.div_1_r, Z.mod_1_r. reflexivity.
Qed.

Lemma round53_bounds (x : Q) :
  (0 < x)%Q ->
  (Qpower JS.two (JS.ilog2 (Qnum x) (Zpos (Qden x))) <= JS.round53 x)%Q
  /\ (JS.round53 x <= Qpower JS.two (JS.ilog2 (Qnum x) (Zpos (Qden x)) + 1))%Q.
Proof.
  intros Hx. destruct (ilog2_Q x Hx) as [Hlo Hhi]. unfold JS.round53.
  set (e := JS.ilog2 (Qnum x) (Zpos (Qden x))) in *.
  set (k := e - 52).
  set (y := (x * Qpower JS.two (- k))%Q).
  pose proof (two_pow_pos (- k)) as Hs. pose proof (two_pow_pos k) as Hk.
  assert (Hy1 : (inject_Z (2 ^ 52) <= y)%Q).
  { rewrite <- (two_pow_nonneg 52) by lia.
    replace 52 with (e + - k) by (unfold k; lia). rewrite two_pow_add.
    unfold y. apply Qmult_le_compat_r; [exact Hlo | now apply Qlt_le_weak]. }
  assert (Hy2 : (y <= inject_Z (2 ^ 53))%Q).
  { rewrite <- (two_pow_nonneg 53) by lia.
    replace 53 with (e + 1 + - k) by (unfold k; lia). rewrite two_pow_add.
    unfold y. apply Qmult_le_compat_r; [now apply Qlt_le_weak | now apply Qlt_le_weak]. }
  apply RNE_mono in Hy1. apply RNE_mono in Hy2. rewrite RNE_inject in Hy1, Hy2.
  split.
  - replace e with (52 + k) at 1 by (unfold k; lia).
    rewrite two_pow_add, (two_pow_nonneg 52) by lia.
    apply Qmult_le_compat_r; [ | now apply Qlt_le_weak].
    rewrite <- Zle_Qle. exact Hy1.
  - replace (e + 1) with (53 + k) by (unfold k; lia).
    rewrite two_pow_add, (two_pow_nonneg 53) by lia.
    apply Qmult_le_compat_r; [ | now apply Qlt_le_weak].
    rewrite <- Zle_Qle. exact Hy2.
Qed.

Lemma round53_mono (x y : Q) :
  (0 < x)%Q -> (x <= y)%Q -> (JS.round53 x <= JS.round53 y)%Q.
Proof.
  intros Hx Hxy.
  assert (Hy : (0 < y)%Q) by (eapply Qlt_le_trans; eassumption).
  destruct (ilog2_Q x Hx) as [Hxlo Hxhi]. destruct (ilog2_Q y Hy) as [Hylo Hyhi].
  destruct (round53_bounds x Hx) as [_ Hrx]. destruct (round53_bounds y Hy) as [Hry _].
  set (ex := JS.ilog2 (Qnum x) (Zpos (Qden x))) in *.
  set (ey := JS.ilog2 (Qnum y) (Zpos (Qden y))) in *.
  destruct (Z.lt_trichotomy ex ey) as [Hlt | [Heq | Hgt]].
  - apply Qle_trans with (Qpower JS.two (ex + 1)); [exact Hrx | ].
    apply Qle_trans with (Qpower JS.two ey); [ | exact Hry].
    apply two_pow_le. lia.
  - unfold JS.round53. fold ex ey. rewrite Heq.
    apply Qmult_le_compat_r; [ | apply Qlt_le_weak, two_pow_pos].
    rewrite <- Zle_Qle. apply RNE_mono.
    apply Qmult_le_compat_r; [exact Hxy | apply Qlt_le_weak, two_pow_pos].
  - exfalso. apply (Qlt_irrefl x).
    apply Qle_lt_trans with y; [exact Hxy | ].
    apply Qlt_le_trans with (Qpower JS.two (ey + 1)); [exact Hyhi | ].
    apply Qle_trans with (Qpower JS.two ex); [ | exact Hxlo].
    apply two_pow_le. lia.
Qed.

Lemma binary64_mono (x y : Q) :
  (0 <= x)%Q -> (x <= y)%Q -> (JS.binary64 x <= JS.binary64 y)%Q.
Proof.
  intros Hx Hxy.
  assert (Hy : (0 <= y)%Q) by (eapply Qle_trans; eassumption).
  unfold JS.binary64.
  destruct (Qnum x) as [ | px | px] eqn:Hnx.
  - destruct (Qnum y) as [ | py | py] eqn:Hny.
    + exact Hxy.
    + assert (Hypos : (0 < y)%Q) by (unfold Qlt; simpl; rewrite Hny; lia).
      destruct (round53_bounds y Hypos) as [Hlo _].
      apply Qle_trans with 0%Q; [unfold Qle; simpl; rewrite Hnx; lia | ].
      apply Qle_trans with (Qpower JS.two (JS.ilog2 (Qnum y) (Zpos (Qden y))));
        [apply Qlt_le_weak, two_pow_pos | exact Hlo].
    + exfalso. unfold Qle in Hy. simpl in Hy. rewrite Hny in Hy. lia.
  - assert (Hxpos : (0 < x)%Q) by (unfold Qlt; simpl; rewrite Hnx; lia).
    assert (Hypos : (0 < y)%Q) by (eapply Qlt_le_trans; eassumption).
    destruct (Qnum y) as [ | py | py] eqn:Hny.
    + exfalso. unfold Qlt in Hypos. simpl in Hypos. rewrite Hny in Hypos. lia.
    + now apply round53_mono.
    + exfalso. unfold Qlt in Hypos. simpl in Hypos. rewrite Hny in Hypos. lia.
  - exfalso. unfold Qle in Hx. simpl in Hx. rewrite Hnx in Hx. lia.
Qed.

Lemma binary64_wellRounded : wellRounded JS.binary64.
Proof.
  split; [exact binary64_mono | ]. repeat split; vm_compute; reflexivity.
Qed.

(** The model agrees with the binary64 arithmetic of the processor on the
    quotient 23 / 40 and on its product with 100. *)
Example binary64_agrees_with_hardware :
  FloatOps.Prim2SF
    (PrimFloat.mul (PrimFloat.div (PrimFloat.of_uint63 (Uint63.of_Z 23))
                                  (PrimFloat.of_uint63 (Uint63.of_Z 40)))
                   (PrimFloat.of_uint63 (Uint63.of_Z 100)))
  = SpecFloat.S754_finite false 8092405580431359 (-47)
  /\ (JS.binary64 (JS.binary64 (23 # 40) * inject_Z 100)
      == 8092405580431359 # 140737488355328)%Q.
Proof. split; vm_compute; reflexivity. Qed.

(** *** Statistics *)

Lemma ofNat_pos (n : nat) : (0 < n)%nat -> (0 < TaskService.ofNat n)%Q.
Proof. intros H. unfold TaskService.ofNat, Qlt. simpl. lia. Qed.

Lemma ratio_bounds (completed total : nat) :
  (0 < total)%nat -> (completed <= total)%nat ->
  (0 <= TaskService.ofNat completed / TaskService.ofNat total)%Q
  /\ (TaskService.ofNat completed / TaskService.ofNat total <= 1)%Q.
Proof.
  intros Hpos Hle. split.
  - apply Qle_shift_div_l; [now apply ofNat_pos | ].
    unfold TaskService.ofNat, Qle, Qmult, inject_Z. cbn [Qnum Qden]. lia.
  - apply Qle_shift_div_r; [now apply ofNat_pos | ].
    unfold TaskService.ofNat, Qle, Qmult, inject_Z. cbn [Qnum Qden]. lia.
Qed.

Lemma Math_round_bounds (x : Q) :
  (0 <= x)%Q -> (x <= inject_Z 100)%Q -> 0 <= JS.Math_round x <= 100.
Proof.
  intros H0 H100. unfold JS.Math_round. split.
  - change 0 with (Qfloor (0 + (1 # 2))). apply Qfloor_resp_le.
    apply Qplus_le_compat; [exact H0 | apply Qle_refl].
  - change 100 with (Qfloor (inject_Z 100 + (1 # 2))). apply Qfloor_resp_le.
    apply Qplus_le_compat; [exact H100 | apply Qle_refl].
Qed.

Lemma rate_bounds (env : JS.Env) (completed total : nat) :
  wellRounded (JS.fl env) -> (completed <= total)%nat ->
  0 <= TaskService.rate env completed total <= 100.
Proof.
  intros (Hmono & Hfl0 & Hfl1 & Hfl100) Hle. unfold TaskService.rate.
  destruct (0 <? total)%nat eqn:Hpos; [ | lia].
  apply Nat.ltb_lt in Hpos.
  destruct (ratio_bounds completed total Hpos Hle) as [Hq0 Hq1].
  set (q := (TaskService.ofNat completed / TaskService.ofNat total)%Q) in *.
  assert (Hlo : forall x, (0 <= x)%Q -> (0 <= JS.fl env x)%Q).
  { intros x Hx. apply Qle_trans with (JS.fl env 0).
    - rewrite Hfl0. apply Qle_refl.
    - apply Hmono; [apply Qle_refl | exact Hx]. }
  assert (Hf1 : (JS.fl env q <= 1)%Q).
  { apply Qle_trans with (JS.fl env 1); [now apply Hmono | ].
    rewrite Hfl1. apply Qle_refl. }
  pose proof (Hlo q Hq0) as Hf0.
  apply Math_round_bounds.
  - apply Hlo. apply Qmult_le_0_compat; [exact Hf0 | discriminate].
  - apply Qle_trans with (JS.fl env (inject_Z 100)).
    + apply Hmono.
      * apply Qmult_le_0_compat; [exact Hf0 | discriminate].
      * apply Qle_trans with (1 * inject_Z 100)%Q.
        -- apply Qmult_le_compat_r; [exact Hf1 | discriminate].
        -- rewrite Qmult_1_l. apply Qle_refl.
    + rewrite Hfl100. apply Qle_refl.
Qed.

Lemma rate_exact (env : JS.Env) (completed total : nat) :
  (forall x, (JS.fl env x == x)%Q) ->
  TaskService.rate env completed total = exactRate completed total.
Proof.
  intros Hexact. unfold TaskService.rate, exactRate, JS.Math_round.
  destruct total as [| n]; [reflexivity | ]. simpl Nat.ltb.
  now rewrite !Hexact.
Qed.

Lemma filter_length_le {A} (p : A -> bool) (l : list A) :
  (List.length (filter p l) <= List.length l)%nat.
Proof.
  induction l as [| x l IH]; simpl; [lia | ].
  destruct (p x); simpl; lia.
Qed.

(** C5 (amended).  [getStatistics().completionRate] is an integer between 0
    and 100; it is 0 when there is no task; otherwise it is [Math.round] of
    the product, rounded as the engine rounds, of 100 and the rounded
    quotient completed / total.  With exact arithmetic it is the exactly
    rounded percentage. *)
Theorem completionRate_bounds (env : JS.Env) (st : DB.Storage) :
  wellRounded (JS.fl env) ->
  exists stats,
    TaskService.getStatistics env st = (JS.Ok stats, st)
    /\ 0 <= TaskService.completionRate stats <= 100
    /\ (TaskService.total stats = 0%nat -> TaskService.completionRate stats = 0)
    /\ ((0 < TaskService.total stats)%nat ->
        TaskService.completionRate stats
        = JS.Math_round
            (JS.fl env
               (JS.fl env (TaskService.ofNat (TaskService.completed stats)
                           / TaskService.ofNat (TaskService.total stats))
                * inject_Z 100))%Q)
    /\ ((forall x, (JS.fl env x == x)%Q) ->
        TaskService.completionRate stats
        = exactRate (TaskService.completed stats) (TaskService.total stats)).
Proof.
  intros Hfl.
  destruct (getStatistics_run env st) as (stats & Hrun & Htotal & Hdone & Hrate).
  exists stats. split; [exact Hrun | ]. rewrite Hrate.
  split; [ | split; [ | split]].
  - apply rate_bounds; [exact Hfl | ]. rewrite Hdone, Htotal.
    apply filter_length_le.
  - intros H0. unfold TaskService.rate. now rewrite H0.
  - intros Hpos. unfold TaskService.rate.
    apply Nat.ltb_lt in Hpos. now rewrite Hpos.
  - apply rate_exact.
Qed.

Lemma exact_wellRounded : wellRounded (fun x => x).
Proof.
  split; [intros x y _ H; exact H | ]. repeat split; reflexivity.
Qed.

Lemma completionRate_bounds_witness :
  exists stats,
    TaskService.getStatistics env64 (tally 1 2) = (JS.Ok stats, tally 1 2)
    /\ 0 <= TaskService.completionRate stats <= 100
    /\ TaskService.completionRate stats = 33.
Proof.
  destruct (completionRate_bounds env64 (tally 1 2) binary64_wellRounded)
    as (stats & Hrun & Hb & _ & _ & _).
  exists stats. split; [exact Hrun | ]. split; [exact Hb | ].
  vm_compute in Hrun. injection Hrun as <-. reflexivity.
Defined.

(** C5, as stated, fails in an engine: with 23 of 40 tasks completed the
    exact percentage is 57.5, which rounds to 58, but the binary64 product
    [(23 / 40) * 100] is 57.49999999999999 and [completionRate] is 57. *)
Lemma completionRate_23_of_40 :
  exists stats,
    TaskService.getStatistics env64 (tally 23 17) = (JS.Ok stats, tally 23 17)
    /\ TaskService.total stats = 40%nat
    /\ TaskService.completed stats = 23%nat
    /\ TaskService.completionRate stats = 57
    /\ exactRate 23 40 = 58.
Proof.
  eexists. split; [vm_compute; reflexivity | ]. repeat split.
Qed.

(** ** Further properties of the task class *)

Lemma arr_includes_app (l : list string) (x : string) :
  JS.arr_includes (l ++ [x])%list x = true.
Proof.
  apply arr_includes_In. apply in_or_app. right. now left.
Qed.

(** X1.  Adding a tag twice is adding it once: the second [addTag] with the
    same argument changes nothing, not even [updatedAt]. *)
Theorem addTag_idempotent (env env' : JS.Env) (task : Task.t) (tag : string) :
  Task.addTag env' (Task.addTag env task tag) tag = Task.addTag env task tag.
Proof.
  unfold Task.addTag.
  destruct (JS.nonEmpty (JS.toLowerCase (JS.trim tag))
            && negb (JS.arr_includes (Task.tags task) (JS.toLowerCase (JS.trim tag))))
    eqn:Hadd.
  - cbn [Task.tags Task.withTags]. rewrite arr_includes_app.
    now rewrite andb_false_r.
  - now rewrite Hadd.
Qed.

Lemma nonEmpty_neq (s : string) : JS.nonEmpty s = true <-> s <> "".
Proof.
  unfold JS.nonEmpty. destruct (String.eqb_spec s "") as [-> | Hs]; simpl.
  - split; [discriminate | intros H; now elim H].
  - split; [intros _; exact Hs | reflexivity].
Qed.

Lemma arr_includes_false (l : list string) (x : string) :
  JS.arr_includes l x = false <-> ~ In x l.
Proof.
  rewrite <- arr_includes_In. destruct (JS.arr_includes l x).
  - split; [discriminate | intros H; now elim H].
  - split; [intros _; discriminate | reflexivity].
Qed.

Lemma NoDup_snoc {A} (l : list A) (x : A) :
  NoDup l -> ~ In x l -> NoDup (l ++ [x])%list.
Proof.
  induction 1 as [| y l Hy Hl IH]; simpl; intros Hx.
  - constructor; [intros [] | constructor].
  - constructor.
    + intros Hin. apply in_app_or in Hin. destruct Hin as [Hin | [-> | []]].
      * now apply Hy.
      * apply Hx. now left.
    + apply IH. intros Hin. apply Hx. now right.
Qed.

(** X2.  [addTag] and [removeTag] keep the tags free of duplicates and of
    empty entries. *)
Theorem tag_operations_keep_tags_clean (env : JS.Env) (task : Task.t) (tag : string) :
  tagsClean task ->
  tagsClean (Task.addTag env task tag) /\ tagsClean (Task.removeTag env task tag).
Proof.
  intros [Hnd Hne]. split.
  - unfold Task.addTag.
    destruct (JS.nonEmpty (JS.toLowerCase (JS.trim tag))) eqn:Hn; simpl;
      [ | now split].
    destruct (JS.arr_includes (Task.tags task) (JS.toLowerCase (JS.trim tag)))
      eqn:Hin; simpl; [now split | ].
    apply arr_includes_false in Hin. apply nonEmpty_neq in Hn.
    unfold tagsClean. cbn [Task.tags Task.withTags]. split.
    + now apply NoDup_snoc.
    + intros H. apply in_app_or in H. destruct H as [H | [H | []]].
      * now apply Hne.
      * now apply Hn.
  - unfold tagsClean, Task.removeTag. cbn [Task.tags Task.withTags]. split.
    + now apply NoDup_filter.
    + intros H. apply filter_In in H. now apply Hne.
Qed.

Lemma tag_operations_keep_tags_clean_witness :
  tagsClean (Task.addTag env0 (Task.new env0 (tagsOnly ["home"])) " Work ")
  /\ tagsClean (Task.removeTag env0 (Task.new env0 (tagsOnly ["home"])) " Work ").
Proof.
  apply (tag_operations_keep_tags_clean env0 (Task.new env0 (tagsOnly ["home"]))).
  split.
  - constructor; [intros [] | constructor].
  - intros [H | []]. discriminate H.
Defined.

Lemma filter_neq_absent (l : list string) (x : string) :
  ~ In x l -> filter (fun y => negb (String.eqb y x)) l = l.
Proof.
  intros H. apply filter_all. intros y Hy.
  destruct (String.eqb_spec y x) as [-> | ]; [now elim H | reflexivity].
Qed.

(** X3.  Removing the normalized spelling of a tag undoes [addTag]: when the
    normalized tag was not among the tags (and no tag is empty), the tags are
    again what they were. *)
Theorem removeTag_undoes_addTag (env env' : JS.Env) (task : Task.t) (tag : string) :
  ~ In (normalizeTag tag) (Task.tags task) ->
  ~ In "" (Task.tags task) ->
  Task.tags (Task.removeTag env' (Task.addTag env task tag) (normalizeTag tag))
  = Task.tags task.
Proof.
  unfold normalizeTag. intros Hnew Hne. unfold Task.addTag.
  destruct (JS.nonEmpty (JS.toLowerCase (JS.trim tag))) eqn:Hn.
  - apply arr_includes_false in Hnew. rewrite Hnew.
    cbn [andb negb Task.removeTag Task.withTags Task.tags].
    apply arr_includes_false in Hnew.
    rewrite filter_app, (filter_neq_absent _ _ Hnew). simpl.
    rewrite String.eqb_refl. simpl. apply app_nil_r.
  - cbn [andb Task.removeTag Task.withTags Task.tags].
    now apply filter_neq_absent.
Qed.

Lemma removeTag_undoes_addTag_witness :
  Task.tags (Task.removeTag env0 (Task.addTag env0 (Task.new env0 (tagsOnly ["home"]))
                                              " Work ") (normalizeTag " Work "))
  = Task.tags (Task.new env0 (tagsOnly ["home"])).
Proof.
  apply (removeTag_undoes_addTag env0 env0 (Task.new env0 (tagsOnly ["home"])) " Work ").
  - intros [H | []]. discriminate H.
  - intros [H | []]. discriminate H.
Defined.

Lemma length_zero_iff (s : string) : (String.length s =? 0)%nat = true <-> s = "".
Proof. destruct s; simpl; split; intros H; try reflexivity; discriminate. Qed.

Lemma title_rule (title : string) :
  negb (JS.nonEmpty title) || (String.length (JS.trim title) =? 0)%nat = false
  <-> JS.trim title <> "".
Proof.
  destruct title as [| c title]; simpl negb; simpl orb.
  - split; [discriminate | intros H; now elim H].
  - change (JS.nonEmpty (String c title)) with true. simpl negb. simpl orb.
    destruct (String.length (JS.trim (String c title)) =? 0)%nat eqn:Hl.
    + apply length_zero_iff in Hl. split; [discriminate | intros H; now elim H].
    + split; [ | reflexivity]. intros _ H.
      apply length_zero_iff in H. rewrite H in Hl. discriminate.
Qed.

Lemma length_rule (title : string) :
  JS.nonEmpty title && (200 <? String.length title)%nat = false
  <-> (String.length title <= 200)%nat.
Proof.
  destruct title as [| c title].
  - simpl. split; [intros _; lia | reflexivity].
  - change (JS.nonEmpty (String c title)) with true. simpl andb.
    rewrite Nat.ltb_ge. reflexivity.
Qed.

Lemma priority_rule (priority : string) :
  JS.nonEmpty priority
  && negb (JS.arr_includes Task.validPriorities priority) = false
  <-> priority = "" \/ In priority Task.validPriorities.
Proof.
  destruct (JS.nonEmpty priority) eqn:Hn; cbn [andb].
  - apply nonEmpty_neq in Hn. rewrite negb_false_iff, arr_includes_In.
    split; [now right | intros [H | H]; [now elim Hn | exact H]].
  - split; [intros _; left | reflexivity].
    destruct priority; [reflexivity | discriminate Hn].
Qed.

Lemma dueDate_rule (task : Task.t) :
  Task.isSet (Task.dueDate task) && Task.isNaN (Task.dueTime task) = false
  <-> Task.dueDate task = None \/ Task.dueDate task = Some ""
      \/ exists s ms, Task.dueDate task = Some s /\ JS.Date_parse s = Some ms.
Proof.
  unfold Task.isSet, Task.dueTime.
  destruct (Task.dueDate task) as [s | ]; [ | split; [now left | reflexivity]].
  destruct (JS.nonEmpty s) eqn:Hn; simpl andb.
  - apply nonEmpty_neq in Hn. unfold JS.Date_getTime, JS.ToPrimitive.
    destruct (JS.Date_parse s) as [ms | ] eqn:Hp; simpl.
    + split; [ | reflexivity]. intros _. right. right. now exists s, ms.
    + split; [discriminate | ].
      intros [H | [H | (s' & ms & H & Hp')]]; try discriminate.
      * injection H as ->. now elim Hn.
      * injection H as <-. rewrite Hp in Hp'. discriminate.
  - split; [ | reflexivity]. intros _. right. left.
    destruct s; [reflexivity | discriminate Hn].
Qed.

(** X4.  [validate()] accepts a task exactly when its title holds a
    character that is not white space and has at most 200 characters, its
    priority is empty or one of the four levels, and its due date is unset
    or a string that parses as a date. *)
Theorem validate_accepts_iff (task : Task.t) :
  Task.isValid (Task.validate task) = true <->
  JS.trim (Task.title task) <> ""
  /\ (String.length (Task.title task) <= 200)%nat
  /\ (Task.priority task = "" \/ In (Task.priority task) Task.validPriorities)
  /\ (Task.dueDate task = None \/ Task.dueDate task = Some ""
      \/ exists s ms, Task.dueDate task = Some s /\ JS.Date_parse s = Some ms).
Proof.
  rewrite <- title_rule, <- length_rule, <- priority_rule, <- dueDate_rule.
  unfold Task.validate. cbn [Task.isValid].
  destruct (negb (JS.nonEmpty (Task.title task))
            || (String.length (JS.trim (Task.title task)) =? 0)%nat);
    destruct (JS.nonEmpty (Task.title task)
              && (200 <? String.length (Task.title task))%nat);
    destruct (JS.nonEmpty (Task.priority task)
              && negb (JS.arr_includes Task.validPriorities (Task.priority task)));
    destruct (Task.isSet (Task.dueDate task) && Task.isNaN (Task.dueTime task));
    simpl; split; try discriminate; try tauto;
    intros (H1 & H2 & H3 & H4); discriminate.
Qed.

Lemma strOr_idem (x : JS.prop string) (dflt dflt' : string) :
  JS.nonEmpty dflt = true \/ dflt = dflt' ->
  Task.strOr (JS.Val (Task.strOr x dflt)) dflt' = Task.strOr x dflt.
Proof.
  intros Hd. unfold Task.strOr, JS.or_else.
  destruct x as [ | | s]; try destruct (JS.nonEmpty s) eqn:Hs; try now rewrite Hs.
  all: destruct Hd as [-> | ->]; [reflexivity | now destruct (JS.nonEmpty dflt')].
Qed.

Lemma strOrNull_idem (x : JS.prop string) :
  Task.strOrNull (Task.nullable (Task.strOrNull x)) = Task.strOrNull x.
Proof.
  unfold Task.strOrNull, JS.or_else.
  destruct x as [ | | s]; try reflexivity.
  destruct (JS.nonEmpty s) eqn:Hs; simpl; [now rewrite Hs | reflexivity].
Qed.

Lemma numOrNull_idem (x : JS.prop Z) :
  Task.numOrNull (Task.nullable (Task.numOrNull x)) = Task.numOrNull x.
Proof.
  unfold Task.numOrNull, JS.or_else.
  destruct x as [ | | z]; try reflexivity.
  destruct (negb (z =? 0)) eqn:Hz; simpl; [now rewrite Hz | reflexivity].
Qed.

(** X5.  A task built by the constructor survives [toJSON] and the
    constructor unchanged, whatever the time of the second construction:
    [clone()] and [fromJSON(toJSON())] return an equal task. *)
Theorem clone_of_constructed_task (env env' : JS.Env) (data : TaskData) :
  Task.clone env' (Task.new env data) = Task.new env data
  /\ Task.fromJSON env' (Task.toJSON (Task.fromJSON env data))
     = Task.fromJSON env data.
Proof.
  assert (H : Task.new env' (Task.toJSON (Task.new env data)) = Task.new env data).
  { unfold Task.new, Task.toJSON.
    cbn [Task.id Task.title Task.description Task.completed Task.priority
         Task.dueDate Task.tags Task.createdAt Task.updatedAt Task.completedAt
         Task.estimatedTime Task.actualTime Task.notes Task.links
         d_id d_title d_description d_completed d_priority d_dueDate d_tags
         d_createdAt d_updatedAt d_completedAt d_estimatedTime d_actualTime
         d_notes d_links].
    rewrite !strOrNull_idem, !numOrNull_idem.
    rewrite (strOr_idem (d_title data) "" "") by now right.
    rewrite (strOr_idem (d_description data) "" "") by now right.
    rewrite (strOr_idem (d_notes data) "" "") by now right.
    rewrite (strOr_idem (d_priority data) "medium" "medium") by now right.
    rewrite (strOr_idem (d_createdAt data)) by (left; apply nowISO_nonEmpty).
    rewrite (strOr_idem (d_updatedAt data)) by (left; apply nowISO_nonEmpty).
    f_equal; unfold Task.arrOr, JS.or_else;
      try (destruct (d_completed data) as [ | | []]; reflexivity);
      try (destruct (d_tags data); reflexivity);
      destruct (d_links data); reflexivity. }
  split; exact H.
Qed.

Lemma overdue_facts (env : JS.Env) (task : Task.t) :
  (Task.isOverdue env task = true ->
   Task.completed task = false
   /\ Task.isDueThisWeek env task = false
   /\ exists s due, Task.dueDate task = Some s /\ JS.Date_parse s = Some due
                    /\ due < JS.now env)
  /\ (Task.dueDate task = None ->
      Task.isOverdue env task = false /\ Task.isDueToday env task = false
      /\ Task.isDueThisWeek env task = false).
Proof.
  split.
  - unfold Task.isOverdue, Task.isSet.
    destruct (Task.dueDate task) as [s | ] eqn:Hs; [ | discriminate].
    destruct (JS.nonEmpty s); [ | discriminate].
    destruct (Task.completed task); [discriminate | ]. simpl.
    rewrite (dueTime_parse task s Hs).
    destruct (JS.Date_parse s) as [due | ] eqn:Hp; [ | discriminate]. simpl.
    intros Hlt. apply Z.ltb_lt in Hlt.
    split; [reflexivity | ]. split; [ | now exists s, due].
    rewrite (isDueThisWeek_parsed env task s due Hs Hp).
    apply andb_false_intro2. now apply Z.leb_gt.
  - intros Hnone.
    unfold Task.isOverdue, Task.isDueToday, Task.isDueThisWeek, Task.isSet.
    now rewrite Hnone.
Qed.


(** X6.  An overdue task is not completed, has a due instant before now,
    and is not due this week; a task without due date is neither overdue nor
    due today nor due this week. *)
Theorem overdue_excludes_due_this_week (env : JS.Env) (task : Task.t) :
  (Task.isOverdue env task = true ->
   Task.completed task = false
   /\ Task.isDueThisWeek env task = false
   /\ exists s due, Task.dueDate task = Some s /\ JS.Date_parse s = Some due
                    /\ due < JS.now env)
  /\ (Task.dueDate task = None ->
      Task.isOverdue env task = false /\ Task.isDueToday env task = false
      /\ Task.isDueThisWeek env task = false).
Proof. exact (overdue_facts env task). Qed.

Lemma overdue_excludes_due_this_week_witness :
  Task.completed (Task.new env0 (dueOnly "2025-01-14")) = false
  /\ Task.isDueThisWeek env0 (Task.new env0 (dueOnly "2025-01-14")) = false.
Proof.
  destruct (proj1 (overdue_excludes_due_this_week env0
                     (Task.new env0 (dueOnly "2025-01-14"))) eq_refl)
    as (H1 & H2 & _).
  split; assumption.
Defined.

(** ** Further properties of the store *)

Lemma getTask_run (taskId : string) (st : DB.Storage) :
  DB.getTask taskId st = (JS.Ok (find (DB.hasId taskId) (stored st)), st).
Proof.
  unfold DB.getTask. now rewrite (bind_run _ _ st st _ (getTasks_run st)).
Qed.

Lemma hasId_iff (taskId : string) (task : TaskData) :
  DB.hasId taskId task = true <-> d_id task = JS.Val taskId.
Proof.
  unfold DB.hasId. destruct (d_id task) as [ | | s].
  - split; discriminate.
  - split; discriminate.
  - rewrite String.eqb_eq. split; [now intros -> | now intros [= ->]].
Qed.

Lemma hasId_false_iff (taskId : string) (task : TaskData) :
  DB.hasId taskId task = false <-> d_id task <> JS.Val taskId.
Proof.
  rewrite <- hasId_iff. destruct (DB.hasId taskId task).
  - split; [discriminate | intros H; now elim H].
  - split; [intros _; discriminate | reflexivity].
Qed.

Lemma findIndex_absent {A} (p : A -> bool) (l : list A) :
  (forall x, In x l -> p x = false) ->
  DB.findIndex p l = None /\ find p l = None /\ existsb p l = false.
Proof.
  induction l as [| x l IH]; simpl; intros H; [now repeat split | ].
  rewrite (H x (or_introl eq_refl)).
  destruct IH as (H1 & H2 & H3); [intros y Hy; apply H; now right | ].
  rewrite H1. now repeat split.
Qed.

Lemma find_app_new {A} (p : A -> bool) (l : list A) (x : A) :
  (forall y, In y l -> p y = false) -> p x = true ->
  find p (l ++ [x])%list = Some x.
Proof.
  induction l as [| y l IH]; simpl; intros Hl Hx.
  - now rewrite Hx.
  - rewrite (Hl y (or_introl eq_refl)). apply IH; [ | exact Hx].
    intros z Hz. apply Hl. now right.
Qed.

Lemma generateId_nonEmpty (env : JS.Env) : JS.nonEmpty (DB.generateId env) = true.
Proof. reflexivity. Qed.

Lemma newId_nonEmpty (env : JS.Env) (data : TaskData) :
  JS.nonEmpty (newId env data) = true.
Proof.
  unfold newId, Task.new. cbn [Task.id]. unfold Task.strOrNull, JS.or_else.
  destruct (d_id data) as [ | | s]; try apply generateId_nonEmpty.
  destruct (JS.nonEmpty s) eqn:Hs; [exact Hs | apply generateId_nonEmpty].
Qed.

Lemma new_createdAt_nonEmpty (env : JS.Env) (data : TaskData) :
  JS.nonEmpty (Task.createdAt (Task.new env data)) = true.
Proof.
  unfold Task.new. cbn [Task.createdAt]. unfold Task.strOr, JS.or_else.
  destruct (d_createdAt data) as [ | | s]; try apply nowISO_nonEmpty.
  destruct (JS.nonEmpty s) eqn:Hs; [exact Hs | apply nowISO_nonEmpty].
Qed.

Lemma addTask_added (env : JS.Env) (taskData : TaskData) (st : DB.Storage) :
  DB.addTask env taskData st
  = (JS.Ok (addedRecord env taskData),
     saved (stored st ++ [addedRecord env taskData])%list st).
Proof.
  unfold DB.addTask.
  rewrite (bind_run _ _ st st (stored st) (getTasks_run st)).
  unfold DB.bind. rewrite saveTasks_run. unfold saved, addedRecord.
  destruct (DB.quota st); reflexivity.
Qed.

(** X7.  Creating a task from data that passes validation, on a store that
    accepts the write, appends exactly one record to the collection.  The
    record carries the fields of the constructed task, the identifier the
    data gives or else a generated one, the creation time of the task, and
    the current time as [updatedAt]; the task returned is built from it; and
    when no earlier record has its identifier, [getTask] finds it. *)
Theorem createTask_appends_record (env : JS.Env) (st : DB.Storage) (data : TaskData) :
  Task.isValid (Task.validate (Task.new env data)) = true ->
  DB.quota st = true ->
  exists rec st',
    TaskService.createTask env data st = (JS.Ok (Some (Task.fromJSON env rec)), st')
    /\ stored st' = (stored st ++ [rec])%list
    /\ blankMeta rec = blankMeta (Task.toJSON (Task.new env data))
    /\ d_id rec = JS.Val (newId env data)
    /\ d_createdAt rec = JS.Val (Task.createdAt (Task.new env data))
    /\ d_updatedAt rec = JS.Val (JS.nowISO env)
    /\ ((forall task, In task (stored st) -> d_id task <> JS.Val (newId env data)) ->
        DB.getTask (newId env data) st' = (JS.Ok (Some rec), st')).
Proof.
  intros Hvalid Hq.
  pose proof (addTask_added env (Task.toJSON (Task.new env data)) st) as Hadd.
  unfold saved in Hadd. rewrite Hq in Hadd.
  set (rec := addedRecord env (Task.toJSON (Task.new env data))) in *.
  assert (Hid : d_id rec = JS.Val (newId env data)).
  { unfold rec, addedRecord, newId, Task.toJSON. cbn [spreadData d_id JS.spread].
    destruct (Task.id (Task.new env data)) as [s | ] eqn:Hs; cbn [Task.nullable].
    - unfold Task.strOr, JS.or_else.
      assert (Hne : JS.nonEmpty s = true).
      { pose proof (newId_nonEmpty env data) as H. unfold newId in H.
        now rewrite Hs in H. }
      now rewrite Hne.
    - reflexivity. }
  exists rec. eexists. split.
  { unfold TaskService.createTask. rewrite Hvalid. cbn [negb].
    now rewrite (bind_run _ _ _ _ _ Hadd). }
  split; [rewrite stored_written; reflexivity | ].
  split; [reflexivity | ].
  split; [exact Hid | ].
  split.
  { unfold rec, addedRecord. cbn [spreadData d_createdAt JS.spread Task.toJSON].
    unfold Task.strOr, JS.or_else. now rewrite new_createdAt_nonEmpty. }
  split; [reflexivity | ].
  intros Hfresh. rewrite getTask_run, stored_written. do 2 f_equal.
  apply find_app_new.
  - intros task Htask. apply hasId_false_iff. now apply Hfresh.
  - now apply hasId_iff.
Qed.

Lemma createTask_appends_record_witness :
  exists rec st',
    TaskService.createTask env0 (titleOnly "Ship report") emptyStorage
    = (JS.Ok (Some (Task.fromJSON env0 rec)), st')
    /\ stored st' = [rec]
    /\ d_id rec = JS.Val sampleId
    /\ DB.getTask sampleId st' = (JS.Ok (Some rec), st').
Proof.
  destruct (createTask_appends_record env0 emptyStorage (titleOnly "Ship report")
              eq_refl eq_refl)
    as (rec & st' & Hrun & Hst & _ & Hid & _ & _ & Hget).
  exists rec, st'. split; [exact Hrun | ]. split; [exact Hst | ].
  split; [exact Hid | ]. apply Hget. intros task [].
Defined.

(** X8.  For an identifier that no stored record carries, [updateTask],
    [toggleTaskComplete] and [getTask] return [null] as a normal result and
    leave the store as it was. *)
Theorem unknown_id_is_reported_as_null (env : JS.Env) (st : DB.Storage)
        (taskId : string) (updates : TaskData) :
  (forall task, In task (stored st) -> d_id task <> JS.Val taskId) ->
  DB.updateTask env taskId updates st = (JS.Ok None, st)
  /\ TaskService.updateTask env taskId updates st = (JS.Ok None, st)
  /\ DB.toggleTaskComplete env taskId st = (JS.Ok None, st)
  /\ TaskService.toggleTaskComplete env taskId st = (JS.Ok None, st)
  /\ DB.getTask taskId st = (JS.Ok None, st).
Proof.
  intros Hnone.
  destruct (findIndex_absent (DB.hasId taskId) (stored st)) as (Hi & Hf & _).
  { intros task Htask. apply hasId_false_iff. now apply Hnone. }
  assert (Hup : DB.updateTask env taskId updates st = (JS.Ok None, st))
    by now apply updateTask_unknown.
  assert (Htog : DB.toggleTaskComplete env taskId st = (JS.Ok None, st)).
  { unfold DB.toggleTaskComplete.
    rewrite (bind_run _ _ st st (stored st) (getTasks_run st)). now rewrite Hf. }
  split; [exact Hup | ].
  split. { unfold TaskService.updateTask. now rewrite (bind_run _ _ _ _ _ Hup). }
  split; [exact Htog | ].
  split. { unfold TaskService.toggleTaskComplete. now rewrite (bind_run _ _ _ _ _ Htog). }
  rewrite getTask_run. now rewrite Hf.
Qed.

Lemma unknown_id_is_reported_as_null_witness :
  TaskService.updateTask env0 "task_9" (titleOnly "Renamed")
                         (storageOf [record "task_1" "Ship report"])
  = (JS.Ok None, storageOf [record "task_1" "Ship report"])
  /\ TaskService.toggleTaskComplete env0 "task_9"
                                    (storageOf [record "task_1" "Ship report"])
     = (JS.Ok None, storageOf [record "task_1" "Ship report"]).
Proof.
  destruct (unknown_id_is_reported_as_null env0
              (storageOf [record "task_1" "Ship report"]) "task_9"
              (titleOnly "Renamed")) as (_ & H1 & _ & H2 & _).
  - intros task [<- | []]. simpl. discriminate.
  - split; assumption.
Defined.

Lemma findIndex_setAt {A} (p : A -> bool) (l : list A) (index : nat) (x : A) :
  DB.findIndex p l = Some index -> p x = true ->
  DB.findIndex p (DB.setAt index x l) = Some index
  /\ find p (DB.setAt index x l) = Some x.
Proof.
  revert index. induction l as [| y l IH]; simpl; intros index Hi Hx; [discriminate | ].
  destruct (p y) eqn:Hy.
  - injection Hi as <-. simpl. now rewrite Hx.
  - destruct (DB.findIndex p l) as [i | ]; [ | discriminate].
    injection Hi as <-. simpl. rewrite Hy.
    destruct (IH i eq_refl Hx) as [H1 H2]. now rewrite H1, H2.
Qed.

Lemma length_setAt {A} (l : list A) (index : nat) (x : A) :
  List.length (DB.setAt index x l) = List.length l.
Proof.
  revert index. induction l as [| y l IH]; intros [| i]; simpl; auto.
Qed.

Lemma setAt_setAt {A} (l : list A) (index : nat) (x y : A) :
  DB.setAt index y (DB.setAt index x l) = DB.setAt index y l.
Proof.
  revert index. induction l as [| z l IH]; intros [| i]; simpl; auto.
  now rewrite IH.
Qed.

Lemma applyUpdates_id (env : JS.Env) (old updates : TaskData) :
  d_id updates = JS.Absent -> d_id (DB.applyUpdates env old updates) = d_id old.
Proof. intros H. unfold DB.applyUpdates. simpl. now rewrite H. Qed.

(** X9.  After an update that does not give [id], on a store that accepts
    the write, [getTask] for the same identifier returns the updated record;
    the collection keeps its length. *)
Theorem getTask_after_updateTask (env : JS.Env) (st : DB.Storage) (taskId : string)
        (updates : TaskData) :
  DB.quota st = true ->
  existsb (DB.hasId taskId) (stored st) = true ->
  d_id updates = JS.Absent ->
  exists updated st',
    DB.updateTask env taskId updates st = (JS.Ok (Some updated), st')
    /\ DB.getTask taskId st' = (JS.Ok (Some updated), st')
    /\ List.length (stored st') = List.length (stored st).
Proof.
  intros Hq Hex Hid.
  destruct (findIndex_Some _ _ Hex) as (index & old & Hi & Hold & Hp & _).
  pose proof (updateTask_run env st taskId updates old index Hi Hold) as Hrun.
  unfold saved in Hrun. rewrite Hq in Hrun.
  do 2 eexists. split; [exact Hrun | ].
  rewrite getTask_run, stored_written. split.
  - do 2 f_equal. apply findIndex_setAt; [exact Hi | ].
    apply hasId_iff. rewrite applyUpdates_id by exact Hid. now apply hasId_iff.
  - apply length_setAt.
Qed.

Lemma getTask_after_updateTask_witness :
  exists updated st',
    DB.updateTask env0 "task_1" (titleOnly "Ship the report")
                  (storageOf [record "task_1" "Ship report"])
    = (JS.Ok (Some updated), st')
    /\ DB.getTask "task_1" st' = (JS.Ok (Some updated), st').
Proof.
  destruct (getTask_after_updateTask env0 (storageOf [record "task_1" "Ship report"])
              "task_1" (titleOnly "Ship the report") eq_refl eq_refl eq_refl)
    as (updated & st' & H1 & H2 & _).
  exists updated, st'. split; assumption.
Defined.

Lemma filter_length_lt {A} (p : A -> bool) (l : list A) :
  existsb p l = true ->
  (List.length (filter (fun x => negb (p x)) l) < List.length l)%nat.
Proof.
  induction l as [| x l IH]; simpl; intros H; [discriminate | ].
  destruct (p x) eqn:Hx; simpl.
  - pose proof (filter_length_le (fun y => negb (p y)) l). lia.
  - apply IH in H. lia.
Qed.

Lemma deleteTask_unknown_store (st : DB.Storage) (taskId : string) :
  (forall task, In task (stored st) -> d_id task <> JS.Val taskId) ->
  DB.deleteTask taskId st = (JS.Ok false, st).
Proof.
  intros Hnone. unfold DB.deleteTask, DB.bind. rewrite getTasks_run.
  rewrite filter_all.
  - rewrite Nat.eqb_refl. reflexivity.
  - intros task Htask. rewrite hasId_false; [reflexivity | now apply Hnone].
Qed.

(** X10.  Deleting an identifier that a stored record carries returns
    [true].  On a store that accepts the write every record with that
    identifier is gone, the others are kept in their order, and deleting
    again returns [false]; on a store that refuses the write [true] is
    returned all the same and nothing is removed. *)
Theorem deleteTask_known_id (st : DB.Storage) (taskId : string) :
  existsb (DB.hasId taskId) (stored st) = true ->
  exists st',
    DB.deleteTask taskId st = (JS.Ok true, st')
    /\ TaskService.deleteTask taskId st = (JS.Ok true, st')
    /\ (DB.quota st = true ->
        stored st' = filter (fun task => negb (DB.hasId taskId task)) (stored st)
        /\ (forall task, In task (stored st') -> d_id task <> JS.Val taskId)
        /\ DB.deleteTask taskId st' = (JS.Ok false, st'))
    /\ (DB.quota st = false -> st' = st).
Proof.
  intros Hex.
  assert (Hrun : DB.deleteTask taskId st
                 = (JS.Ok true,
                    saved (filter (fun task => negb (DB.hasId taskId task)) (stored st))
                          st)).
  { unfold DB.deleteTask.
    rewrite (bind_run _ _ st st (stored st) (getTasks_run st)).
    pose proof (filter_length_lt _ _ Hex) as Hlt.
    destruct (Nat.eqb_spec
                (List.length (filter (fun task => negb (DB.hasId taskId task))
                                     (stored st)))
                (List.length (stored st))) as [E | _]; [lia | ].
    unfold DB.bind. rewrite saveTasks_run. unfold saved.
    destruct (DB.quota st); reflexivity. }
  eexists. split; [exact Hrun | ]. split; [exact Hrun | ].
  unfold saved. split; intros Hq; rewrite Hq; [ | reflexivity].
  rewrite stored_written.
  assert (Hgone : forall task,
             In task (filter (fun task => negb (DB.hasId taskId task)) (stored st)) ->
             d_id task <> JS.Val taskId).
  { intros task Hin. apply filter_In in Hin. destruct Hin as [_ Hn].
    apply hasId_false_iff. now apply negb_true_iff. }
  split; [reflexivity | ]. split; [exact Hgone | ].
  apply deleteTask_unknown_store. rewrite stored_written. exact Hgone.
Qed.

Lemma deleteTask_known_id_witness :
  exists st',
    TaskService.deleteTask "task_1" (storageOf [record "task_1" "Ship report";
                                                record "task_2" "Buy milk"])
    = (JS.Ok true, st')
    /\ stored st' = [record "task_2" "Buy milk"].
Proof.
  destruct (deleteTask_known_id (storageOf [record "task_1" "Ship report";
                                            record "task_2" "Buy milk"]) "task_1"
              eq_refl) as (st' & _ & Hrun & Hq & _).
  exists st'. split; [exact Hrun | ].
  destruct (Hq eq_refl) as (Hst & _). exact Hst.
Defined.

Lemma toggleTaskComplete_run (env : JS.Env) (st : DB.Storage) (taskId : string)
      (old : TaskData) (index : nat) :
  DB.findIndex (DB.hasId taskId) (stored st) = Some index ->
  nth_error (stored st) index = Some old ->
  DB.toggleTaskComplete env taskId st
  = (JS.Ok (Some (toggled env old)),
     saved (DB.setAt index (toggled env old) (stored st)) st).
Proof.
  intros Hi Hold. unfold DB.toggleTaskComplete.
  rewrite (bind_run _ _ st st (stored st) (getTasks_run st)).
  destruct (findIndex_find _ _ _ Hi) as (x & Hx & Hfind & _).
  rewrite Hold in Hx. injection Hx as <-. rewrite Hfind.
  apply (updateTask_run env st taskId _ old index Hi Hold).
Qed.

Lemma toggled_hasId (env : JS.Env) (taskId : string) (old : TaskData) :
  DB.hasId taskId old = true -> DB.hasId taskId (toggled env old) = true.
Proof. intros H. apply hasId_iff. apply hasId_iff in H. exact H. Qed.

Lemma notCompleted_toggled (env : JS.Env) (old : TaskData) :
  DB.notCompleted (toggled env old) = negb (DB.notCompleted old).
Proof.
  unfold toggled, DB.applyUpdates. unfold DB.notCompleted at 1.
  cbn [spreadData d_completed JS.spread JS.or_else].
  now destruct (DB.notCompleted old).
Qed.

(** X11.  Toggling the same stored task twice, on a store that accepts the
    writes, restores its completion flag and changes no field but
    [completed], [completedAt] and [updatedAt]; a task that was completed
    gets the time of the second toggle as [completedAt], one that was not
    ends with [completedAt] null. *)
Theorem toggleTaskComplete_twice (env1 env2 : JS.Env) (st : DB.Storage)
        (taskId : string) :
  DB.quota st = true ->
  existsb (DB.hasId taskId) (stored st) = true ->
  exists index old r1 r2 st1 st2,
    nth_error (stored st) index = Some old
    /\ DB.toggleTaskComplete env1 taskId st = (JS.Ok (Some r1), st1)
    /\ DB.toggleTaskComplete env2 taskId st1 = (JS.Ok (Some r2), st2)
    /\ stored st2 = DB.setAt index r2 (stored st)
    /\ DB.notCompleted r1 = negb (DB.notCompleted old)
    /\ DB.notCompleted r2 = DB.notCompleted old
    /\ blankCompletion r2 = blankCompletion old
    /\ d_completedAt r2
       = (if DB.notCompleted old then JS.Null else JS.Val (JS.nowISO env2)).
Proof.
  intros Hq Hex.
  destruct (findIndex_Some _ _ Hex) as (index & old & Hi & Hold & Hp & _).
  pose proof (toggleTaskComplete_run env1 st taskId old index Hi Hold) as H1.
  unfold saved in H1. rewrite Hq in H1.
  set (r1 := toggled env1 old) in *.
  set (st1 := written (DB.setAt index r1 (stored st)) st) in *.
  assert (Hi1 : DB.findIndex (DB.hasId taskId) (stored st1) = Some index).
  { unfold st1. rewrite stored_written.
    apply findIndex_setAt; [exact Hi | now apply toggled_hasId]. }
  assert (Hold1 : nth_error (stored st1) index = Some r1).
  { unfold st1. rewrite stored_written. now apply nth_error_setAt with (y := old). }
  pose proof (toggleTaskComplete_run env2 st1 taskId r1 index Hi1 Hold1) as H2.
  unfold saved in H2. change (DB.quota st1) with (DB.quota st) in H2.
  rewrite Hq in H2.
  exists index, old, r1, (toggled env2 r1), st1. eexists.
  split; [exact Hold | ]. split; [exact H1 | ]. split; [exact H2 | ].
  split. { rewrite stored_written. unfold st1. rewrite stored_written.
           apply setAt_setAt. }
  split; [apply notCompleted_toggled | ].
  split. { rewrite notCompleted_toggled. unfold r1. rewrite notCompleted_toggled.
           apply negb_involutive. }
  split; [reflexivity | ].
  unfold toggled at 1. unfold DB.applyUpdates.
  cbn [spreadData d_completedAt JS.spread].
  unfold r1. rewrite (notCompleted_toggled env1 old).
  now destruct (DB.notCompleted old).
Qed.

Lemma toggleTaskComplete_twice_witness :
  exists r2 st1 st2,
    DB.toggleTaskComplete env0 "task_1" (storageOf [record "task_1" "Ship report"])
    = (JS.Ok (Some (toggled env0 (record "task_1" "Ship report"))), st1)
    /\ DB.toggleTaskComplete env0 "task_1" st1 = (JS.Ok (Some r2), st2)
    /\ d_completed r2 = JS.Val false
    /\ d_completedAt r2 = JS.Null.
Proof.
  destruct (toggleTaskComplete_twice env0 env0
              (storageOf [record "task_1" "Ship report"]) "task_1" eq_refl eq_refl)
    as (index & old & r1 & r2 & st1 & st2 & Hold & H1 & H2 & _ & _ & _ & _ & _).
  vm_compute in H1. injection H1 as <- <-.
  vm_compute in H2. injection H2 as <- <-.
  do 3 eexists. split; [vm_compute; reflexivity | ].
  split; [vm_compute; reflexivity | ]. split; reflexivity.
Defined.

Lemma importData_object (data : DB.Envelope) (st : DB.Storage) :
  exists st',
    DB.importData (JS.Encoded data) st = (JS.Ok true, st')
    /\ stored st'
       = match DB.e_tasks data with
         | JS.Val tasks => if DB.quota st then tasks else stored st
         | _ => stored st
         end.
Proof.
  pose (mid := match DB.e_tasks data with
               | JS.Val tasks => saved tasks st
               | _ => st
               end).
  assert (Hmid : stored mid = match DB.e_tasks data with
                              | JS.Val tasks => if DB.quota st then tasks else stored st
                              | _ => stored st
                              end).
  { unfold mid, saved. destruct (DB.e_tasks data); try reflexivity.
    now destruct (DB.quota st). }
  assert (Hfirst : (match DB.e_tasks data with
                    | JS.Val tasks => DB.bind (DB.saveTasks tasks) (fun _ => DB.ret tt)
                    | _ => DB.ret tt
                    end) st = (JS.Ok tt, mid)).
  { unfold mid, saved. destruct (DB.e_tasks data); try reflexivity.
    unfold DB.bind. rewrite saveTasks_run. now destruct (DB.quota st). }
  assert (Hsecond : exists st',
             (match DB.e_settings data with
              | JS.Val settings =>
                  DB.bind (DB.saveSettings settings) (fun _ => DB.ret tt)
              | _ => DB.ret tt
              end) mid = (JS.Ok tt, st') /\ stored st' = stored mid).
  { destruct (DB.e_settings data) as [ | | settings];
      try (exists mid; split; reflexivity).
    destruct (saveSettings_run settings mid) as (ok & st' & Hs & Hst).
    exists st'. split; [ | exact Hst]. now rewrite (bind_run _ _ _ _ _ Hs). }
  destruct Hsecond as (st' & Hsecond & Hst).
  exists st'. split; [ | now rewrite Hst].
  unfold DB.importData, DB.try_catch.
  rewrite (bind_run _ _ st st data) by reflexivity.
  rewrite (bind_run _ _ st mid tt Hfirst).
  now rewrite (bind_run _ _ mid st' tt Hsecond).
Qed.

(** X12.  [importData] returns [false] and leaves the store as it was for a
    text that does not parse, and also for the text [null], which parses
    but has no field to read.  For every other text it returns [true]: a
    text that encodes no object writes nothing, and of an object the tasks
    replace the collection when the store accepts the write, while the
    collection is untouched when the object gives no tasks or the write is
    refused. *)
Theorem importData_outcomes (st : DB.Storage) :
  (forall raw, DB.importDataOf (JS.Malformed raw) st = (JS.Ok false, st))
  /\ DB.importDataOf (JS.Encoded DB.IsNull) st = (JS.Ok false, st)
  /\ DB.importDataOf (JS.Encoded DB.IsPlain) st = (JS.Ok true, st)
  /\ (forall data,
         exists st',
           DB.importDataOf (JS.Encoded (DB.IsObject data)) st = (JS.Ok true, st')
           /\ DB.importData (JS.Encoded data) st = (JS.Ok true, st')
           /\ stored st'
              = match DB.e_tasks data with
                | JS.Val tasks => if DB.quota st then tasks else stored st
                | _ => stored st
                end)
  /\ (forall raw, DB.importData (JS.Malformed raw) st = (JS.Ok false, st)).
Proof.
  split; [reflexivity | ]. split; [reflexivity | ]. split; [reflexivity | ].
  split; [ | reflexivity].
  intros data. destruct (importData_object data st) as (st' & Hrun & Hstored).
  exists st'. split; [ | split; assumption].
  rewrite <- Hrun. reflexivity.
Qed.

Lemma getSettings_stored (st : DB.Storage) :
  DB.getSettings st = (JS.Ok (storedSettings st), st).
Proof.
  unfold DB.getSettings, DB.try_catch, DB.bind, DB.getItem_SETTINGS, storedSettings.
  destruct (DB.item_SETTINGS st) as [[raw | settings] | ]; reflexivity.
Qed.

Lemma stringifySettings_In (settings : DB.Settings) (name : string) (v : JS.value) :
  In (name, v)
     (flat_map (fun entry : string * JS.value =>
                  match JS.JSON_field (snd entry) with
                  | Some w => [(fst entry, w)]
                  | None => []
                  end)
               settings)
  <-> exists given,
        In (name, given) settings
        /\ given <> JS.VUndefined
        /\ v = match given with
               | JS.VNumber JS.NaN => JS.VNull
               | _ => given
               end.
Proof.
  rewrite in_flat_map. split.
  - intros ([name' given] & Hin & Hkept). simpl in Hkept.
    destruct given as [ | | b | [ | z] | text | l]; simpl in Hkept;
      try contradiction;
      destruct Hkept as [[= <- <-] | []];
      eexists; (split; [exact Hin | ]); split; (discriminate || reflexivity).
  - intros (given & Hin & Hdefined & ->). exists (name, given).
    split; [exact Hin | ]. simpl.
    destruct given as [ | | b | [ | z] | text | l]; simpl;
      try (now left). now elim Hdefined.
Qed.

Lemma stringifySettings_exact (settings : DB.Settings) :
  Forall (fun entry => jsonExact (snd entry)) settings ->
  flat_map (fun entry : string * JS.value =>
              match JS.JSON_field (snd entry) with
              | Some w => [(fst entry, w)]
              | None => []
              end)
           settings
  = settings.
Proof.
  induction 1 as [| [name v] settings [Hdefined Hnumber] _ IH]; simpl;
    [reflexivity | ].
  rewrite IH. simpl in Hdefined, Hnumber.
  destruct v as [ | | b | [ | z] | text | l]; try reflexivity.
  - now elim Hdefined.
  - now elim Hnumber.
Qed.



(** ** Further properties of the task service *)

Lemma filter_partition_length {A} (p : A -> bool) (l : list A) :
  (List.length (filter p l) + List.length (filter (fun x => negb (p x)) l)
   = List.length l)%nat.
Proof.
  induction l as [| x l IH]; simpl; [reflexivity | ].
  destruct (p x); simpl; lia.
Qed.

Lemma filter_length_le_impl {A} (p q : A -> bool) (l : list A) :
  (forall x, p x = true -> q x = true) ->
  (List.length (filter p l) <= List.length (filter q l))%nat.
Proof.
  intros H. induction l as [| x l IH]; simpl; [lia | ].
  destruct (p x) eqn:Hp.
  - rewrite (H x Hp). simpl. lia.
  - destruct (q x); simpl; lia.
Qed.

Lemma isOverdue_active (env : JS.Env) (task : Task.t) :
  Task.isOverdue env task = true -> negb (Task.completed task) = true.
Proof.
  unfold Task.isOverdue. destruct (Task.completed task); [ | reflexivity].
  now rewrite orb_true_r.
Qed.

Lemma priority_counts_le (tasks : list Task.t) :
  (TaskService.countPriority "low" tasks + TaskService.countPriority "medium" tasks
   + TaskService.countPriority "high" tasks + TaskService.countPriority "urgent" tasks
   <= List.length tasks)%nat.
Proof.
  unfold TaskService.countPriority.
  induction tasks as [| t tasks IH]; simpl; [lia | ].
  destruct (String.eqb_spec (Task.priority t) "low") as [E | _].
  - rewrite E. simpl. lia.
  - destruct (String.eqb_spec (Task.priority t) "medium") as [E | _].
    + rewrite E. simpl. lia.
    + destruct (String.eqb_spec (Task.priority t) "high") as [E | _].
      * rewrite E. simpl. lia.
      * destruct (String.eqb (Task.priority t) "urgent"); simpl; lia.
Qed.

(** X14.  In the statistics the total is the sum of the completed and the
    active count, the overdue tasks are among the active ones, and the four
    priority counts together do not exceed the total. *)
Theorem getStatistics_counts_add_up (env : JS.Env) (st : DB.Storage) :
  exists stats,
    TaskService.getStatistics env st = (JS.Ok stats, st)
    /\ (TaskService.total stats
        = TaskService.completed stats + TaskService.active stats)%nat
    /\ (TaskService.overdue stats <= TaskService.active stats)%nat
    /\ (TaskService.low (TaskService.byPriority stats)
        + TaskService.medium (TaskService.byPriority stats)
        + TaskService.high (TaskService.byPriority stats)
        + TaskService.urgent (TaskService.byPriority stats)
        <= TaskService.total stats)%nat.
Proof.
  eexists. split.
  - unfold TaskService.getStatistics.
    rewrite (bind_run _ _ st st _ (getAllTasks_run env st)). reflexivity.
  - cbn [TaskService.total TaskService.completed TaskService.active
         TaskService.overdue TaskService.byPriority TaskService.low
         TaskService.medium TaskService.high TaskService.urgent].
    split; [ | split].
    + symmetry. apply (filter_partition_length (fun t => Task.completed t)).
    + apply filter_length_le_impl. apply isOverdue_active.
    + apply priority_counts_le.
Qed.

Lemma Bool_eqb_false (b : bool) : Bool.eqb b false = negb b.
Proof. now destruct b. Qed.

(** X15.  The derived queries: Today, Upcoming, Overdue and the priority
    buckets hold only tasks that are not completed; no task is in both Today
    and Upcoming, and none in both Overdue and Upcoming. *)
Theorem derived_queries_are_disjoint_and_active (env : JS.Env) (st : DB.Storage) :
  exists today upcoming overdue,
    TaskService.getTodayTasks env st = (JS.Ok today, st)
    /\ TaskService.getUpcomingTasks env st = (JS.Ok upcoming, st)
    /\ TaskService.getOverdueTasks env st = (JS.Ok overdue, st)
    /\ (forall task, In task today \/ In task upcoming \/ In task overdue ->
                     Task.completed task = false)
    /\ (forall priority bucket,
           TaskService.getTasksByPriority env priority st = (JS.Ok bucket, st) ->
           forall task, In task bucket -> Task.completed task = false)
    /\ (forall task, ~ (In task today /\ In task upcoming))
    /\ (forall task, ~ (In task overdue /\ In task upcoming)).
Proof.
  exists (filter (accepts env (TaskService.mkFilters (JS.Val false) JS.Absent
                                 (JS.Val "today") JS.Absent JS.Absent))
                 (allTasks env st)),
         (filter (accepts env (TaskService.mkFilters (JS.Val false) JS.Absent
                                 (JS.Val "upcoming") JS.Absent JS.Absent))
                 (allTasks env st)),
         (filter (accepts env (TaskService.mkFilters (JS.Val false) JS.Absent
                                 (JS.Val "overdue") JS.Absent JS.Absent))
                 (allTasks env st)).
  split; [unfold TaskService.getTodayTasks; apply getFilteredTasks_run | ].
  split; [unfold TaskService.getUpcomingTasks; apply getFilteredTasks_run | ].
  split; [unfold TaskService.getOverdueTasks; apply getFilteredTasks_run | ].
  assert (Hactive : forall filters task,
             TaskService.f_completed filters = JS.Val false ->
             In task (filter (accepts env filters) (allTasks env st)) ->
             Task.completed task = false).
  { intros filters task Hf Hin. apply filter_In in Hin. destruct Hin as [_ Hacc].
    unfold accepts in Hacc. rewrite Hf in Hacc. cbn [completedOk] in Hacc.
    rewrite Bool_eqb_false in Hacc.
    destruct (Task.completed task); [discriminate | reflexivity]. }
  split.
  { intros task [H | [H | H]]; eapply Hactive; try exact H; reflexivity. }
  split.
  { intros priority bucket Hrun task Hin.
    unfold TaskService.getTasksByPriority in Hrun.
    rewrite getFilteredTasks_run in Hrun. injection Hrun as <-.
    eapply Hactive; [ | exact Hin]. reflexivity. }
  split.
  - intros task [Ht Hu]. apply filter_In in Ht. apply filter_In in Hu.
    destruct Ht as [_ Ht], Hu as [_ Hu]. unfold accepts in Ht, Hu.
    cbn [TaskService.f_dueFilter dueOk TaskService.f_completed completedOk
         TaskService.f_priority priorityOk TaskService.f_tags tagsOk
         TaskService.f_search searchOk] in Ht, Hu.
    change (String.eqb "today" "today") with true in Ht.
    change (String.eqb "upcoming" "today") with false in Hu.
    change (String.eqb "upcoming" "upcoming") with true in Hu.
    cbv iota in Ht, Hu.
    rewrite !andb_true_iff in Ht, Hu.
    destruct Ht as [[[[_ _] Hd] _] _].
    destruct Hu as [[[[_ _] Hwn] _] _].
    apply andb_prop in Hwn. destruct Hwn as [_ Hn].
    rewrite Hd in Hn. discriminate.
  - intros task [Ho Hu]. apply filter_In in Ho. apply filter_In in Hu.
    destruct Ho as [_ Ho], Hu as [_ Hu]. unfold accepts in Ho, Hu.
    cbn [TaskService.f_dueFilter dueOk TaskService.f_completed completedOk
         TaskService.f_priority priorityOk TaskService.f_tags tagsOk
         TaskService.f_search searchOk] in Ho, Hu.
    change (String.eqb "overdue" "today") with false in Ho.
    change (String.eqb "overdue" "upcoming") with false in Ho.
    change (String.eqb "overdue" "overdue") with true in Ho.
    change (String.eqb "upcoming" "today") with false in Hu.
    change (String.eqb "upcoming" "upcoming") with true in Hu.
    cbv iota in Ho, Hu.
    rewrite !andb_true_iff in Ho, Hu.
    destruct Ho as [[[[_ _] Hov] _] _].
    destruct Hu as [[[[_ _] Hwn] _] _].
    apply andb_prop in Hwn. destruct Hwn as [Hw _].
    destruct (proj1 (overdue_facts env task) Hov) as (_ & Hweek & _).
    rewrite Hweek in Hw. discriminate.
Qed.

Lemma toLowerCase_empty (s : string) : JS.toLowerCase s = "" <-> s = "".
Proof. destruct s; simpl; split; intros H; try reflexivity; discriminate. Qed.

Lemma toLowerCase_nonEmpty (s : string) :
  JS.nonEmpty (JS.toLowerCase s) = JS.nonEmpty s.
Proof. now destruct s. Qed.

(** X16.  [searchTasks] with an empty query returns every stored task,
    completed ones included; and the case of the query does not matter: two
    queries that are equal in lower case return the same tasks. *)
Theorem searchTasks_ignores_case (env : JS.Env) (st : DB.Storage) :
  TaskService.searchTasks env "" st = (JS.Ok (allTasks env st), st)
  /\ (forall query query',
         JS.toLowerCase query = JS.toLowerCase query' ->
         TaskService.searchTasks env query st = TaskService.searchTasks env query' st).
Proof.
  split.
  - unfold TaskService.searchTasks, TaskService.getFilteredTasks.
    now rewrite (bind_run _ _ st st _ (getAllTasks_run env st)).
  - intros query query' Hlow.
    unfold TaskService.searchTasks. rewrite !getFilteredTasks_run.
    do 2 f_equal. apply filter_ext. intros task. unfold accepts.
    cbn [TaskService.f_search searchOk].
    rewrite <- (toLowerCase_nonEmpty query), <- (toLowerCase_nonEmpty query'), Hlow.
    unfold TaskService.matchesSearch. now rewrite Hlow.
Qed.

Lemma searchTasks_ignores_case_witness :
  TaskService.searchTasks env0 "REPORT" stampedStore
  = TaskService.searchTasks env0 "report" stampedStore.
Proof.
  apply (proj2 (searchTasks_ignores_case env0 stampedStore) "REPORT" "report").
  reflexivity.
Defined.

Lemma deleteTask_store (taskId : string) (st : DB.Storage) :
  DB.quota st = true ->
  exists b st',
    TaskService.deleteTask taskId st = (JS.Ok b, st')
    /\ stored st' = filter (fun task => negb (DB.hasId taskId task)) (stored st)
    /\ DB.quota st' = true
    /\ ((if b then 1 else 0) + List.length (stored st') <= List.length (stored st))%nat.
Proof.
  intros Hq.
  destruct (existsb (DB.hasId taskId) (stored st)) eqn:Hex.
  - assert (Hrun : DB.deleteTask taskId st
                   = (JS.Ok true,
                      written (filter (fun task => negb (DB.hasId taskId task))
                                      (stored st)) st)).
    { unfold DB.deleteTask.
      rewrite (bind_run _ _ st st (stored st) (getTasks_run st)).
      pose proof (filter_length_lt _ _ Hex) as Hlt.
      destruct (Nat.eqb_spec
                  (List.length (filter (fun task => negb (DB.hasId taskId task))
                                       (stored st)))
                  (List.length (stored st))) as [E | _]; [lia | ].
      unfold DB.bind. now rewrite saveTasks_run, Hq. }
    exists true. eexists. split; [exact Hrun | ].
    rewrite stored_written. split; [reflexivity | ]. split; [exact Hq | ].
    pose proof (filter_length_lt _ _ Hex). lia.
  - assert (Hall : forall task, In task (stored st) -> DB.hasId taskId task = false).
    { intros task Hin. destruct (DB.hasId taskId task) eqn:Hid; [ | reflexivity].
      assert (existsb (DB.hasId taskId) (stored st) = true)
        by (apply existsb_exists; now exists task).
      congruence. }
    exists false, st. split.
    + apply deleteTask_unknown_store. intros task Hin.
      apply hasId_false_iff. now apply Hall.
    + split; [ | split; [exact Hq | simpl; lia]].
      symmetry. apply filter_all. intros task Hin. now rewrite Hall.
Qed.

(** X17.  On a store that accepts the writes, [bulkDelete] leaves exactly
    the records that carry none of the listed identifiers, in their order;
    the number it returns is at most the number of identifiers and at most
    the number of records removed, and an identifier no record carries does
    not stop the rest. *)
Theorem bulkDelete_removes_listed_ids (taskIds : list string) (st : DB.Storage) :
  DB.quota st = true ->
  exists count st',
    TaskService.bulkDelete taskIds st = (JS.Ok count, st')
    /\ stored st'
       = filter (fun task => negb (existsb (fun id => DB.hasId id task) taskIds))
                (stored st)
    /\ (count <= List.length taskIds)%nat
    /\ (count + List.length (stored st') <= List.length (stored st))%nat.
Proof.
  revert st. induction taskIds as [| id rest IH]; intros st Hq.
  - exists O, st. split; [reflexivity | ]. simpl.
    split; [now rewrite filter_true | ]. split; lia.
  - destruct (deleteTask_store id st Hq) as (b & st1 & Hdel & Hst1 & Hq1 & Hlen1).
    destruct (IH st1 Hq1) as (count & st' & Hrest & Hst' & Hc & Hlen).
    exists (if b then S count else count), st'. split.
    { cbn [TaskService.bulkDelete].
      rewrite (bind_run _ _ _ _ _ Hdel), (bind_run _ _ _ _ _ Hrest). reflexivity. }
    split.
    { rewrite Hst', Hst1, filter_filter. apply filter_ext. intros task. simpl.
      now rewrite negb_orb. }
    split; destruct b; simpl in *; lia.
Qed.

Lemma bulkDelete_removes_listed_ids_witness :
  exists count st',
    TaskService.bulkDelete ["task_9"; "task_1"]
                           (storageOf [record "task_1" "Ship report";
                                       record "task_2" "Buy milk"])
    = (JS.Ok count, st')
    /\ stored st' = [record "task_2" "Buy milk"].
Proof.
  destruct (bulkDelete_removes_listed_ids ["task_9"; "task_1"]
              (storageOf [record "task_1" "Ship report"; record "task_2" "Buy milk"])
              eq_refl) as (count & st' & Hrun & Hst & _).
  exists count, st'. split; [exact Hrun | exact Hst].
Defined.

Lemma existsb_hasId_ids (taskId : string) (l l' : list TaskData) :
  map d_id l = map d_id l' ->
  existsb (DB.hasId taskId) l = existsb (DB.hasId taskId) l'.
Proof.
  revert l'. induction l as [| x l IH]; intros [| y l']; simpl; intros H;
    try discriminate; [reflexivity | ].
  injection H as Hxy Hl. unfold DB.hasId at 1 3. rewrite Hxy.
  f_equal. now apply IH.
Qed.

Lemma map_setAt_same {A B} (f : A -> B) (l : list A) (index : nat) (x y : A) :
  nth_error l index = Some y -> f x = f y ->
  map f (DB.setAt index x l) = map f l.
Proof.
  revert index. induction l as [| z l IH]; intros [| i]; simpl; intros Hn Hf;
    try discriminate.
  - injection Hn as ->. now rewrite Hf.
  - f_equal. now apply IH.
Qed.

Lemma updateTask_ids (env : JS.Env) (taskId : string) (updates : TaskData)
      (st : DB.Storage) :
  d_id updates = JS.Absent ->
  exists r st',
    TaskService.updateTask env taskId updates st = (JS.Ok r, st')
    /\ map d_id (stored st') = map d_id (stored st)
    /\ (match r with Some _ => true | None => false end)
       = existsb (DB.hasId taskId) (stored st).
Proof.
  intros Hid. unfold TaskService.updateTask.
  destruct (existsb (DB.hasId taskId) (stored st)) eqn:Hex.
  - destruct (findIndex_Some _ _ Hex) as (index & old & Hi & Hold & _ & _).
    pose proof (updateTask_run env st taskId updates old index Hi Hold) as Hrun.
    do 2 eexists. split; [now rewrite (bind_run _ _ _ _ _ Hrun) | ].
    split; [ | reflexivity].
    unfold saved. destruct (DB.quota st); [ | reflexivity].
    rewrite stored_written.
    apply map_setAt_same with (y := old); [exact Hold | ].
    now apply applyUpdates_id.
  - assert (Hi : DB.findIndex (DB.hasId taskId) (stored st) = None).
    { apply findIndex_absent. intros task Hin.
      destruct (DB.hasId taskId task) eqn:H; [ | reflexivity].
      assert (existsb (DB.hasId taskId) (stored st) = true)
        by (apply existsb_exists; now exists task).
      congruence. }
    pose proof (updateTask_unknown env st taskId updates Hi) as Hrun.
    exists None, st. split; [now rewrite (bind_run _ _ _ _ _ Hrun) | ].
    split; reflexivity.
Qed.

(** X18.  [bulkUpdate] with updates that do not give [id] returns the number
    of listed identifiers that a stored record carries, each counted as often
    as it is listed; an identifier no record carries is skipped and does not
    stop the rest, and the identifiers of the stored records are as before. *)
Theorem bulkUpdate_counts_known_ids (env : JS.Env) (taskIds : list string)
        (updates : TaskData) (st : DB.Storage) :
  d_id updates = JS.Absent ->
  exists st',
    TaskService.bulkUpdate env taskIds updates st
    = (JS.Ok (List.length
                (filter (fun id => existsb (DB.hasId id) (stored st)) taskIds)), st')
    /\ map d_id (stored st') = map d_id (stored st).
Proof.
  intros Hid. revert st. induction taskIds as [| id rest IH]; intros st.
  - exists st. split; reflexivity.
  - destruct (updateTask_ids env id updates st Hid) as (r & st1 & Hup & Hids & Hr).
    destruct (IH st1) as (st' & Hrest & Hids').
    exists st'. split; [ | now rewrite Hids', Hids].
    cbn [TaskService.bulkUpdate].
    rewrite (bind_run _ _ _ _ _ Hup), (bind_run _ _ _ _ _ Hrest).
    unfold DB.ret. do 2 f_equal. simpl filter. rewrite <- Hr.
    assert (Hsame : filter (fun id0 => existsb (DB.hasId id0) (stored st1)) rest
                    = filter (fun id0 => existsb (DB.hasId id0) (stored st)) rest).
    { apply filter_ext. intros id0. now apply existsb_hasId_ids. }
    rewrite Hsame. now destruct r.
Qed.

Lemma bulkUpdate_counts_known_ids_witness :
  exists st',
    TaskService.bulkUpdate env0 ["task_9"; "task_1"; "task_1"] (titleOnly "Later")
                           (storageOf [record "task_1" "Ship report"])
    = (JS.Ok 2%nat, st').
Proof.
  destruct (bulkUpdate_counts_known_ids env0 ["task_9"; "task_1"; "task_1"]
              (titleOnly "Later") (storageOf [record "task_1" "Ship report"]) eq_refl)
    as (st' & Hrun & _).
  exists st'. exact Hrun.
Defined.

(** *** Order of the sorted array *)

Section SortOrder.
Context {A : Type} (comparefn : A -> A -> JS.res Z).
Context (P : A -> Prop) (R : A -> A -> Prop).
Hypothesis comparefn_R :
  forall x y, P x -> P y ->
    exists c, comparefn x y = JS.Ok c /\ (c <= 0 -> R x y) /\ (0 < c -> R y x).

Lemma sort_insert_ordered (x : A) (l : list A) :
  P x -> Forall P l -> Sorted R l ->
  exists r, JS.sort_insert comparefn x l = JS.Ok r
            /\ Sorted R r
            /\ (forall y, R y x -> HdRel R y l -> HdRel R y r).
Proof.
  intros Hx Hl Hs. induction l as [| z l IH]; simpl.
  - exists [x]. split; [reflexivity | ]. split.
    + constructor; constructor.
    + intros y Hy _. now constructor.
  - inversion Hl as [| ? ? Hz Hl']; subst. inversion Hs as [| ? ? Hs' Hhd]; subst.
    destruct (comparefn_R x z Hx Hz) as (c & -> & Hle & Hgt). simpl.
    destruct (Z.leb_spec c 0) as [Hc | Hc].
    + exists (x :: z :: l). split; [reflexivity | ]. split.
      * constructor; [exact Hs | constructor; now apply Hle].
      * intros y Hy _. now constructor.
    + destruct (IH Hl' Hs') as (r & -> & Hr & Hhead). simpl.
      exists (z :: r). split; [reflexivity | ]. split.
      * constructor; [exact Hr | ]. apply Hhead; [now apply Hgt | exact Hhd].
      * intros y _ Hyz. inversion Hyz; subst. now constructor.
Qed.

Lemma Array_sort_ordered (l : list A) :
  Forall P l ->
  exists r, JS.Array_sort comparefn l = JS.Ok r /\ Sorted R r /\ Permutation l r.
Proof.
  induction 1 as [| x l Hx Hl (s & Hs & Hsorted & Hperm)]; simpl.
  - exists []. split; [reflexivity | ]. split; constructor.
  - rewrite Hs. simpl.
    assert (Hps : Forall P s).
    { apply Forall_forall. intros y Hy. rewrite Forall_forall in Hl. apply Hl.
      apply Permutation_in with s; [now apply Permutation_sym | exact Hy]. }
    destruct (sort_insert_ordered x s Hx Hps Hsorted) as (r & Hr & Hsr & _).
    exists r. split; [exact Hr | ]. split; [exact Hsr | ].
    apply perm_trans with (x :: s); [now apply perm_skip | ].
    now apply sort_insert_perm with (comparefn := comparefn).
Qed.

End SortOrder.

Lemma sortKey_date (sortBy : string) (task : Task.t) (z : Z) :
  TaskService.isDateKey sortBy = true ->
  keyTime sortBy task = Some z ->
  sortKey sortBy task = JS.VNumber (JS.Num z).
Proof.
  unfold keyTime, sortKey. intros ->. unfold TaskService.dateKey.
  destruct (if JS.truthy _ then _ else _) as [ | z']; [discriminate | ].
  now intros [= ->].
Qed.

Lemma compareTasks_dates (sortBy order : string) (a b : Task.t) :
  TaskService.isDateKey sortBy = true ->
  keyTime sortBy a <> None -> keyTime sortBy b <> None ->
  exists c, TaskService.compareTasks sortBy order a b = JS.Ok c
            /\ (c <= 0 -> inOrder order (keyTime sortBy a) (keyTime sortBy b))
            /\ (0 < c -> inOrder order (keyTime sortBy b) (keyTime sortBy a)).
Proof.
  intros Hdate Ha Hb.
  destruct (keyTime sortBy a) as [x | ] eqn:Hx; [ | now elim Ha].
  destruct (keyTime sortBy b) as [y | ] eqn:Hy; [ | now elim Hb].
  rewrite compareTasks_keys.
  rewrite (sortKey_date sortBy a x Hdate Hx), (sortKey_date sortBy b y Hdate Hy).
  cbn [TaskService.lowerBoth JS.res_bind]. unfold JS.js_gt, JS.js_lt.
  cbn [JS.ToPrimitive JS.ToNumber JS.num_lt]. unfold inOrder.
  destruct (Z.ltb_spec x y) as [Hxy | Hxy].
  - destruct (String.eqb order "asc"); eexists; (split; [reflexivity | ]);
      split; intros; lia.
  - destruct (Z.ltb_spec y x) as [Hyx | Hyx].
    + destruct (String.eqb order "asc"); eexists; (split; [reflexivity | ]);
        split; intros; lia.
    + destruct (String.eqb order "asc"); eexists; (split; [reflexivity | ]);
        split; intros; lia.
Qed.

Lemma inOrder_trans (order : string) (x y z : option Z) :
  inOrder order x y -> inOrder order y z -> inOrder order x z.
Proof.
  unfold inOrder. destruct x, y, z; try tauto.
  destruct (String.eqb order "asc"); lia.
Qed.

(** X19.  Sorting by a date key ([dueDate] or a key whose name contains
    [At]) a list in which every date parses or is missing returns a
    rearrangement of the list in which every task comes before all tasks
    with a greater time when the order is [asc], and before all tasks with a
    smaller time for any other order.  A missing date counts as time 0. *)
Theorem sortTasks_by_date_is_ordered (tasks : list Task.t) (sortBy order : string) :
  TaskService.isDateKey sortBy = true ->
  Forall (fun task => keyTime sortBy task <> None) tasks ->
  (exists sorted,
      TaskService.sortTasks tasks sortBy order = JS.Ok sorted
      /\ Permutation tasks sorted
      /\ StronglySorted
           (fun a b => inOrder order (keyTime sortBy a) (keyTime sortBy b)) sorted)
  /\ (forall task, Task.getProp task sortBy = JS.VNull \/
                   Task.getProp task sortBy = JS.VUndefined ->
                   keyTime sortBy task = Some 0).
Proof.
  intros Hdate Hall. split.
  - destruct (Array_sort_ordered (TaskService.compareTasks sortBy order)
                (fun task => keyTime sortBy task <> None)
                (fun a b => inOrder order (keyTime sortBy a) (keyTime sortBy b))
                (fun a b Ha Hb => compareTasks_dates sortBy order a b Hdate Ha Hb)
                tasks Hall) as (sorted & Hrun & Hsorted & Hperm).
    exists sorted. split; [exact Hrun | ]. split; [exact Hperm | ].
    apply Sorted_StronglySorted; [ | exact Hsorted].
    intros a b c. apply inOrder_trans.
  - intros task Hnull. unfold keyTime, sortKey. rewrite Hdate.
    unfold TaskService.dateKey. now destruct Hnull as [-> | ->].
Qed.

Lemma sortTasks_by_date_is_ordered_witness :
  exists sorted,
    TaskService.sortTasks [taskAlpha; taskGamma; taskBeta] "createdAt" "desc"
    = JS.Ok sorted
    /\ StronglySorted
         (fun a b => inOrder "desc" (keyTime "createdAt" a) (keyTime "createdAt" b))
         sorted.
Proof.
  destruct (proj1 (sortTasks_by_date_is_ordered [taskAlpha; taskGamma; taskBeta]
                     "createdAt" "desc" eq_refl
                     ltac:(repeat constructor; discriminate)))
    as (sorted & Hrun & _ & Hsorted).
  exists sorted. split; assumption.
Defined.



(** *** The tags in use *)

Lemma ascii_compare_refl (a : ascii) : Ascii.compare a a = Eq.
Proof. unfold Ascii.compare. apply N.compare_refl. Qed.

Lemma string_compare_refl (s : string) : String.compare s s = Eq.
Proof.
  induction s as [| a s IH]; simpl; [reflexivity | ].
  now rewrite ascii_compare_refl.
Qed.

Lemma string_lt_trans (x y z : string) :
  String.compare x y = Lt -> String.compare y z = Lt -> String.compare x z = Lt.
Proof.
  revert y z. induction x as [| a x IH]; intros [| b y] [| c z]; simpl;
    try discriminate; try reflexivity.
  destruct (Ascii.compare a b) eqn:Hab; destruct (Ascii.compare b c) eqn:Hbc;
    try discriminate.
  - apply Ascii.compare_eq_iff in Hab, Hbc. subst. rewrite ascii_compare_refl.
    apply IH.
  - apply Ascii.compare_eq_iff in Hab. subst. now rewrite Hbc.
  - apply Ascii.compare_eq_iff in Hbc. subst. now rewrite Hab.
  - intros _ _. unfold Ascii.compare in *.
    rewrite N.compare_lt_iff in Hab, Hbc.
    assert (H : (N_of_ascii a < N_of_ascii c)%N) by now apply N.lt_trans with (N_of_ascii b).
    apply N.compare_lt_iff in H. now rewrite H.
Qed.

Lemma string_notGt_cases (x y : string) :
  String.ltb y x = false -> x = y \/ String.ltb x y = true.
Proof.
  unfold String.ltb. rewrite (String.compare_antisym y x).
  destruct (String.compare x y) eqn:H; simpl; intros Hle.
  - left. now apply String.compare_eq_iff.
  - now right.
  - discriminate.
Qed.

Lemma string_ltb_notGt (x y : string) :
  String.ltb x y = true -> String.ltb y x = false.
Proof.
  unfold String.ltb. rewrite (String.compare_antisym y x).
  now destruct (String.compare x y).
Qed.

Lemma string_ltb_trans (x y z : string) :
  String.ltb x y = true -> String.ltb y z = true -> String.ltb x z = true.
Proof.
  unfold String.ltb. intros Hxy Hyz.
  destruct (String.compare x y) eqn:H1; try discriminate.
  destruct (String.compare y z) eqn:H2; try discriminate.
  now rewrite (string_lt_trans x y z H1 H2).
Qed.

Lemma string_notGt_trans (x y z : string) :
  String.ltb y x = false -> String.ltb z y = false -> String.ltb z x = false.
Proof.
  intros Hxy Hyz.
  destruct (string_notGt_cases x y Hxy) as [-> | Hlt1]; [exact Hyz | ].
  destruct (string_notGt_cases y z Hyz) as [<- | Hlt2]; [exact Hxy | ].
  apply string_ltb_notGt. now apply string_ltb_trans with y.
Qed.

Lemma defaultCompare_order (x y : string) :
  exists c, JS.defaultCompare x y = JS.Ok c
            /\ (c <= 0 -> String.ltb y x = false)
            /\ (0 < c -> String.ltb x y = false).
Proof.
  unfold JS.defaultCompare.
  destruct (String.ltb x y) eqn:Hxy.
  - eexists. split; [reflexivity | ]. split; [ | lia].
    intros _. now apply string_ltb_notGt.
  - destruct (String.ltb y x) eqn:Hyx; eexists; (split; [reflexivity | ]);
      split; intros; (lia || reflexivity).
Qed.

Lemma Set_addAll_In (set l : list string) (x : string) :
  In x (JS.Set_addAll set l) <-> In x set \/ In x l.
Proof.
  revert set. induction l as [| y l IH]; intros set; simpl.
  - tauto.
  - rewrite IH. destruct (JS.arr_includes set y) eqn:Hy.
    + apply arr_includes_In in Hy. split.
      * tauto.
      * intros [H | [<- | H]]; tauto.
    + rewrite in_app_iff. simpl. tauto.
Qed.

Lemma Set_addAll_NoDup (set l : list string) :
  NoDup set -> NoDup (JS.Set_addAll set l).
Proof.
  revert set. induction l as [| y l IH]; intros set Hset; simpl; [exact Hset | ].
  apply IH. destruct (JS.arr_includes set y) eqn:Hy; [exact Hset | ].
  apply NoDup_app; [exact Hset | repeat constructor; simpl; tauto | ].
  intros z Hz [<- | []]. apply arr_includes_In in Hz. congruence.
Qed.

Lemma strict_of_distinct (l : list string) :
  NoDup l ->
  StronglySorted (fun a b => String.ltb b a = false) l ->
  StronglySorted (fun a b => String.ltb a b = true) l.
Proof.
  induction l as [| a l IH]; intros Hnd Hs; [constructor | ].
  inversion Hnd as [| ? ? Hnotin Hnd']; subst.
  inversion Hs as [| ? ? Hs' Hall]; subst.
  constructor; [now apply IH | ].
  rewrite Forall_forall in *. intros b Hb.
  destruct (string_notGt_cases a b (Hall b Hb)) as [-> | Hlt]; [ | exact Hlt].
  now elim Hnotin.
Qed.

(** X20.  [getAllTags] returns, without changing the store, the tags carried
    by the stored tasks: every such tag and nothing else, in strictly
    ascending order of their characters, so that no tag is listed twice. *)
Theorem getAllTags_sorted_without_repeats (env : JS.Env) (st : DB.Storage) :
  exists tags,
    TaskService.getAllTags env st = (JS.Ok tags, st)
    /\ StronglySorted (fun a b => String.ltb a b = true) tags
    /\ (forall tag, In tag tags <->
                    exists task, In task (allTasks env st) /\ In tag (Task.tags task)).
Proof.
  unfold TaskService.getAllTags.
  rewrite (bind_run _ _ st st _ (getAllTasks_run env st)).
  set (allTags := flat_map Task.tags (allTasks env st)).
  destruct (Array_sort_ordered JS.defaultCompare (fun _ => True)
              (fun a b => String.ltb b a = false)
              (fun x y _ _ => defaultCompare_order x y)
              (JS.Set_of allTags))
    as (tags & Hrun & Hsorted & Hperm).
  { apply Forall_forall. intros; exact I. }
  exists tags. unfold DB.lift. rewrite Hrun. split; [reflexivity | ]. split.
  - apply strict_of_distinct.
    + apply Permutation_NoDup with (JS.Set_of allTags); [exact Hperm | ].
      apply Set_addAll_NoDup. constructor.
    + apply Sorted_StronglySorted; [ | exact Hsorted].
      intros a b c. apply string_notGt_trans.
  - intros tag. split.
    + intros Hin. apply Permutation_sym in Hperm.
      apply (Permutation_in _ Hperm) in Hin.
      apply Set_addAll_In in Hin. destruct Hin as [[] | Hin].
      apply in_flat_map in Hin. exact Hin.
    + intros Hex. apply (Permutation_in _ Hperm).
      apply Set_addAll_In. right. apply in_flat_map. exact Hex.
Qed.

(** *** Stability *)

Lemma compareTasks_times (sortBy order : string) (a b : Task.t) (x y : Z) :
  TaskService.isDateKey sortBy = true ->
  keyTime sortBy a = Some x -> keyTime sortBy b = Some y ->
  TaskService.compareTasks sortBy order a b = JS.Ok (timeOrder order x y).
Proof.
  intros Hdate Hx Hy. rewrite compareTasks_keys.
  rewrite (sortKey_date sortBy a x Hdate Hx), (sortKey_date sortBy b y Hdate Hy).
  cbn [TaskService.lowerBoth JS.res_bind]. unfold JS.js_gt, JS.js_lt.
  cbn [JS.ToPrimitive JS.ToNumber JS.num_lt]. unfold timeOrder.
  destruct (x <? y); [reflexivity | ]. now destruct (y <? x).
Qed.

Lemma timeOrder_sign (order : string) (x y : Z) :
  (timeOrder order x y < 0 <-> 0 < timeOrder order y x)
  /\ (0 < timeOrder order x y <-> timeOrder order y x < 0).
Proof.
  unfold timeOrder.
  destruct (Z.ltb_spec x y), (Z.ltb_spec y x), (String.eqb order "asc"); lia.
Qed.

Lemma timeOrder_trans (order : string) (x y z : Z) :
  timeOrder order x y <= 0 -> timeOrder order y z <= 0 ->
  timeOrder order x z <= 0
  /\ (timeOrder order x y < 0 \/ timeOrder order y z < 0 ->
      timeOrder order x z < 0).
Proof.
  unfold timeOrder.
  destruct (Z.ltb_spec x y), (Z.ltb_spec y x), (Z.ltb_spec y z), (Z.ltb_spec z y),
    (Z.ltb_spec x z), (Z.ltb_spec z x), (String.eqb order "asc"); lia.
Qed.

Lemma dates_consistent (sortBy order : string) (tasks : list Task.t) :
  TaskService.isDateKey sortBy = true ->
  Forall (fun task => keyTime sortBy task <> None) tasks ->
  consistentOn sortBy order tasks.
Proof.
  intros Hdate Hall. rewrite Forall_forall in Hall.
  assert (Htime : forall task, In task tasks -> exists x, keyTime sortBy task = Some x).
  { intros task Hin. specialize (Hall task Hin).
    destruct (keyTime sortBy task) as [x | ]; [now exists x | now elim Hall]. }
  split; [ | split].
  - intros a b Ha Hb.
    destruct (Htime a Ha) as [x Hx], (Htime b Hb) as [y Hy].
    rewrite (compareTasks_times sortBy order a b x y Hdate Hx Hy). now eexists.
  - intros a b c c' Ha Hb.
    destruct (Htime a Ha) as [x Hx], (Htime b Hb) as [y Hy].
    rewrite (compareTasks_times sortBy order a b x y Hdate Hx Hy).
    rewrite (compareTasks_times sortBy order b a y x Hdate Hy Hx).
    intros [= <-] [= <-]. apply timeOrder_sign.
  - intros a b c x' y' z' Ha Hb Hc.
    destruct (Htime a Ha) as [x Hx], (Htime b Hb) as [y Hy], (Htime c Hc) as [z Hz].
    rewrite (compareTasks_times sortBy order a b x y Hdate Hx Hy).
    rewrite (compareTasks_times sortBy order b c y z Hdate Hy Hz).
    rewrite (compareTasks_times sortBy order a c x z Hdate Hx Hz).
    intros [= <-] [= <-] [= <-]. apply timeOrder_trans.
Qed.

Lemma textOrder_sign (order : string) (x y : string) :
  (textOrder order x y < 0 <-> 0 < textOrder order y x)
  /\ (0 < textOrder order x y <-> textOrder order y x < 0).
Proof.
  unfold textOrder.
  destruct (String.ltb x y) eqn:Hxy, (String.ltb y x) eqn:Hyx.
  - rewrite (string_ltb_notGt _ _ Hxy) in Hyx. discriminate.
  - destruct (String.eqb order "asc"); lia.
  - destruct (String.eqb order "asc"); lia.
  - lia.
Qed.

Lemma textOrder_trans (order : string) (x y z : string) :
  textOrder order x y <= 0 -> textOrder order y z <= 0 ->
  textOrder order x z <= 0
  /\ (textOrder order x y < 0 \/ textOrder order y z < 0 ->
      textOrder order x z < 0).
Proof.
  pose proof (string_ltb_notGt x y) as Axy. pose proof (string_ltb_notGt y x) as Ayx.
  pose proof (string_ltb_notGt y z) as Ayz. pose proof (string_ltb_notGt z y) as Azy.
  pose proof (string_ltb_notGt x z) as Axz. pose proof (string_ltb_notGt z x) as Azx.
  pose proof (string_notGt_trans x y z) as Nup.
  pose proof (string_notGt_trans z y x) as Ndown.
  pose proof (string_notGt_trans y z x) as Nyzx.
  pose proof (string_notGt_trans z x y) as Nzxy.
  pose proof (string_notGt_trans y x z) as Nyxz.
  pose proof (string_notGt_trans x z y) as Nxzy.
  unfold textOrder.
  destruct (String.ltb x y), (String.ltb y x), (String.ltb y z), (String.ltb z y),
    (String.ltb x z), (String.ltb z x), (String.eqb order "asc");
    intros; try lia; exfalso; intuition discriminate.
Qed.

Lemma timeOrder_consistent (sortBy order : string) (tasks : list Task.t)
      (rank : Task.t -> Z) :
  (forall a b, In a tasks -> In b tasks ->
               TaskService.compareTasks sortBy order a b
               = JS.Ok (timeOrder order (rank a) (rank b))) ->
  consistentOn sortBy order tasks.
Proof.
  intros Hrank. split; [ | split].
  - intros a b Ha Hb. rewrite (Hrank a b Ha Hb). now eexists.
  - intros a b c c' Ha Hb. rewrite (Hrank a b Ha Hb), (Hrank b a Hb Ha).
    intros [= <-] [= <-]. apply timeOrder_sign.
  - intros a b c x y z Ha Hb Hc.
    rewrite (Hrank a b Ha Hb), (Hrank b c Hb Hc), (Hrank a c Ha Hc).
    intros [= <-] [= <-] [= <-]. apply timeOrder_trans.
Qed.

Lemma textOrder_consistent (sortBy order : string) (tasks : list Task.t)
      (rank : Task.t -> string) :
  (forall a b, In a tasks -> In b tasks ->
               TaskService.compareTasks sortBy order a b
               = JS.Ok (textOrder order (rank a) (rank b))) ->
  consistentOn sortBy order tasks.
Proof.
  intros Hrank. split; [ | split].
  - intros a b Ha Hb. rewrite (Hrank a b Ha Hb). now eexists.
  - intros a b c c' Ha Hb. rewrite (Hrank a b Ha Hb), (Hrank b a Hb Ha).
    intros [= <-] [= <-]. apply textOrder_sign.
  - intros a b c x y z Ha Hb Hc.
    rewrite (Hrank a b Ha Hb), (Hrank b c Hb Hc), (Hrank a c Ha Hc).
    intros [= <-] [= <-] [= <-]. apply textOrder_trans.
Qed.

(** The comparison result on two keys that are strings, arrays, or numbers
    other than [NaN]. *)
Lemma compare_strings (order : string) (x y : string) :
  JS.res_bind (TaskService.lowerBoth (JS.VString x) (JS.VString y))
    (fun '(aVal, bVal) =>
       if JS.js_lt aVal bVal
       then JS.Ok (if String.eqb order "asc" then -1 else 1)
       else if JS.js_gt aVal bVal
            then JS.Ok (if String.eqb order "asc" then 1 else -1)
            else JS.Ok 0)
  = JS.Ok (textOrder order (JS.toLowerCase x) (JS.toLowerCase y)).
Proof.
  cbn [TaskService.lowerBoth JS.res_bind]. unfold JS.js_gt, JS.js_lt, textOrder.
  cbn [JS.ToPrimitive].
  destruct (String.ltb _ _); [reflexivity | ]. now destruct (String.ltb _ _).
Qed.

Lemma compare_arrays (order : string) (x y : list string) :
  JS.res_bind (TaskService.lowerBoth (JS.VArray x) (JS.VArray y))
    (fun '(aVal, bVal) =>
       if JS.js_lt aVal bVal
       then JS.Ok (if String.eqb order "asc" then -1 else 1)
       else if JS.js_gt aVal bVal
            then JS.Ok (if String.eqb order "asc" then 1 else -1)
            else JS.Ok 0)
  = JS.Ok (textOrder order (String.concat "," x) (String.concat "," y)).
Proof.
  cbn [TaskService.lowerBoth JS.res_bind]. unfold JS.js_gt, JS.js_lt, textOrder.
  cbn [JS.ToPrimitive].
  destruct (String.ltb _ _); [reflexivity | ]. now destruct (String.ltb _ _).
Qed.

Lemma compare_numbers (order : string) (u v : JS.value) (x y : Z) :
  (forall s, u <> JS.VString s) ->
  JS.ToPrimitive u = u -> JS.ToPrimitive v = v ->
  (forall s, v <> JS.VString s) ->
  JS.ToNumber u = JS.Num x -> JS.ToNumber v = JS.Num y ->
  JS.res_bind (TaskService.lowerBoth u v)
    (fun '(aVal, bVal) =>
       if JS.js_lt aVal bVal
       then JS.Ok (if String.eqb order "asc" then -1 else 1)
       else if JS.js_gt aVal bVal
            then JS.Ok (if String.eqb order "asc" then 1 else -1)
            else JS.Ok 0)
  = JS.Ok (timeOrder order x y).
Proof.
  intros Hu Hpu Hpv Hv Hx Hy.
  assert (Hlower : TaskService.lowerBoth u v = JS.Ok (u, v)).
  { destruct u; try reflexivity. now elim (Hu s). }
  rewrite Hlower. cbn [JS.res_bind].
  assert (Hlt : forall a b p q,
             JS.ToPrimitive a = a -> JS.ToPrimitive b = b ->
             (forall s, a <> JS.VString s) -> (forall s, b <> JS.VString s) ->
             JS.ToNumber a = JS.Num p -> JS.ToNumber b = JS.Num q ->
             JS.js_lt a b = (p <? q)).
  { intros a b p q Ha Hb Hna Hnb Hp Hq. unfold JS.js_lt. rewrite Ha, Hb.
    transitivity (JS.num_lt (JS.Num p) (JS.Num q)); [ | reflexivity].
    rewrite <- Hp, <- Hq.
    destruct a; try (now elim (Hna s)); destruct b; try (now elim (Hnb s));
      reflexivity. }
  unfold JS.js_gt.
  rewrite (Hlt u v x y Hpu Hpv Hu Hv Hx Hy), (Hlt v u y x Hpv Hpu Hv Hu Hy Hx).
  unfold timeOrder. destruct (x <? y); [reflexivity | ]. now destruct (y <? x).
Qed.

Lemma plain_key_consistent (sortBy order : string) (tasks : list Task.t) :
  TaskService.isDateKey sortBy = false ->
  (sortBy = "id" -> Forall (fun task => Task.id task <> None) tasks) ->
  consistentOn sortBy order tasks.
Proof.
  intros Hdate Hid.
  assert (Hkeys : forall a b,
             TaskService.compareTasks sortBy order a b
             = JS.res_bind
                 (TaskService.lowerBoth (Task.getProp a sortBy) (Task.getProp b sortBy))
                 (fun '(aVal, bVal) =>
                    if JS.js_lt aVal bVal
                    then JS.Ok (if String.eqb order "asc" then -1 else 1)
                    else if JS.js_gt aVal bVal
                         then JS.Ok (if String.eqb order "asc" then 1 else -1)
                         else JS.Ok 0)).
  { intros a b. rewrite compareTasks_keys. unfold sortKey. now rewrite Hdate. }
  assert (Hnum : forall (rank : Task.t -> Z) (key : Task.t -> JS.value),
             (forall task, Task.getProp task sortBy = key task) ->
             (forall task, (forall s, key task <> JS.VString s)
                           /\ JS.ToPrimitive (key task) = key task
                           /\ JS.ToNumber (key task) = JS.Num (rank task)) ->
             consistentOn sortBy order tasks).
  { intros rank key Hkey Hrank. apply timeOrder_consistent with rank.
    intros a b _ _. rewrite Hkeys, !Hkey.
    destruct (Hrank a) as (Ha & Hpa & Hna), (Hrank b) as (Hb & Hpb & Hnb).
    now apply compare_numbers. }
  unfold Task.getProp in Hkeys, Hnum.
  destruct (String.eqb_spec sortBy "id") as [-> | _].
  { specialize (Hid eq_refl). rewrite Forall_forall in Hid.
    apply textOrder_consistent
      with (fun task => match Task.id task with
                        | Some s => JS.toLowerCase s
                        | None => EmptyString
                        end).
    intros a b Ha Hb. rewrite Hkeys.
    pose proof (Hid a Ha) as Hida. pose proof (Hid b Hb) as Hidb.
    destruct (Task.id a) as [x | ]; [ | now elim Hida].
    destruct (Task.id b) as [y | ]; [ | now elim Hidb].
    apply compare_strings. }
  destruct (String.eqb_spec sortBy "title") as [-> | _].
  { apply textOrder_consistent with (fun task => JS.toLowerCase (Task.title task)).
    intros a b _ _. rewrite Hkeys. apply compare_strings. }
  destruct (String.eqb_spec sortBy "description") as [-> | _].
  { apply textOrder_consistent
      with (fun task => JS.toLowerCase (Task.description task)).
    intros a b _ _. rewrite Hkeys. apply compare_strings. }
  destruct (String.eqb_spec sortBy "completed") as [-> | _].
  { apply (Hnum (fun task => if Task.completed task then 1 else 0)
                (fun task => JS.VBool (Task.completed task))); [reflexivity | ].
    intros task. split; [discriminate | ]. split; reflexivity. }
  destruct (String.eqb_spec sortBy "priority") as [-> | _].
  { apply textOrder_consistent with (fun task => JS.toLowerCase (Task.priority task)).
    intros a b _ _. rewrite Hkeys. apply compare_strings. }
  destruct (String.eqb_spec sortBy "dueDate") as [-> | _]; [discriminate Hdate | ].
  destruct (String.eqb_spec sortBy "tags") as [-> | _].
  { apply textOrder_consistent with (fun task => String.concat "," (Task.tags task)).
    intros a b _ _. rewrite Hkeys. apply compare_arrays. }
  destruct (String.eqb_spec sortBy "createdAt") as [-> | _]; [discriminate Hdate | ].
  destruct (String.eqb_spec sortBy "updatedAt") as [-> | _]; [discriminate Hdate | ].
  destruct (String.eqb_spec sortBy "completedAt") as [-> | _]; [discriminate Hdate | ].
  destruct (String.eqb_spec sortBy "estimatedTime") as [-> | _].
  { apply (Hnum (fun task => match Task.estimatedTime task with
                             | Some z => z
                             | None => 0
                             end)
                (fun task => match Task.estimatedTime task with
                             | Some z => JS.VNumber (JS.Num z)
                             | None => JS.VNull
                             end)); [reflexivity | ].
    intros task. destruct (Task.estimatedTime task);
      (split; [discriminate | ]); split; reflexivity. }
  destruct (String.eqb_spec sortBy "actualTime") as [-> | _].
  { apply (Hnum (fun task => match Task.actualTime task with
                             | Some z => z
                             | None => 0
                             end)
                (fun task => match Task.actualTime task with
                             | Some z => JS.VNumber (JS.Num z)
                             | None => JS.VNull
                             end)); [reflexivity | ].
    intros task. destruct (Task.actualTime task);
      (split; [discriminate | ]); split; reflexivity. }
  destruct (String.eqb_spec sortBy "notes") as [-> | _].
  { apply textOrder_consistent with (fun task => JS.toLowerCase (Task.notes task)).
    intros a b _ _. rewrite Hkeys. apply compare_strings. }
  destruct (String.eqb_spec sortBy "links") as [-> | _].
  { apply textOrder_consistent with (fun task => String.concat "," (Task.links task)).
    intros a b _ _. rewrite Hkeys. apply compare_arrays. }
  apply timeOrder_consistent with (fun _ => 0).
  intros a b _ _. rewrite Hkeys. reflexivity.
Qed.

Lemma comparable_consistent (sortBy order : string) (tasks : list Task.t) :
  comparable sortBy tasks -> consistentOn sortBy order tasks.
Proof.
  unfold comparable. destruct (TaskService.isDateKey sortBy) eqn:Hdate.
  - now apply dates_consistent.
  - now apply plain_key_consistent.
Qed.

Lemma compareTasks_same_key (sortBy order : string) (a b : Task.t) :
  sortKey sortBy a = sortKey sortBy b ->
  TaskService.compareTasks sortBy order a b = JS.Ok 0.
Proof.
  intros Hkey. rewrite compareTasks_keys, Hkey.
  destruct (lowerBoth_refl (sortKey sortBy b)) as [x ->]. simpl.
  unfold JS.js_gt. now rewrite js_lt_irrefl.
Qed.

Lemma StronglySorted_weaken {A} (R R' : A -> A -> Prop) (l : list A) :
  (forall a b, R a b -> R' a b) -> StronglySorted R l -> StronglySorted R' l.
Proof.
  intros Himpl. induction 1 as [| a l _ IH Hall]; constructor; [exact IH | ].
  eapply Forall_impl; [ | exact Hall]. intros b. apply Himpl.
Qed.

Lemma consistent_sort (sortBy order : string) (tasks : list Task.t) :
  consistentOn sortBy order tasks ->
  exists sorted,
    TaskService.sortTasks tasks sortBy order = JS.Ok sorted
    /\ Permutation tasks sorted
    /\ ordered sortBy order sorted
    /\ keepsOrder sortBy order tasks sorted.
Proof.
  intros (Htotal & Hsign & Htrans).
  set (cmp := TaskService.compareTasks sortBy order) in *.
  set (notAfter := fun a b : Task.t =>
                     In a tasks /\ In b tasks
                     /\ exists c, cmp a b = JS.Ok c /\ c <= 0).
  destruct (Array_sort_ordered cmp (fun task => In task tasks) notAfter)
    with (l := tasks) as (sorted & Hrun & Hsorted & Hperm).
  { intros x y Hx Hy. destruct (Htotal x y Hx Hy) as [c Hc].
    exists c. split; [exact Hc | ]. split.
    - intros Hle. split; [exact Hx | ]. split; [exact Hy | ]. now exists c.
    - intros Hgt. destruct (Htotal y x Hy Hx) as [c' Hc'].
      split; [exact Hy | ]. split; [exact Hx | ]. exists c'.
      split; [exact Hc' | ].
      destruct (Hsign x y c c' Hx Hy Hc Hc') as [_ Hpos]. apply Hpos in Hgt. lia. }
  { apply Forall_forall. now intros task Hin. }
  exists sorted. split; [exact Hrun | ]. split; [exact Hperm | ]. split.
  - apply StronglySorted_weaken with notAfter; [now intros a b (_ & _ & H) | ].
    apply Sorted_StronglySorted; [ | exact Hsorted].
    intros a b c (Ha & Hb & x & Hx & Hxle) (_ & Hc & y & Hy & Hyle).
    split; [exact Ha | ]. split; [exact Hc | ].
    destruct (Htotal a c Ha Hc) as [z Hz]. exists z. split; [exact Hz | ].
    exact (proj1 (Htrans a b c x y z Ha Hb Hc Hx Hy Hz Hxle Hyle)).
  - intros a b Hab. apply (Array_sort_filter _ _ _ _ Hrun).
    intros x y c _ _ Hx Hy Hc.
    destruct (oneOf_cases _ _ _ Hx) as [-> | ->],
             (oneOf_cases _ _ _ Hy) as [-> | ->].
    + unfold cmp in Hc. rewrite compareTasks_refl in Hc. injection Hc as <-. lia.
    + unfold cmp in Hc. rewrite Hab in Hc. injection Hc as <-. lia.
    + rewrite (compareTasks_zero_sym _ _ _ _ c Hab Hc). lia.
    + unfold cmp in Hc. rewrite compareTasks_refl in Hc. injection Hc as <-. lia.
Qed.

(** Two arrangements of the same tasks that are both ordered and agree on
    the relative order of tasks that compare equal are one arrangement. *)
Lemma ordered_arrangement_unique (sortBy order : string) (l1 l2 : list Task.t) :
  (forall a b c c',
      In a l1 -> In b l1 ->
      TaskService.compareTasks sortBy order a b = JS.Ok c ->
      TaskService.compareTasks sortBy order b a = JS.Ok c' ->
      (c < 0 <-> 0 < c') /\ (0 < c <-> c' < 0)) ->
  Permutation l1 l2 ->
  ordered sortBy order l1 -> ordered sortBy order l2 ->
  (forall a b, TaskService.compareTasks sortBy order a b = JS.Ok 0 ->
               filter (oneOf a b) l1 = filter (oneOf a b) l2) ->
  l1 = l2.
Proof.
  revert l2. induction l1 as [| h1 t1 IH]; intros l2 Hsign Hperm Ho1 Ho2 Hkeep.
  - apply Permutation_nil in Hperm. now subst.
  - destruct l2 as [| h2 t2].
    { apply Permutation_sym, Permutation_nil in Hperm. discriminate. }
    assert (Hin2 : In h2 (h1 :: t1)).
    { apply Permutation_in with (h2 :: t2);
        [now apply Permutation_sym | now left]. }
    assert (Hin1 : In h1 (h2 :: t2)).
    { apply Permutation_in with (h1 :: t1); [exact Hperm | now left]. }
    assert (Hle12 : exists c, TaskService.compareTasks sortBy order h1 h2 = JS.Ok c
                              /\ c <= 0).
    { destruct Hin2 as [<- | Hin2].
      - exists 0. split; [apply compareTasks_refl | lia].
      - inversion Ho1 as [| ? ? _ Hall]; subst.
        rewrite Forall_forall in Hall. now apply Hall. }
    assert (Hle21 : exists c, TaskService.compareTasks sortBy order h2 h1 = JS.Ok c
                              /\ c <= 0).
    { destruct Hin1 as [<- | Hin1].
      - exists 0. split; [apply compareTasks_refl | lia].
      - inversion Ho2 as [| ? ? _ Hall]; subst.
        rewrite Forall_forall in Hall. now apply Hall. }
    destruct Hle12 as (c & Hc & Hcle), Hle21 as (c' & Hc' & Hcle').
    assert (Hzero : c = 0).
    { destruct (Hsign h1 h2 c c' (or_introl eq_refl) Hin2 Hc Hc') as [Hneg _].
      destruct (Z.eq_dec c 0) as [-> | Hne]; [reflexivity | ].
      assert (Hlt : c < 0) by lia. apply Hneg in Hlt. lia. }
    subst c.
    assert (Hhead : h1 = h2).
    { pose proof (Hkeep h1 h2 Hc) as Hf. simpl in Hf.
      assert (H1 : oneOf h1 h2 h1 = true).
      { unfold oneOf. now destruct (Task_eq_dec h1 h1). }
      assert (H2 : oneOf h1 h2 h2 = true).
      { unfold oneOf. destruct (Task_eq_dec h2 h2); [ | contradiction].
        apply orb_true_r. }
      rewrite H1, H2 in Hf. now injection Hf. }
    subst h2. f_equal. apply IH.
    + intros a b x y Ha Hb. apply Hsign; now right.
    + now apply Permutation_cons_inv with h1.
    + now inversion Ho1.
    + now inversion Ho2.
    + intros a b Hab. pose proof (Hkeep a b Hab) as Hf. simpl in Hf.
      destruct (oneOf a b h1); [now injection Hf | exact Hf].
Qed.

(** *** The sort of V8 under a consistent comparator *)

Lemma StronglySorted_app {A} (R : A -> A -> Prop) (l1 l2 : list A) :
  StronglySorted R (l1 ++ l2) <->
  StronglySorted R l1 /\ StronglySorted R l2
  /\ (forall x y, In x l1 -> In y l2 -> R x y).
Proof.
  induction l1 as [| a l1 IH]; simpl.
  - split; [intros H | now intros (_ & H & _)].
    split; [constructor | ]. split; [exact H | now intros x y []].
  - split.
    + intros H. inversion H as [| ? ? Hs Hall]; subst.
      apply IH in Hs. destruct Hs as (H1 & H2 & Hcross).
      rewrite Forall_app in Hall. destruct Hall as [Hall1 Hall2].
      split; [now constructor | ]. split; [exact H2 | ].
      intros x y [<- | Hx] Hy.
      * rewrite Forall_forall in Hall2. now apply Hall2.
      * now apply Hcross.
    + intros (H1 & H2 & Hcross). inversion H1 as [| ? ? Hs Hall]; subst.
      constructor.
      * apply IH. split; [exact Hs | ]. split; [exact H2 | ].
        intros x y Hx. apply Hcross. now right.
      * apply Forall_app. split; [exact Hall | ].
        apply Forall_forall. intros y Hy. apply Hcross; [now left | exact Hy].
Qed.

Lemma StronglySorted_rev {A} (R : A -> A -> Prop) (l : list A) :
  StronglySorted (fun a b => R b a) l -> StronglySorted R (rev l).
Proof.
  induction 1 as [| a l _ IH Hall]; simpl; [constructor | ].
  apply StronglySorted_app. split; [exact IH | ].
  split; [repeat constructor | ].
  intros x y Hx [<- | []]. apply in_rev in Hx.
  rewrite Forall_forall in Hall. now apply Hall.
Qed.

Section ShortSortFacts.
Context {A : Type} (comparefn : A -> A -> JS.res Z) (known : A -> Prop).

Hypothesis comparefn_total :
  forall a b, known a -> known b -> exists c, comparefn a b = JS.Ok c.
Hypothesis comparefn_sign :
  forall a b c c', known a -> known b ->
    comparefn a b = JS.Ok c -> comparefn b a = JS.Ok c' ->
    (c < 0 <-> 0 < c') /\ (0 < c <-> c' < 0).
Hypothesis comparefn_trans :
  forall a b c x y z, known a -> known b -> known c ->
    comparefn a b = JS.Ok x -> comparefn b c = JS.Ok y -> comparefn a c = JS.Ok z ->
    x <= 0 -> y <= 0 -> z <= 0 /\ (x < 0 \/ y < 0 -> z < 0).

Lemma before_notAfter (a b : A) : (beforeBy comparefn known) a b -> (notAfterBy comparefn known) a b.
Proof.
  intros (Ha & Hb & c & Hc & Hlt). split; [exact Ha | ]. split; [exact Hb | ].
  exists c. split; [exact Hc | lia].
Qed.

Lemma notAfter_trans (a b c : A) : (notAfterBy comparefn known) a b -> (notAfterBy comparefn known) b c -> (notAfterBy comparefn known) a c.
Proof.
  intros (Ha & Hb & x & Hx & Hxle) (_ & Hc & y & Hy & Hyle).
  split; [exact Ha | ]. split; [exact Hc | ].
  destruct (comparefn_total a c Ha Hc) as [z Hz]. exists z. split; [exact Hz | ].
  exact (proj1 (comparefn_trans a b c x y z Ha Hb Hc Hx Hy Hz Hxle Hyle)).
Qed.

Lemma before_notAfter_trans (a b c : A) : (beforeBy comparefn known) a b -> (notAfterBy comparefn known) b c -> (beforeBy comparefn known) a c.
Proof.
  intros (Ha & Hb & x & Hx & Hxlt) (_ & Hc & y & Hy & Hyle).
  split; [exact Ha | ]. split; [exact Hc | ].
  destruct (comparefn_total a c Ha Hc) as [z Hz]. exists z. split; [exact Hz | ].
  apply (comparefn_trans a b c x y z Ha Hb Hc Hx Hy Hz); lia.
Qed.

Lemma before_trans (a b c : A) : (beforeBy comparefn known) a b -> (beforeBy comparefn known) b c -> (beforeBy comparefn known) a c.
Proof.
  intros Hab Hbc. apply before_notAfter_trans with b; [exact Hab | ].
  now apply before_notAfter.
Qed.

(** The two outcomes of one comparison. *)
Lemma compare_cases (pivot element : A) :
  known pivot -> known element ->
  exists c, comparefn pivot element = JS.Ok c
            /\ (c < 0 -> (beforeBy comparefn known) pivot element)
            /\ (0 <= c -> (notAfterBy comparefn known) element pivot).
Proof.
  intros Hp He. destruct (comparefn_total pivot element Hp He) as [c Hc].
  exists c. split; [exact Hc | ]. split.
  - intros Hlt. split; [exact Hp | ]. split; [exact He | ]. now exists c.
  - intros Hge. destruct (comparefn_total element pivot He Hp) as [c' Hc'].
    split; [exact He | ]. split; [exact Hp | ]. exists c'. split; [exact Hc' | ].
    destruct (comparefn_sign pivot element c c' Hp He Hc Hc') as [Hneg Hpos].
    destruct (Z_lt_le_dec 0 c') as [Hgt | Hle]; [ | exact Hle].
    apply Hneg in Hgt. lia.
Qed.

Lemma search_step (steps : nat) (pivot : A) (sorted : list A) (left right : nat) :
  JS.search comparefn (S steps) pivot sorted left right
  = if (left <? right)%nat then
      match nth_error sorted (left + (right - left) / 2)%nat with
      | Some element =>
          JS.res_bind (comparefn pivot element) (fun order =>
            if order <? 0
            then JS.search comparefn steps pivot sorted left
                           (left + (right - left) / 2)%nat
            else JS.search comparefn steps pivot sorted
                           (S (left + (right - left) / 2)) right)
      | None => JS.Ok left
      end
    else JS.Ok left.
Proof. reflexivity. Qed.

Lemma search_place (steps : nat) (pivot : A) (sorted : list A) (left right : nat) :
  known pivot -> Forall known sorted ->
  StronglySorted (notAfterBy comparefn known) sorted ->
  (left <= right <= List.length sorted)%nat ->
  (right - left < steps)%nat ->
  Forall (fun element => (notAfterBy comparefn known) element pivot) (firstn left sorted) ->
  Forall (fun element => (beforeBy comparefn known) pivot element) (skipn right sorted) ->
  exists place,
    JS.search comparefn steps pivot sorted left right = JS.Ok place
    /\ Forall (fun element => (notAfterBy comparefn known) element pivot) (firstn place sorted)
    /\ Forall (fun element => (beforeBy comparefn known) pivot element) (skipn place sorted).
Proof.
  intros Hpivot Hknown Hsorted.
  revert left right. induction steps as [| steps IH];
    intros left right Hbounds Hsteps Hleft Hright; [lia | ].
  rewrite search_step. destruct (Nat.ltb_spec left right) as [Hlt | Hge].
  - set (mid := (left + (right - left) / 2)%nat).
    assert (Hmid : (left <= mid < right)%nat).
    { unfold mid. pose proof (Nat.div_lt (right - left) 2). lia. }
    destruct (nth_error sorted mid) as [element | ] eqn:Hnth.
    2:{ apply nth_error_None in Hnth. lia. }
    destruct (nth_error_split sorted mid Hnth) as (l1 & l2 & Hsplit & Hlen).
    assert (Hfirst : firstn mid sorted = l1).
    { rewrite Hsplit, <- Hlen. rewrite firstn_app, Nat.sub_diag, firstn_all.
      simpl. apply app_nil_r. }
    assert (Hskip : skipn mid sorted = element :: l2).
    { rewrite Hsplit, <- Hlen. rewrite skipn_app, Nat.sub_diag, skipn_all.
      reflexivity. }
    assert (Helement : known element).
    { rewrite Forall_forall in Hknown. apply Hknown. rewrite Hsplit.
      apply in_or_app. right. now left. }
    pose proof Hsorted as Hparts. rewrite Hsplit in Hparts.
    apply StronglySorted_app in Hparts. destruct Hparts as (Hs1 & Hs2 & Hcross).
    apply StronglySorted_inv in Hs2. destruct Hs2 as [_ Hafter].
    destruct (compare_cases pivot element Hpivot Helement)
      as (c & Hc & Hneg & Hpos).
    rewrite Hc. cbn [JS.res_bind]. destruct (Z.ltb_spec c 0) as [Hc0 | Hc0].
    + apply IH; [lia | lia | exact Hleft | ].
      rewrite Hskip. constructor; [now apply Hneg | ].
      eapply Forall_impl; [ | exact Hafter]. intros y Hy.
      apply before_notAfter_trans with element; [now apply Hneg | exact Hy].
    + apply IH; [lia | lia | | exact Hright].
      replace (firstn (S mid) sorted) with (l1 ++ [element])%list.
      * apply Forall_app. split; [ | constructor; [now apply Hpos | constructor]].
        apply Forall_forall. intros x Hx.
        apply notAfter_trans with element; [ | now apply Hpos].
        apply Hcross; [exact Hx | now left].
      * rewrite Hsplit, <- Hlen.
        rewrite firstn_app. rewrite firstn_all2 by lia.
        replace (S (List.length l1) - List.length l1)%nat with 1%nat by lia.
        reflexivity.
  - assert (left = right) by lia. subst right.
    exists left. split; [reflexivity | ]. split; assumption.
Qed.

Lemma alike_not_before (p : A -> bool) (x y : A) :
  (alikeBy comparefn known) p -> (beforeBy comparefn known) x y -> p x = true -> p y = false.
Proof.
  intros Halike (Hx & Hy & c & Hc & Hlt) Hpx.
  destruct (p y) eqn:Hpy; [ | reflexivity].
  rewrite (Halike x y Hx Hy Hpx Hpy) in Hc. injection Hc as <-. lia.
Qed.

Lemma filter_none {B} (p : B -> bool) (l : list B) :
  (forall y, In y l -> p y = false) -> filter p l = [].
Proof.
  induction l as [| y l IH]; simpl; intros H; [reflexivity | ].
  rewrite (H y (or_introl eq_refl)). apply IH. intros z Hz. apply H. now right.
Qed.

Lemma insert_between (l1 l2 : list A) (pivot : A) :
  known pivot ->
  StronglySorted (notAfterBy comparefn known) (l1 ++ l2) ->
  Forall (fun element => (notAfterBy comparefn known) element pivot) l1 ->
  Forall (fun element => (beforeBy comparefn known) pivot element) l2 ->
  StronglySorted (notAfterBy comparefn known) (l1 ++ pivot :: l2)
  /\ Permutation ((l1 ++ l2) ++ [pivot]) (l1 ++ pivot :: l2)
  /\ (forall p, (alikeBy comparefn known) p ->
                filter p (l1 ++ pivot :: l2) = filter p ((l1 ++ l2) ++ [pivot])).
Proof.
  intros Hpivot Hsorted Hleft Hright.
  apply StronglySorted_app in Hsorted. destruct Hsorted as (Hs1 & Hs2 & Hcross).
  split; [ | split].
  - apply StronglySorted_app. split; [exact Hs1 | ]. split.
    + constructor; [exact Hs2 | ].
      eapply Forall_impl; [ | exact Hright]. intros y. apply before_notAfter.
    + intros x y Hx [<- | Hy].
      * rewrite Forall_forall in Hleft. now apply Hleft.
      * now apply Hcross.
  - rewrite <- app_assoc. apply Permutation_app_head.
    apply Permutation_sym, Permutation_cons_append.
  - intros p Halike. rewrite !filter_app. simpl.
    destruct (p pivot) eqn:Hp; [ | now rewrite app_nil_r].
    rewrite (filter_none p l2); [now rewrite app_nil_r | ].
    intros y Hy. rewrite Forall_forall in Hright.
    now apply (alike_not_before p pivot y Halike (Hright y Hy)).
Qed.

Lemma insertAt_place (place : nat) (pivot : A) (sorted : list A) :
  known pivot ->
  StronglySorted (notAfterBy comparefn known) sorted ->
  Forall (fun element => (notAfterBy comparefn known) element pivot) (firstn place sorted) ->
  Forall (fun element => (beforeBy comparefn known) pivot element) (skipn place sorted) ->
  StronglySorted (notAfterBy comparefn known) (JS.insertAt place pivot sorted)
  /\ Permutation (sorted ++ [pivot]) (JS.insertAt place pivot sorted)
  /\ (forall p, (alikeBy comparefn known) p ->
                filter p (JS.insertAt place pivot sorted)
                = filter p (sorted ++ [pivot])).
Proof.
  intros Hpivot Hsorted Hleft Hright.
  pose proof (insert_between (firstn place sorted) (skipn place sorted) pivot Hpivot)
    as Hbetween.
  rewrite (firstn_skipn place sorted) in Hbetween.
  exact (Hbetween Hsorted Hleft Hright).
Qed.

Lemma insertAll_sorted (rest sorted : list A) :
  Forall known sorted -> Forall known rest ->
  StronglySorted (notAfterBy comparefn known) sorted ->
  exists r,
    JS.insertAll comparefn sorted rest = JS.Ok r
    /\ StronglySorted (notAfterBy comparefn known) r
    /\ Permutation (sorted ++ rest) r
    /\ (forall p, (alikeBy comparefn known) p -> filter p r = filter p (sorted ++ rest)).
Proof.
  revert sorted. induction rest as [| pivot rest IH]; intros sorted Hks Hkr Hsorted.
  - exists sorted. rewrite app_nil_r. repeat split; try reflexivity; assumption.
  - inversion Hkr as [| ? ? Hpivot Hkr']; subst.
    destruct (search_place (S (List.length sorted)) pivot sorted 0
                (List.length sorted) Hpivot Hks Hsorted)
      as (place & Hplace & Hleft & Hright);
      [lia | lia | constructor | rewrite skipn_all; constructor | ].
    destruct (insertAt_place place pivot sorted Hpivot Hsorted Hleft Hright)
      as (Hs' & Hperm' & Hfilter').
    destruct (IH (JS.insertAt place pivot sorted)) as (r & Hr & Hsr & Hperm & Hfilter).
    + apply Forall_forall. intros x Hx.
      apply (Permutation_in _ (Permutation_sym Hperm')) in Hx.
      apply in_app_or in Hx. rewrite Forall_forall in Hks.
      destruct Hx as [Hx | [<- | []]]; [now apply Hks | exact Hpivot].
    + exact Hkr'.
    + exact Hs'.
    + exists r. split; [ | split; [exact Hsr | split]].
      * cbn [JS.insertAll]. rewrite Hplace. exact Hr.
      * apply perm_trans with (JS.insertAt place pivot sorted ++ rest)%list;
          [ | exact Hperm].
        change (pivot :: rest) with ([pivot] ++ rest)%list. rewrite app_assoc.
        now apply Permutation_app_tail.
      * intros p Halike. rewrite (Hfilter p Halike), filter_app.
        rewrite (Hfilter' p Halike).
        change (pivot :: rest) with ([pivot] ++ rest)%list.
        now rewrite app_assoc, (filter_app p (sorted ++ [pivot])).
Qed.

Lemma inRun_compare (previous next : A) :
  known previous -> known next ->
  exists c, comparefn next previous = JS.Ok c
            /\ (inRunBy comparefn known) (c <? 0) previous next.
Proof.
  intros Hp Hn. destruct (compare_cases next previous Hn Hp) as (c & Hc & Hneg & Hpos).
  exists c. split; [exact Hc | ]. unfold inRunBy.
  destruct (Z.ltb_spec c 0); [now apply Hneg | now apply Hpos].
Qed.

Lemma runRest_run (descending : bool) (l : list A) (previous : A) :
  known previous -> Forall known l ->
  exists n,
    JS.runRest comparefn descending previous l = JS.Ok n
    /\ (n <= List.length l)%nat
    /\ Sorted ((inRunBy comparefn known) descending) (previous :: firstn n l).
Proof.
  revert previous. induction l as [| current l IH]; intros previous Hp Hl.
  - exists O. split; [reflexivity | ]. split; [simpl; lia | ].
    repeat constructor.
  - inversion Hl as [| ? ? Hc Hl']; subst.
    destruct (inRun_compare previous current Hp Hc) as (c & Hcmp & Hrun).
    simpl. rewrite Hcmp. simpl.
    destruct (Bool.eqb descending (c <? 0)) eqn:Heq.
    + apply Bool.eqb_prop in Heq. subst descending.
      destruct (IH current Hc Hl') as (n & Hn & Hlen & Hsorted).
      rewrite Hn. simpl. exists (S n). split; [reflexivity | ].
      split; [lia | ]. simpl. constructor; [exact Hsorted | ]. now constructor.
    + exists O. split; [reflexivity | ]. split; [lia | ]. repeat constructor.
Qed.

Lemma countRun_run (l : list A) :
  Forall known l ->
  exists n descending,
    JS.countRun comparefn l = JS.Ok (n, descending)
    /\ Sorted ((inRunBy comparefn known) descending) (firstn n l).
Proof.
  intros Hl. destruct l as [| first [| second rest]].
  - exists O, false. split; [reflexivity | constructor].
  - exists 1%nat, false. split; [reflexivity | repeat constructor].
  - inversion Hl as [| ? ? Hf Hl']; subst. inversion Hl' as [| ? ? Hs Hr]; subst.
    destruct (inRun_compare first second Hf Hs) as (c & Hcmp & Hrun).
    destruct (runRest_run (c <? 0) rest second Hs Hr) as (n & Hn & _ & Hsorted).
    exists (S (S n)), (c <? 0). split.
    + unfold JS.countRun. rewrite Hcmp. cbn [JS.res_bind]. rewrite Hn. reflexivity.
    + simpl. constructor; [exact Hsorted | ]. now constructor.
Qed.

Lemma descending_alike (p : A -> bool) (run : list A) :
  (alikeBy comparefn known) p ->
  StronglySorted (fun a b => (beforeBy comparefn known) b a) run ->
  (List.length (filter p run) <= 1)%nat.
Proof.
  intros Halike. induction 1 as [| a l _ IH Hall]; simpl; [lia | ].
  destruct (p a) eqn:Hpa; [ | exact IH].
  rewrite filter_none; [simpl; lia | ].
  intros y Hy. rewrite Forall_forall in Hall. specialize (Hall y Hy).
  destruct (p y) eqn:Hpy; [ | reflexivity].
  destruct Hall as (Hky & Hka & c & Hc & Hlt).
  rewrite (Halike y a Hky Hka Hpy Hpa) in Hc. injection Hc as <-. lia.
Qed.

Lemma run_start (descending : bool) (run : list A) :
  Sorted ((inRunBy comparefn known) descending) run ->
  StronglySorted (notAfterBy comparefn known) (if descending then rev run else run)
  /\ (forall p, (alikeBy comparefn known) p ->
                filter p (if descending then rev run else run) = filter p run).
Proof.
  intros Hrun. destruct descending; unfold inRunBy in Hrun.
  - assert (Hstrong : StronglySorted (fun a b => (beforeBy comparefn known) b a) run).
    { apply Sorted_StronglySorted; [ | exact Hrun].
      intros a b c Hba Hcb. now apply before_trans with b. }
    split.
    + apply StronglySorted_weaken with (beforeBy comparefn known); [apply before_notAfter | ].
      now apply StronglySorted_rev.
    + intros p Halike. rewrite filter_rev.
      pose proof (descending_alike p run Halike Hstrong) as Hlen.
      destruct (filter p run) as [| x [| y l]]; try reflexivity.
      simpl in Hlen. lia.
  - split; [ | reflexivity].
    apply Sorted_StronglySorted; [ | exact Hrun].
    intros a b c. apply notAfter_trans.
Qed.

Lemma shortSort_sorted (l : list A) :
  Forall known l ->
  exists r,
    JS.shortSort comparefn l = JS.Ok r
    /\ StronglySorted (notAfterBy comparefn known) r
    /\ Permutation l r
    /\ (forall p, (alikeBy comparefn known) p -> filter p r = filter p l).
Proof.
  intros Hl. destruct (countRun_run l Hl) as (n & descending & Hcount & Hrun).
  destruct (run_start descending (firstn n l) Hrun) as [Hstart Hfilter].
  assert (Hparts : Forall known (firstn n l) /\ Forall known (skipn n l)).
  { rewrite <- (firstn_skipn n l) in Hl. now apply Forall_app in Hl. }
  destruct Hparts as [Hk1 Hk2].
  assert (Hperm : Permutation (firstn n l)
                              (if descending then rev (firstn n l) else firstn n l)).
  { destruct descending; [apply Permutation_rev | apply Permutation_refl]. }
  destruct (insertAll_sorted (skipn n l)
              (if descending then rev (firstn n l) else firstn n l))
    as (r & Hr & Hsorted & Hpermr & Hfilterr).
  - apply Forall_forall. intros x Hx.
    apply (Permutation_in _ (Permutation_sym Hperm)) in Hx.
    rewrite Forall_forall in Hk1. now apply Hk1.
  - exact Hk2.
  - exact Hstart.
  - exists r. split; [ | split; [exact Hsorted | split]].
    + unfold JS.shortSort. rewrite Hcount. exact Hr.
    + apply perm_trans
        with ((if descending then rev (firstn n l) else firstn n l) ++ skipn n l)%list;
        [ | exact Hpermr].
      rewrite <- (firstn_skipn n l) at 1. now apply Permutation_app_tail.
    + intros p Halike. rewrite (Hfilterr p Halike), filter_app.
      rewrite (Hfilter p Halike), <- filter_app. now rewrite firstn_skipn.
Qed.

End ShortSortFacts.

Lemma sortTasksV8_consistent (sortBy order : string) (tasks : list Task.t) :
  consistentOn sortBy order tasks ->
  exists sorted,
    TaskService.sortTasksV8 tasks sortBy order = JS.Ok sorted
    /\ Permutation tasks sorted
    /\ ordered sortBy order sorted
    /\ keepsOrder sortBy order tasks sorted.
Proof.
  intros (Htotal & Hsign & Htrans).
  destruct (shortSort_sorted (TaskService.compareTasks sortBy order)
              (fun task => In task tasks) Htotal Hsign Htrans tasks)
    as (sorted & Hrun & Hsorted & Hperm & Hfilter).
  { apply Forall_forall. now intros task Hin. }
  exists sorted. split; [exact Hrun | ]. split; [exact Hperm | ]. split.
  - apply StronglySorted_weaken
      with (notAfterBy (TaskService.compareTasks sortBy order)
                       (fun task => In task tasks));
      [now intros a b (_ & _ & H) | exact Hsorted].
  - intros a b Hab. apply Hfilter. intros x y Hx Hy Hpx Hpy.
    destruct (oneOf_cases _ _ _ Hpx) as [-> | ->],
             (oneOf_cases _ _ _ Hpy) as [-> | ->].
    + apply compareTasks_refl.
    + exact Hab.
    + destruct (Htotal b a Hx Hy) as [c Hc].
      now rewrite <- (compareTasks_zero_sym _ _ _ _ c Hab Hc).
    + apply compareTasks_refl.
Qed.





(** ** Further properties of the task list and the dashboard *)

Lemma filter_andb {A} (p q : A -> bool) (l : list A) :
  filter q (filter p l) = filter (fun x => q x && p x) l.
Proof.
  induction l as [| x l IH]; simpl; [reflexivity | ].
  destruct (p x); simpl; destruct (q x); simpl; now rewrite IH.
Qed.

Lemma no_rows_iff {A} (l : list A) :
  (List.length l =? 0)%nat = true <-> l = [].
Proof. destruct l; simpl; split; intros H; (reflexivity || discriminate). Qed.

Lemma sortTasks_newestFirst (tasks sorted : list Task.t) :
  Forall (fun task => keyTime "createdAt" task <> None) tasks ->
  TaskService.sortTasks tasks "createdAt" "desc" = JS.Ok sorted ->
  newestFirst sorted.
Proof.
  intros Hall Hrun.
  destruct (Array_sort_ordered (TaskService.compareTasks "createdAt" "desc")
              (fun task => keyTime "createdAt" task <> None)
              (fun a b => inOrder "desc" (keyTime "createdAt" a)
                                  (keyTime "createdAt" b))
              (fun a b Ha Hb =>
                 compareTasks_dates "createdAt" "desc" a b eq_refl Ha Hb)
              tasks Hall) as (sorted' & Hrun' & Hsorted & _).
  unfold TaskService.sortTasks in Hrun. rewrite Hrun' in Hrun.
  injection Hrun as <-.
  apply Sorted_StronglySorted; [ | exact Hsorted].
  intros a b c. apply inOrder_trans.
Qed.

Lemma render_run (env : JS.Env) (st : DB.Storage) (selector search : string) :
  exists view,
    TaskListView.render env selector search st = (JS.Ok view, st)
    /\ TaskListView.currentFilter view = selector
    /\ TaskListView.currentSearch view = search
    /\ TaskService.sortTasks
         (filter (listed env selector search) (allTasks env st)) "createdAt" "desc"
       = JS.Ok (TaskListView.rows view)
    /\ TaskListView.emptyStateShown view
       = (List.length (TaskListView.rows view) =? 0)%nat.
Proof.
  set (found := filter (listed env selector search) (allTasks env st)).
  destruct (sortTasks_returns found "createdAt" "desc") as [sorted Hsorted];
    [discriminate | ].
  destruct (updateCounts_run env st) as [counts Hcounts].
  exists (TaskListView.mkView selector search sorted (List.length sorted =? 0)%nat counts).
  split; [ | repeat split; exact Hsorted].
  unfold TaskListView.render.
  rewrite (bind_run _ _ st st _ (getTasksForFilter_run env selector st)).
  rewrite (bind_run _ _ st st found).
  - rewrite (bind_run _ _ st st sorted).
    + rewrite (bind_run _ _ st st _ Hcounts). reflexivity.
    + unfold DB.lift. now rewrite Hsorted.
  - unfold found, listed. destruct (JS.nonEmpty search) eqn:Hsearch.
    + rewrite (bind_run _ _ st st _ (searchTasks_run env search st Hsearch)).
      unfold DB.ret. now rewrite filter_andb.
    + unfold DB.ret. do 2 f_equal. apply filter_ext. intros task.
      now rewrite andb_true_r.
Qed.

(** X21.  [render] never fails and never writes.  The rows it leaves are
    the stored tasks that [shouldShowTask] accepts for the filter selector
    and that match the search, if one is given: each as often as it is
    stored.  The empty-state placeholder is shown exactly when there is no
    row, and when every creation time can be read as a date the rows are
    ordered from the newest to the oldest. *)
Theorem render_rows_are_the_listed_tasks (env : JS.Env) (st : DB.Storage)
        (selector search : string) :
  exists view,
    TaskListView.render env selector search st = (JS.Ok view, st)
    /\ TaskListView.currentFilter view = selector
    /\ TaskListView.currentSearch view = search
    /\ Permutation (filter (listed env selector search) (allTasks env st))
                   (TaskListView.rows view)
    /\ (TaskListView.emptyStateShown view = true <-> TaskListView.rows view = [])
    /\ (Forall (fun task => keyTime "createdAt" task <> None) (allTasks env st) ->
        newestFirst (TaskListView.rows view)).
Proof.
  destruct (render_run env st selector search)
    as (view & Hrun & Hf & Hs & Hsort & Hempty).
  exists view. split; [exact Hrun | ]. split; [exact Hf | ]. split; [exact Hs | ].
  split; [exact (sortTasks_perm _ _ _ _ Hsort) | ]. split.
  - rewrite Hempty. apply no_rows_iff.
  - intros Hall. apply (sortTasks_newestFirst _ _ (Forall_filter _ _ _ Hall) Hsort).
Qed.

Lemma render_rows_are_the_listed_tasks_witness :
  exists view,
    TaskListView.render env0 "all" "" stampedStore = (JS.Ok view, stampedStore)
    /\ newestFirst (TaskListView.rows view).
Proof.
  destruct (render_rows_are_the_listed_tasks env0 stampedStore "all" "")
    as (view & Hrun & _ & _ & _ & _ & Hnewest).
  exists view. split; [exact Hrun | ].
  apply Hnewest. repeat constructor; discriminate.
Defined.

Lemma getTasksByPriority_run (env : JS.Env) (priority : string) (st : DB.Storage) :
  TaskService.getTasksByPriority env priority st
  = (JS.Ok (filter (inBucket priority) (allTasks env st)), st).
Proof.
  unfold TaskService.getTasksByPriority. rewrite getFilteredTasks_run.
  do 2 f_equal. apply filter_ext. intros task.
  unfold accepts, inBucket. simpl.
  destruct (Task.completed task); simpl; [reflexivity | ].
  now rewrite !andb_true_r.
Qed.

Lemma sameId_iff (a b : Task.t) :
  Dashboard.sameId a b = true <-> Task.id a = Task.id b.
Proof.
  unfold Dashboard.sameId.
  destruct (Task.id a) as [x | ], (Task.id b) as [y | ]; split; intros H;
    try discriminate; try reflexivity.
  - apply String.eqb_eq in H. now subst.
  - injection H as ->. apply String.eqb_refl.
Qed.

Lemma NoDup_map_eq {A B} (f : A -> B) (l : list A) (a b : A) :
  NoDup (map f l) -> In a l -> In b l -> f a = f b -> a = b.
Proof.
  induction l as [| x l IH]; simpl; intros Hnd Ha Hb Hf; [contradiction | ].
  inversion Hnd as [| ? ? Hnotin Hnd']; subst.
  destruct Ha as [-> | Ha], Hb as [-> | Hb].
  - reflexivity.
  - elim Hnotin. rewrite Hf. now apply in_map.
  - elim Hnotin. rewrite <- Hf. now apply in_map.
  - now apply IH.
Qed.

Lemma idMatched_iff (env : JS.Env) (st : DB.Storage) (search : string)
      (task : Task.t) :
  idMatched env st search task = true <->
  exists found,
    In found (allTasks env st)
    /\ TaskService.matchesSearch search found = true
    /\ Task.id found = Task.id task.
Proof.
  unfold idMatched. rewrite existsb_exists. split.
  - intros (found & Hin & Hid). apply filter_In in Hin. destruct Hin as [Hin Hm].
    exists found. split; [exact Hin | ]. split; [exact Hm | ].
    now destruct (id_eq_dec (Task.id found) (Task.id task)).
  - intros (found & Hin & Hm & Hid). exists found. split.
    + apply filter_In. now split.
    + now destruct (id_eq_dec (Task.id found) (Task.id task)).
Qed.

Lemma idMatched_sameId (env : JS.Env) (st : DB.Storage) (search : string)
      (task : Task.t) :
  existsb (fun found => Dashboard.sameId found task)
          (filter (TaskService.matchesSearch search) (allTasks env st))
  = idMatched env st search task.
Proof.
  unfold idMatched.
  induction (filter (TaskService.matchesSearch search) (allTasks env st))
    as [| found l IH]; simpl; [reflexivity | ].
  rewrite IH. f_equal.
  destruct (id_eq_dec (Task.id found) (Task.id task)) as [Hid | Hid].
  - now apply sameId_iff.
  - destruct (Dashboard.sameId found task) eqn:Hsame; [ | reflexivity].
    apply sameId_iff in Hsame. contradiction.
Qed.

(** X22.  With a filter selector that starts with [priority-] the dashboard
    never fails and never writes; it shows, in stored order and not by
    creation time, the active tasks with the priority named after the
    prefix (all active tasks when nothing follows the prefix).  With a
    search it keeps exactly those of them that share their identifier with
    some stored task matching the search, whether or not they match it
    themselves; when the stored identifiers are distinct these are the
    tasks of the bucket that match the search.  The empty-state placeholder
    is shown exactly when there is no row. *)
Theorem dashboard_priority_rows (env : JS.Env) (st : DB.Storage)
        (selector search : string) :
  String.prefix "priority-" selector = true ->
  exists page,
    Dashboard.render env selector search st = (JS.Ok page, st)
    /\ (Dashboard.emptyStateShown page = true <-> Dashboard.rows page = [])
    /\ (JS.nonEmpty search = false ->
        Dashboard.rows page
        = filter (inBucket (Dashboard.priorityOf selector)) (allTasks env st))
    /\ (JS.nonEmpty search = true ->
        Dashboard.rows page
        = filter (fun task => inBucket (Dashboard.priorityOf selector) task
                              && idMatched env st search task)
                 (allTasks env st)
        /\ (forall task,
               In task (Dashboard.rows page) <->
               In task (allTasks env st)
               /\ inBucket (Dashboard.priorityOf selector) task = true
               /\ exists found,
                    In found (allTasks env st)
                    /\ TaskService.matchesSearch search found = true
                    /\ Task.id found = Task.id task)
        /\ (NoDup (map Task.id (allTasks env st)) ->
            Dashboard.rows page
            = filter (fun task => inBucket (Dashboard.priorityOf selector) task
                                  && TaskService.matchesSearch search task)
                     (allTasks env st))).
Proof.
  intros Hprefix.
  set (priority := Dashboard.priorityOf selector).
  set (shown := if JS.nonEmpty search
                then filter (fun task => inBucket priority task
                                         && idMatched env st search task)
                            (allTasks env st)
                else filter (inBucket priority) (allTasks env st)).
  destruct (updateCounts_run env st) as [counts Hcounts].
  exists (Dashboard.mkPage shown (List.length shown =? 0)%nat counts).
  split; [ | split; [ | split]].
  - unfold Dashboard.render. rewrite Hprefix.
    rewrite (bind_run _ _ st st _ (getTasksByPriority_run env _ st)).
    unfold shown. destruct (JS.nonEmpty search) eqn:Hsearch.
    + rewrite (bind_run _ _ st st _ (searchTasks_run env search st Hsearch)).
      unfold Dashboard.renderTasks.
      rewrite (bind_run _ _ st st _ Hcounts). unfold DB.ret.
      rewrite filter_filter.
      rewrite (filter_ext _ (fun task => inBucket priority task
                                         && idMatched env st search task)).
      * reflexivity.
      * intros task. fold priority. now rewrite idMatched_sameId.
    + unfold Dashboard.renderTasks.
      now rewrite (bind_run _ _ st st _ Hcounts).
  - simpl. apply no_rows_iff.
  - simpl. unfold shown. now intros ->.
  - simpl. unfold shown. intros ->. split; [reflexivity | split].
    + intros task. rewrite filter_In, andb_true_iff, idMatched_iff. tauto.
    + intros Hnd. apply filter_ext_in. intros task Hin. f_equal.
      destruct (TaskService.matchesSearch search task) eqn:Hm.
      * apply idMatched_iff. now exists task.
      * destruct (idMatched env st search task) eqn:Hex; [ | reflexivity].
        apply idMatched_iff in Hex. destruct Hex as (found & Hfound & Hmf & Hsame).
        rewrite (NoDup_map_eq Task.id _ found task Hnd Hfound Hin Hsame) in Hmf.
        congruence.
Qed.

Lemma dashboard_priority_rows_witness :
  exists page,
    Dashboard.render env0 "priority-high" "bar" sharedIdStore
    = (JS.Ok page, sharedIdStore)
    /\ Dashboard.rows page = [Task.new env0 (tagged "task_x" "Order foo" "high" [])].
Proof.
  destruct (dashboard_priority_rows env0 sharedIdStore "priority-high" "bar"
              eq_refl) as (page & Hrun & _ & _ & Hsearch).
  exists page. split; [exact Hrun | ].
  destruct (Hsearch eq_refl) as (Hrows & _). rewrite Hrows. reflexivity.
Defined.

(** ** Properties of the editor dialog *)

Lemma trimStart_length (s : string) :
  (String.length (JS.trimStart s) <= String.length s)%nat.
Proof.
  induction s as [| c s IH]; simpl; [lia | ].
  destruct (JS.isWhiteSpace c); simpl; lia.
Qed.

Lemma trimEnd_length (s : string) :
  (String.length (JS.trimEnd s) <= String.length s)%nat.
Proof.
  induction s as [| c s IH]; simpl; [lia | ].
  destruct (JS.trimEnd s); [destruct (JS.isWhiteSpace c) | ]; simpl in *; lia.
Qed.

Lemma trimEnd_app (a b : string) :
  JS.trimEnd b <> "" -> JS.trimEnd (a ++ b) = (a ++ JS.trimEnd b)%string.
Proof.
  intros Hb. induction a as [| c a IH]; simpl; [reflexivity | ].
  rewrite IH. destruct (a ++ JS.trimEnd b)%string eqn:Happ; [ | reflexivity].
  destruct a; simpl in Happ; [now elim Hb | discriminate].
Qed.

(** A trimmed string that is not empty starts with a character that is not
    white space, and [trimEnd] leaves it as it is. *)
Lemma trimmed_shape (t : string) :
  t <> "" -> JS.trim t = t ->
  JS.trimEnd t = t
  /\ exists c rest, t = String c rest /\ JS.isWhiteSpace c = false.
Proof.
  intros Hne Htrim. destruct t as [| c rest]; [now elim Hne | ].
  unfold JS.trim in Htrim. simpl JS.trimStart in Htrim.
  destruct (JS.isWhiteSpace c) eqn:Hc.
  - exfalso. apply (f_equal String.length) in Htrim. simpl in Htrim.
    pose proof (trimEnd_length (JS.trimStart rest)).
    pose proof (trimStart_length rest). lia.
  - split; [exact Htrim | ]. now exists c, rest.
Qed.

Lemma split_without_separator (sep : ascii) (t : string) :
  hasChar sep t = false -> JS.split sep t = [t].
Proof.
  induction t as [| c t IH]; simpl; [reflexivity | ].
  intros H. apply orb_false_iff in H. destruct H as [Hc Ht].
  rewrite Hc, (IH Ht). reflexivity.
Qed.

Lemma split_app (sep : ascii) (t rest : string) :
  hasChar sep t = false ->
  JS.split sep (t ++ String sep rest) = t :: JS.split sep rest.
Proof.
  induction t as [| c t IH]; simpl.
  - intros _. now rewrite Ascii.eqb_refl.
  - intros H. apply orb_false_iff in H. destruct H as [Hc Ht].
    rewrite Hc, (IH Ht). reflexivity.
Qed.

Lemma split_joined (t : string) (rest : list string) :
  Forall (fun tag => hasChar "," tag = false) (t :: rest) ->
  JS.split "," (String.concat ", " (t :: rest)) = t :: map (String " ") rest.
Proof.
  revert t. induction rest as [| t2 rest IH]; intros t Hall.
  - simpl. apply split_without_separator. now inversion Hall.
  - inversion Hall as [| ? ? Ht Hrest]; subst.
    change (String.concat ", " (t :: t2 :: rest))
      with (t ++ String "," (String " " (String.concat ", " (t2 :: rest))))%string.
    rewrite (split_app _ _ _ Ht).
    change (JS.split "," (String " " (String.concat ", " (t2 :: rest))))
      with (match JS.split "," (String.concat ", " (t2 :: rest)) with
            | h :: tl => String " " h :: tl
            | [] => [String " " EmptyString]
            end).
    now rewrite (IH t2 Hrest).
Qed.

Lemma joined_trimmed (t : string) (rest : list string) :
  Forall cleanTag (t :: rest) ->
  JS.trim (String.concat ", " (t :: rest)) = String.concat ", " (t :: rest)
  /\ String.concat ", " (t :: rest) <> "".
Proof.
  intros Hall.
  assert (Hend : JS.trimEnd (String.concat ", " (t :: rest))
                 = String.concat ", " (t :: rest)
                 /\ String.concat ", " (t :: rest) <> "").
  { revert t Hall. induction rest as [| t2 rest IH]; intros t Hall.
    - inversion Hall as [| ? ? (Hne & _ & Htrim & _) _]; subst. simpl.
      split; [ | exact Hne]. now apply trimmed_shape.
    - inversion Hall as [| ? ? _ Hrest]; subst.
      destruct (IH t2 Hrest) as [Hrec Hnonempty].
      change (String.concat ", " (t :: t2 :: rest))
        with (t ++ (", " ++ String.concat ", " (t2 :: rest)))%string.
      assert (Htail : JS.trimEnd (", " ++ String.concat ", " (t2 :: rest))
                      = (", " ++ String.concat ", " (t2 :: rest))%string).
      { rewrite trimEnd_app; rewrite Hrec; [reflexivity | exact Hnonempty]. }
      split.
      + rewrite trimEnd_app; rewrite Htail; [reflexivity | discriminate].
      + destruct t; discriminate. }
  destruct Hend as [Hend Hnonempty]. split; [ | exact Hnonempty].
  inversion Hall as [| ? ? (Hne & _ & Htrim & _) _]; subst.
  destruct (trimmed_shape t Hne Htrim) as (_ & c & tail & -> & Hc).
  unfold JS.trim.
  assert (Hstart : forall s, JS.trimStart (String c s) = String c s).
  { intros s. simpl. now rewrite Hc. }
  destruct rest as [| t2 rest].
  - simpl String.concat in *. now rewrite Hstart.
  - change (String.concat ", " (String c tail :: t2 :: rest))
      with (String c (tail ++ (", " ++ String.concat ", " (t2 :: rest))))%string
      in *.
    now rewrite Hstart.
Qed.

Lemma normalize_spaced (tags : list string) :
  Forall cleanTag tags ->
  map (fun tag => JS.toLowerCase (JS.trim tag)) (map (String " ") tags) = tags.
Proof.
  induction 1 as [| t tags (_ & _ & Htrim & Hlower) _ IH]; simpl; [reflexivity | ].
  rewrite IH. f_equal.
  change (JS.trim (String " " t)) with (JS.trim t). now rewrite Htrim.
Qed.

Lemma parseTags_joined (tags : list string) :
  Forall cleanTag tags ->
  (if JS.nonEmpty (JS.trim (String.concat ", " tags))
   then ModalManager.parseTags (JS.trim (String.concat ", " tags))
   else []) = tags.
Proof.
  intros Hall. destruct tags as [| t rest]; [reflexivity | ].
  destruct (joined_trimmed t rest Hall) as [-> Hnonempty].
  replace (JS.nonEmpty (String.concat ", " (t :: rest))) with true.
  2:{ symmetry. unfold JS.nonEmpty. apply negb_true_iff.
      now apply String.eqb_neq. }
  unfold ModalManager.parseTags. rewrite split_joined.
  2:{ eapply Forall_impl; [ | exact Hall]. now intros tag (_ & Hcomma & _). }
  inversion Hall as [| ? ? (Hne & _ & Htrim & Hlower) Hrest]; subst.
  cbn [map]. rewrite (normalize_spaced rest Hrest), Htrim, Hlower.
  apply filter_all. intros tag Hin.
  rewrite Forall_forall in Hall. destruct (Hall tag Hin) as (Htag & _).
  unfold JS.nonEmpty. apply negb_true_iff. now apply String.eqb_neq.
Qed.



Lemma createTask_returns (env : JS.Env) (taskData : TaskData) (st : DB.Storage) :
  exists created,
    TaskService.createTask env taskData st
    = (JS.Ok created, perform env (Create taskData) st).
Proof.
  simpl. unfold TaskService.createTask.
  destruct (negb _); [now eexists | ].
  rewrite (bind_run _ _ _ _ _ (addTask_added env _ st)). now eexists.
Qed.

Lemma updateTask_returns (env : JS.Env) (taskId : string) (updates : TaskData)
      (st : DB.Storage) :
  exists updated,
    TaskService.updateTask env taskId updates st
    = (JS.Ok updated, snd (DB.updateTask env taskId updates st)).
Proof.
  unfold TaskService.updateTask.
  destruct (DB.findIndex (DB.hasId taskId) (stored st)) as [index | ] eqn:Hi.
  - destruct (findIndex_find _ _ _ Hi) as (old & Hold & _).
    rewrite (bind_run _ _ _ _ _ (updateTask_run env st taskId updates old index Hi Hold)).
    rewrite (updateTask_run env st taskId updates old index Hi Hold).
    now eexists.
  - rewrite (bind_run _ _ _ _ _ (updateTask_unknown env st taskId updates Hi)).
    rewrite (updateTask_unknown env st taskId updates Hi). now eexists.
Qed.

Lemma blank_title_rejected (env : JS.Env) (f : ModalManager.Form) :
  JS.trim (ModalManager.taskTitle f) = "" ->
  Task.isValid (Task.validate (Task.new env (ModalManager.getFormData f))) = false.
Proof.
  intros Hblank. unfold Task.validate, ModalManager.getFormData.
  cbn [Task.isValid Task.title Task.new d_title]. rewrite Hblank.
  reflexivity.
Qed.



(** ** Properties of the theme functions *)

Lemma updateThemeIcon_dataTheme (theme : string) (page : Theme.Page) :
  Theme.dataTheme (Theme.updateThemeIcon theme page) = Theme.dataTheme page.
Proof. unfold Theme.updateThemeIcon. now destruct (Theme.themeToggle page). Qed.

(** X25.  On a store that accepts the write, [toggleTheme] succeeds and
    leaves one of the two themes both in the [data-theme] attribute and in
    the stored item: [light] when the attribute said [dark], and [dark] in
    every other case, also when the attribute was missing.  The tasks are
    untouched, [initTheme] on a reloaded page restores the chosen theme
    whatever the system prefers, and a second toggle gives back a theme that
    was one of the two. *)
Theorem toggleTheme_alternates_and_persists (page : Theme.Page) (st : DB.Storage) :
  DB.quota st = true ->
  exists page1 st1 theme,
    Theme.toggleTheme (page, st) = (JS.Ok tt, (page1, st1))
    /\ isTheme theme
    /\ (theme = "light" <-> Theme.dataTheme page = Some "dark")
    /\ Theme.dataTheme page1 = Some theme
    /\ DB.item_THEME st1 = Some theme
    /\ stored st1 = stored st
    /\ (forall reloaded,
           exists page2,
             Theme.initTheme (reloaded, st1) = (JS.Ok tt, (page2, st1))
             /\ Theme.dataTheme page2 = Some theme)
    /\ (forall current,
           isTheme current -> Theme.dataTheme page = Some current ->
           exists page2 st2,
             Theme.toggleTheme (page1, st1) = (JS.Ok tt, (page2, st2))
             /\ Theme.dataTheme page2 = Some current
             /\ DB.item_THEME st2 = Some current).
Proof.
  intros Hquota.
  set (theme := match Theme.dataTheme page with
                | Some c => if String.eqb c "dark" then "light" else "dark"
                | None => "dark"
                end).
  assert (Hrun : Theme.toggleTheme (page, st) = Theme.setTheme theme (page, st))
    by reflexivity.
  assert (Htheme : isTheme theme).
  { unfold theme, isTheme. destruct (Theme.dataTheme page) as [c | ];
      [destruct (String.eqb c "dark") | ]; tauto. }
  unfold Theme.setTheme in Hrun. rewrite Hquota in Hrun.
  eexists. eexists. exists theme.
  split; [exact Hrun | ]. split; [exact Htheme | ].
  split; [ | split; [ | split; [reflexivity | split; [reflexivity | split]]]].
  - unfold theme. destruct (Theme.dataTheme page) as [c | ].
    + destruct (String.eqb c "dark") eqn:Hc.
      * apply String.eqb_eq in Hc. subst. tauto.
      * apply String.eqb_neq in Hc. split; [discriminate | ].
        intros [= ->]. now elim Hc.
    + split; discriminate.
  - now rewrite updateThemeIcon_dataTheme.
  - intros reloaded. unfold Theme.initTheme.
    cbn [DB.item_THEME].
    replace (JS.nonEmpty theme) with true
      by (destruct Htheme as [-> | ->]; reflexivity).
    unfold Theme.setTheme. cbn [DB.quota DB.item_TASKS DB.item_SETTINGS].
    eexists. split; [reflexivity | ].
    now rewrite updateThemeIcon_dataTheme.
  - intros current Hcurrent Hpage.
    unfold Theme.toggleTheme, Theme.setTheme.
    cbn [fst DB.quota DB.item_TASKS DB.item_SETTINGS].
    eexists. eexists. split; [reflexivity | ].
    assert (Hnext : match Theme.dataTheme (Theme.updateThemeIcon theme
                            {| Theme.dataTheme := Some theme;
                               Theme.themeToggle := Theme.themeToggle page;
                               Theme.prefersDark := Theme.prefersDark page |}) with
                    | Some c => if String.eqb c "dark" then "light" else "dark"
                    | None => "dark"
                    end = current).
    { rewrite updateThemeIcon_dataTheme. cbn [Theme.dataTheme].
      unfold theme. rewrite Hpage.
      destruct Hcurrent as [-> | ->]; reflexivity. }
    rewrite Hnext. split; [ | reflexivity].
    now rewrite updateThemeIcon_dataTheme.
Qed.

Lemma toggleTheme_alternates_and_persists_witness :
  exists page1 st1,
    Theme.toggleTheme (lightPage, emptyStorage) = (JS.Ok tt, (page1, st1))
    /\ Theme.dataTheme page1 = Some "dark"
    /\ DB.item_THEME st1 = Some "dark".
Proof.
  destruct (toggleTheme_alternates_and_persists lightPage emptyStorage eq_refl)
    as (page1 & st1 & theme & Hrun & [-> | ->] & Hlight & Hattr & Hitem & _).
  - exists page1, st1. repeat split; assumption.
  - exfalso. destruct Hlight as [Hlight _].
    specialize (Hlight eq_refl). discriminate.
Defined.

(** X26.  On a store that refuses the write, [setTheme] fails with the
    error of the store after it has set the [data-theme] attribute: the
    page carries the new theme, the stored item keeps its old value, and
    the icons of the theme toggle are not updated.  [initTheme] and
    [toggleTheme] fail in the same way. *)
Theorem setTheme_refused_write (theme : string) (page : Theme.Page)
        (st : DB.Storage) :
  DB.quota st = false ->
  (exists page1,
      Theme.setTheme theme (page, st) = (JS.Throw JS.QuotaExceededError, (page1, st))
      /\ Theme.dataTheme page1 = Some theme
      /\ Theme.themeToggle page1 = Theme.themeToggle page)
  /\ fst (Theme.initTheme (page, st)) = JS.Throw JS.QuotaExceededError
  /\ fst (Theme.toggleTheme (page, st)) = JS.Throw JS.QuotaExceededError
  /\ snd (snd (Theme.toggleTheme (page, st))) = st.
Proof.
  intros Hquota. split; [ | split; [ | split]].
  - unfold Theme.setTheme. rewrite Hquota. eexists. now split.
  - unfold Theme.initTheme, Theme.setTheme. now rewrite Hquota.
  - unfold Theme.toggleTheme, Theme.setTheme. now rewrite Hquota.
  - unfold Theme.toggleTheme, Theme.setTheme. now rewrite Hquota.
Qed.

Lemma setTheme_refused_write_witness :
  exists page1,
    Theme.setTheme "dark" (lightPage, fullStorage)
    = (JS.Throw JS.QuotaExceededError, (page1, fullStorage))
    /\ Theme.dataTheme page1 = Some "dark"
    /\ Theme.themeToggle page1 = Theme.themeToggle lightPage.
Proof.
  exact (proj1 (setTheme_refused_write "dark" lightPage fullStorage eq_refl)).
Defined.

(** ** The latest modification *)

Lemma compareModified_order (a b : TaskData) :
  stampTime a <> JS.NaN -> stampTime b <> JS.NaN ->
  exists c,
    DB.compareModified a b = JS.Ok c
    /\ (c <= 0 -> exists x y, stampTime a = JS.Num x /\ stampTime b = JS.Num y
                              /\ y <= x)
    /\ (0 < c -> exists x y, stampTime b = JS.Num x /\ stampTime a = JS.Num y
                             /\ y <= x).
Proof.
  unfold DB.compareModified. fold (stampTime a). fold (stampTime b).
  destruct (stampTime a) as [ | x]; [now intros H; elim H | ].
  destruct (stampTime b) as [ | y]; [now intros _ H; elim H | ].
  intros _ _. simpl. eexists. split; [reflexivity | ].
  split; intros Hc; [exists x, y | exists y, x]; repeat split; lia.
Qed.

(** X27.  [getLastModified] answers [null] on an empty collection.  On a
    collection in which the stamp [updatedAt || createdAt] of every record
    can be read as a date, it answers the stamp of a stored record whose
    time no other record exceeds.  The store is not written. *)
Theorem getLastModified_latest_stamp (st : DB.Storage) :
  (stored st = [] -> DB.getLastModified st = (JS.Ok JS.Null, st))
  /\ (stored st <> [] ->
      Forall (fun task => stampTime task <> JS.NaN) (stored st) ->
      exists latest time,
        In latest (stored st)
        /\ DB.getLastModified st = (JS.Ok (DB.stamp latest), st)
        /\ stampTime latest = JS.Num time
        /\ forall task t,
             In task (stored st) -> stampTime task = JS.Num t -> t <= time).
Proof.
  unfold DB.getLastModified.
  rewrite (bind_run _ _ st st (stored st) (getTasks_run st)).
  split.
  - now intros ->.
  - intros Hne Hall.
    set (later := fun a b : TaskData =>
                    exists x y, stampTime a = JS.Num x /\ stampTime b = JS.Num y
                                /\ y <= x).
    destruct (Array_sort_ordered DB.compareModified
                (fun task => stampTime task <> JS.NaN) later
                (fun a b Ha Hb => compareModified_order a b Ha Hb)
                (stored st) Hall) as (sorted & Hrun & Hsorted & Hperm).
    assert (Hstrong : StronglySorted later sorted).
    { apply Sorted_StronglySorted; [ | exact Hsorted].
      intros a b c (x & y & Ha & Hb & Hxy) (y' & z & Hb' & Hc & Hyz).
      exists x, z. split; [exact Ha | ]. split; [exact Hc | ].
      rewrite Hb in Hb'. injection Hb' as <-. lia. }
    destruct (stored st) as [| first rest] eqn:Hstored; [now elim Hne | ].
    destruct sorted as [| latest others].
    { apply Permutation_sym, Permutation_nil in Hperm. discriminate. }
    cbn [List.length Nat.eqb].
    rewrite (bind_run _ _ st st (latest :: others)).
    2:{ unfold DB.lift. now rewrite Hrun. }
    assert (Hin : In latest (first :: rest)).
    { apply Permutation_in with (latest :: others);
        [now apply Permutation_sym | now left]. }
    assert (Htime : exists time, stampTime latest = JS.Num time).
    { rewrite Forall_forall in Hall. specialize (Hall latest Hin).
      destruct (stampTime latest) as [ | time]; [now elim Hall | now exists time]. }
    destruct Htime as [time Htime].
    exists latest, time. split; [exact Hin | ]. split; [reflexivity | ].
    split; [exact Htime | ].
    intros task t Htask Ht.
    apply (Permutation_in _ Hperm) in Htask.
    destruct Htask as [<- | Htask].
    + rewrite Htime in Ht. injection Ht as <-. lia.
    + inversion Hstrong as [| ? ? _ Hhead]; subst.
      rewrite Forall_forall in Hhead.
      destruct (Hhead task Htask) as (x & y & Hx & Hy & Hxy).
      rewrite Htime in Hx. injection Hx as <-.
      rewrite Ht in Hy. injection Hy as <-. exact Hxy.
Qed.

Lemma getLastModified_latest_stamp_witness :
  exists latest,
    DB.getLastModified stampedStore = (JS.Ok (DB.stamp latest), stampedStore)
    /\ stampTime latest = JS.Num 1736668800000.
Proof.
  destruct (proj2 (getLastModified_latest_stamp stampedStore))
    as (latest & time & Hin & Hrun & Htime & Hmax).
  - discriminate.
  - repeat constructor; discriminate.
  - exists latest. split; [exact Hrun | ].
    rewrite Htime. f_equal.
    assert (Hle : 1736668800000 <= time).
    { apply (Hmax (stamped "task_3" "Gamma notes" "2025-01-12T08:00:00.000Z"));
        [simpl; tauto | reflexivity]. }
    destruct Hin as [<- | [<- | [<- | []]]];
      vm_compute in Htime; injection Htime as <-; lia.
Defined.

(** ** Clearing the collection *)

(** X28.  [clearAllTasks] succeeds on every store, also on one that refuses
    writes.  It leaves the settings and the theme as they are and the
    collection empty: afterwards [getAllTasks] gives no task, the
    statistics count nothing and give the completion rate 0, and
    [getLastModified] answers [null]. *)
Theorem clearAllTasks_empties_collection (env : JS.Env) (st : DB.Storage) :
  exists st',
    DB.clearAllTasks st = (JS.Ok true, st')
    /\ stored st' = []
    /\ DB.item_SETTINGS st' = DB.item_SETTINGS st
    /\ DB.item_THEME st' = DB.item_THEME st
    /\ DB.quota st' = DB.quota st
    /\ TaskService.getAllTasks env st' = (JS.Ok [], st')
    /\ (exists stats,
           TaskService.getStatistics env st' = (JS.Ok stats, st')
           /\ TaskService.total stats = 0%nat
           /\ TaskService.completionRate stats = 0)
    /\ DB.getLastModified st' = (JS.Ok JS.Null, st').
Proof.
  eexists. split; [reflexivity | ].
  split; [reflexivity | ]. split; [reflexivity | ]. split; [reflexivity | ].
  split; [reflexivity | ]. split; [reflexivity | ].
  split; [ | reflexivity].
  eexists. split; [reflexivity | ]. split; reflexivity.
Qed.

(** ** Tags typed into the editor form *)

Lemma isWhiteSpace_lowerChar (c : ascii) :
  JS.isWhiteSpace (JS.lowerChar c) = JS.isWhiteSpace c.
Proof. destruct c as [[] [] [] [] [] [] [] []]; reflexivity. Qed.

Lemma lowerChar_idem (c : ascii) : JS.lowerChar (JS.lowerChar c) = JS.lowerChar c.
Proof. destruct c as [[] [] [] [] [] [] [] []]; reflexivity. Qed.

Lemma toLowerCase_idem (s : string) :
  JS.toLowerCase (JS.toLowerCase s) = JS.toLowerCase s.
Proof.
  induction s as [| c s IH]; simpl; [reflexivity | ].
  now rewrite lowerChar_idem, IH.
Qed.

Lemma trimStart_toLowerCase (s : string) :
  JS.trimStart (JS.toLowerCase s) = JS.toLowerCase (JS.trimStart s).
Proof.
  induction s as [| c s IH]; simpl; [reflexivity | ].
  rewrite isWhiteSpace_lowerChar. now destruct (JS.isWhiteSpace c).
Qed.

Lemma trimEnd_toLowerCase (s : string) :
  JS.trimEnd (JS.toLowerCase s) = JS.toLowerCase (JS.trimEnd s).
Proof.
  induction s as [| c s IH]; simpl; [reflexivity | ].
  rewrite IH, isWhiteSpace_lowerChar.
  destruct (JS.trimEnd s); simpl; [now destruct (JS.isWhiteSpace c) | reflexivity].
Qed.

Lemma trimEnd_idem (s : string) : JS.trimEnd (JS.trimEnd s) = JS.trimEnd s.
Proof.
  induction s as [| c s IH]; simpl; [reflexivity | ].
  destruct (JS.trimEnd s) as [| d r] eqn:Hr.
  - destruct (JS.isWhiteSpace c) eqn:Hc; simpl; [reflexivity | now rewrite Hc].
  - change (JS.trimEnd (String c (String d r)))
      with (match JS.trimEnd (String d r) with
            | EmptyString => if JS.isWhiteSpace c then EmptyString
                             else String c EmptyString
            | r' => String c r'
            end).
    now rewrite IH.
Qed.

Lemma trimStart_shape (s : string) :
  JS.trimStart s = ""
  \/ exists c r, JS.trimStart s = String c r /\ JS.isWhiteSpace c = false.
Proof.
  induction s as [| c s IH]; simpl; [now left | ].
  destruct (JS.isWhiteSpace c) eqn:Hc; [exact IH | ].
  right. now exists c, s.
Qed.

Lemma trim_idem (s : string) : JS.trim (JS.trim s) = JS.trim s.
Proof.
  unfold JS.trim. destruct (trimStart_shape s) as [-> | (c & r & -> & Hc)];
    [reflexivity | ].
  assert (Hhead : exists r', JS.trimEnd (String c r) = String c r').
  { simpl. destruct (JS.trimEnd r); [rewrite Hc | ]; now eexists. }
  destruct Hhead as [r' Hr']. rewrite Hr'.
  simpl JS.trimStart. rewrite Hc. rewrite <- Hr'. apply trimEnd_idem.
Qed.

Lemma normalizeTag_idem (tag : string) :
  normalizeTag (normalizeTag tag) = normalizeTag tag.
Proof.
  unfold normalizeTag, JS.trim.
  rewrite trimStart_toLowerCase, trimEnd_toLowerCase, toLowerCase_idem.
  f_equal. apply trim_idem.
Qed.

(** X29.  The tags the editor form gives are written as [addTag] writes
    them: none is empty and each is its own trimmed lower-case form, so
    that adding one of them to a task that carries it changes nothing.  The
    form does not remove repetitions: a tag typed twice is given twice. *)
Theorem form_tags_are_normalized (f : ModalManager.Form) :
  exists tags,
    d_tags (ModalManager.getFormData f) = JS.Val tags
    /\ Forall (fun tag => tag <> "" /\ normalizeTag tag = tag) tags
    /\ (forall env task tag,
           In tag tags -> In tag (Task.tags task) ->
           Task.addTag env task tag = task)
    /\ (forall tag,
           cleanTag tag ->
           ModalManager.taskTags f = (tag ++ ", " ++ tag)%string ->
           tags = [tag; tag]).
Proof.
  eexists. split; [reflexivity | ].
  assert (Hnormal :
            Forall (fun tag => tag <> "" /\ normalizeTag tag = tag)
                   (if JS.nonEmpty (JS.trim (ModalManager.taskTags f))
                    then ModalManager.parseTags (JS.trim (ModalManager.taskTags f))
                    else [])).
  { destruct (JS.nonEmpty _); [ | constructor].
    unfold ModalManager.parseTags. apply Forall_forall. intros tag Hin.
    apply filter_In in Hin. destruct Hin as [Hin Hne].
    apply in_map_iff in Hin. destruct Hin as (raw & <- & _).
    cbv beta in *. fold (normalizeTag raw) in *. split.
    - intros Hempty. rewrite Hempty in Hne. discriminate.
    - apply normalizeTag_idem. }
  split; [exact Hnormal | ]. split.
  - intros env task tag Hin Htask.
    rewrite Forall_forall in Hnormal. destruct (Hnormal tag Hin) as [_ Hfix].
    unfold Task.addTag. fold (normalizeTag tag). rewrite Hfix.
    apply arr_includes_In in Htask. rewrite Htask.
    now rewrite andb_false_r.
  - intros tag Hclean Htyped. rewrite Htyped.
    exact (parseTags_joined [tag; tag] (Forall_cons _ Hclean
                                          (Forall_cons _ Hclean (Forall_nil _)))).
Qed.

Lemma form_tags_are_normalized_witness :
  d_tags (ModalManager.getFormData typedForm) = JS.Val ["work"; "q1"]
  /\ Task.addTag env0 dueTagged "q1" = dueTagged.
Proof.
  destruct (form_tags_are_normalized typedForm) as (tags & Htags & _ & Hadd & _).
  injection Htags as <-. split; [reflexivity | ].
  apply Hadd; simpl; tauto.
Defined.
